(** * Minesweeper (raylib) board logic: a shallow embedding of [main.c]

    The embedding follows the C source function by function:
    [InitializeBoard], [PlaceMines], [CountNearbyMines], [RevealEmpty]
    (called [RevealEmptyCells] in the refactored copy of the file),
    [RevealAllMines], [HandleMouseInput], [CheckWin] and the body of the
    frame loop of [main].  The window calls are left out.  The
    [PlaySound] calls with their play-once flags and the drawing calls of
    [DrawGame] never write the board, [gameOver] or [win]; they are
    modelled apart from the game logic, in the parts on sound and drawing.

    Every [int] of the game logic stays far inside the 32-bit range
    (coordinates in [-1, 9], counters at most 81), so [int] is modelled
    as [Z] without wrap-around. *)

From stdpp Require Import base tactics option list list_numbers strings.
From Stdlib Require Import ZArith Lia.

Local Open Scope Z_scope.

(** ** Constants ([#define]) *)

Definition ROWS : Z := 9.
Definition COLS : Z := 9.
Definition MINES : Z := 10.

(** ** Data model *)

Record Cell := mkCell {
  revealed : bool;
  hasMine : bool;
  flagged : bool;
  nearbyMines : Z
}.

(** [Cell board[ROWS][COLS]]: a list of rows. *)
Abbreviation Board := (list (list Cell)).

(** What an access outside the array would give; every access of the source
    is guarded by a bounds check, so this value is never read. *)
Definition no_cell : Cell := mkCell false false false 0.

Definition wf_board (b : Board) : Prop :=
  length b = Z.to_nat ROWS ∧ Forall (λ row, length row = Z.to_nat COLS) b.

(** [nr >= 0 && nr < ROWS && nc >= 0 && nc < COLS] *)
Definition in_bounds (r c : Z) : bool :=
  (0 <=? r) && (r <? ROWS) && (0 <=? c) && (c <? COLS).

(** [board[r][c]] as an rvalue *)
Definition cell_at (b : Board) (r c : Z) : Cell :=
  default no_cell (b !! Z.to_nat r ≫= (.!! Z.to_nat c)).

(** [board[r][c] = x] *)
Definition set_cell (b : Board) (r c : Z) (x : Cell) : Board :=
  alter (λ row, <[Z.to_nat c := x]> row) (Z.to_nat r) b.

(** [board[r][c].field = v] *)
Definition set_revealed (b : Board) (r c : Z) (v : bool) : Board :=
  let x := cell_at b r c in
  set_cell b r c (mkCell v (hasMine x) (flagged x) (nearbyMines x)).
Definition set_hasMine (b : Board) (r c : Z) (v : bool) : Board :=
  let x := cell_at b r c in
  set_cell b r c (mkCell (revealed x) v (flagged x) (nearbyMines x)).
Definition set_flagged (b : Board) (r c : Z) (v : bool) : Board :=
  let x := cell_at b r c in
  set_cell b r c (mkCell (revealed x) (hasMine x) v (nearbyMines x)).
Definition set_nearbyMines (b : Board) (r c : Z) (v : Z) : Board :=
  let x := cell_at b r c in
  set_cell b r c (mkCell (revealed x) (hasMine x) (flagged x) v).

(** ** Loops *)

(** [for (r = 0; r < ROWS; r++) for (c = 0; c < COLS; c++) body] *)
Definition for_cells {S : Type} (body : Z → Z → S → S) (s : S) : S :=
  foldl (λ s r, foldl (λ s c, body r c s) s (seqZ 0 COLS)) s (seqZ 0 ROWS).

(** [for (dr = -1; dr <= 1; dr++) for (dc = -1; dc <= 1; dc++)]: the
    offsets in the order the source visits them. *)
Definition offsets : list (Z * Z) :=
  dr ← seqZ (-1) 3; dc ← seqZ (-1) 3; [(dr, dc)].

(** A loop whose body may run out of recursion depth. *)
Fixpoint foldM {A B : Type} (f : B → A → option B) (l : list A) (b : B)
  : option B :=
  match l with
  | [] => Some b
  | x :: l => match f b x with Some b' => foldM f l b' | None => None end
  end.

(** ** Board setup *)

Definition InitializeBoard (b : Board) : Board :=
  for_cells (λ r c b,
    let b := set_revealed b r c false in
    let b := set_hasMine b r c false in
    let b := set_flagged b r c false in
    set_nearbyMines b r c 0) b.

(** [rand()] is a sequence of non-negative draws; [k] is the number of
    draws consumed so far.  The [while (placed < MINES)] loop has no bound
    of its own, so it runs on [fuel] iterations and gives [None] when they
    are used up. *)
Fixpoint PlaceMines_loop (fuel : nat) (rand : nat → nat) (k : nat)
    (placed : Z) (b : Board) : option Board :=
  if placed <? MINES then
    match fuel with
    | O => None
    | S fuel =>
      let r := Z.rem (Z.of_nat (rand k)) ROWS in
      let c := Z.rem (Z.of_nat (rand (S k))) COLS in
      if negb (hasMine (cell_at b r c))
      then PlaceMines_loop fuel rand (S (S k)) (placed + 1) (set_hasMine b r c true)
      else PlaceMines_loop fuel rand (S (S k)) placed b
    end
  else Some b.

Definition PlaceMines (fuel : nat) (rand : nat → nat) (b : Board)
  : option Board :=
  PlaceMines_loop fuel rand 0%nat 0 b.

(** The inner two loops of [CountNearbyMines]: the mines among the 3x3
    block around [(r, c)] that lie in the grid. *)
Definition count_around (b : Board) (r c : Z) : Z :=
  foldl (λ count '(dr, dc),
    let nr := r + dr in
    let nc := c + dc in
    if in_bounds nr nc && hasMine (cell_at b nr nc) then count + 1 else count)
    0 offsets.

Definition CountNearbyMines (b : Board) : Board :=
  for_cells (λ r c b,
    if hasMine (cell_at b r c) then b
    else set_nearbyMines b r c (count_around b r c)) b.

(** ** Game mechanics *)

Section Cascade.
(** The order in which the neighbours are visited; the source uses
    [offsets]. *)
Variable order : list (Z * Z).

Fixpoint RevealEmptyIn (fuel : nat) (b : Board) (row col : Z)
  : option Board :=
  match fuel with
  | O => None
  | S fuel =>
    foldM (λ b '(dr, dc),
      let nr := row + dr in
      let nc := col + dc in
      if in_bounds nr nc then
        if negb (revealed (cell_at b nr nc)) && negb (hasMine (cell_at b nr nc))
        then
          let b := set_revealed b nr nc true in
          if nearbyMines (cell_at b nr nc) =? 0
          then RevealEmptyIn fuel b nr nc
          else Some b
        else Some b
      else Some b) order b
  end.
End Cascade.

(** [RevealEmpty] ([RevealEmptyCells] in the refactored copy); [fuel]
    bounds the depth of the recursion. *)
Definition RevealEmpty : nat → Board → Z → Z → option Board :=
  RevealEmptyIn offsets.

Definition RevealAllMines (b : Board) : Board :=
  for_cells (λ r c b,
    if hasMine (cell_at b r c) then set_revealed b r c true else b) b.

(** ** Input handling and the frame loop *)

(** What [main] reads from raylib in one frame: the cell under the mouse
    ([(int)(mouse.y / CELL_SIZE)], [(int)(mouse.x / CELL_SIZE)]) and the two
    [IsMouseButtonPressed] answers. *)
Record Input := mkInput {
  mouse_row : Z;
  mouse_col : Z;
  left_pressed : bool;
  right_pressed : bool
}.

(** The [if (IsMouseButtonPressed(MOUSE_LEFT_BUTTON))] block. *)
Definition left_click (fuel : nat) (b : Board) (gameOver : bool) (row col : Z)
  : option (Board * bool) :=
  if in_bounds row col then
    if negb (flagged (cell_at b row col)) && negb (revealed (cell_at b row col))
    then
      let b := set_revealed b row col true in
      if hasMine (cell_at b row col) then
        Some (RevealAllMines b, true)
      else if nearbyMines (cell_at b row col) =? 0 then
        b' ← RevealEmpty fuel b row col; Some (b', gameOver)
      else Some (b, gameOver)
    else Some (b, gameOver)
  else Some (b, gameOver).

(** The [if (IsMouseButtonPressed(MOUSE_RIGHT_BUTTON))] block. *)
Definition right_click (b : Board) (row col : Z) : Board :=
  if in_bounds row col then
    if negb (revealed (cell_at b row col))
    then set_flagged b row col (negb (flagged (cell_at b row col)))
    else b
  else b.

Definition HandleMouseInput (fuel : nat) (b : Board) (gameOver : bool)
    (i : Input) : option (Board * bool) :=
  '(b, gameOver) ←
    (if left_pressed i then left_click fuel b gameOver (mouse_row i) (mouse_col i)
     else Some (b, gameOver));
  Some (if right_pressed i then right_click b (mouse_row i) (mouse_col i) else b,
        gameOver).

(** The counting loop of [CheckWin]. *)
Definition revealedCount (b : Board) : Z :=
  for_cells (λ r c count,
    if revealed (cell_at b r c) && negb (hasMine (cell_at b r c))
    then count + 1 else count) 0.

Definition CheckWin (b : Board) : bool :=
  revealedCount b =? ROWS * COLS - MINES.

(** The variables of [main] that the loop updates. *)
Record Game := mkGame {
  board : Board;
  gameOver : bool;
  win : bool
}.

(** One iteration of [while (!WindowShouldClose())], drawing left out. *)
Definition frame (fuel : nat) (g : Game) (i : Input) : option Game :=
  if negb (gameOver g) && negb (win g) then
    '(b, over) ← HandleMouseInput fuel (board g) (gameOver g) i;
    Some (mkGame b over (if CheckWin b then true else win g))
  else Some g.

(** [main] before the loop; [b0] is the uninitialised array. *)
Definition NewGame (fuel : nat) (rand : nat → nat) (b0 : Board) : option Game :=
  b ← PlaceMines fuel rand (InitializeBoard b0);
  Some (mkGame (CountNearbyMines b) false false).

(** The status line drawn at the bottom: [gameOver] is tested first. *)
Inductive GamePhase := Playing | Won | Lost.

Definition phase (g : Game) : GamePhase :=
  if gameOver g then Lost else if win g then Won else Playing.

(** The states the program can be in. *)
Inductive reachable : Game → Prop :=
  | reachable_new fuel rand b0 g :
      wf_board b0 → NewGame fuel rand b0 = Some g → reachable g
  | reachable_frame fuel g i g' :
      reachable g → frame fuel g i = Some g' → reachable g'.

(** The grid loops are unrolled by evaluation only. *)
Global Arguments for_cells : simpl never.
Global Arguments offsets : simpl never.
Global Arguments InitializeBoard : simpl never.
Global Arguments CountNearbyMines : simpl never.
Global Arguments count_around : simpl never.
Global Arguments RevealAllMines : simpl never.
Global Arguments RevealEmpty : simpl never.
Global Arguments revealedCount : simpl never.
Global Arguments CheckWin : simpl never.

(** * Specification vocabulary, invariants and sample data *)

(** The cells in the order [for_cells] visits them. *)
Definition all_cells : list (Z * Z) :=
  r ← seqZ 0 ROWS; c ← seqZ 0 COLS; [(r, c)].

Global Arguments all_cells : simpl never.

(** The number of grid cells whose contents satisfy [P]. *)
Definition count_cells (P : Cell → Prop) `{!∀ x, Decision (P x)} (b : Board) : nat :=
  length (filter (λ p, P (cell_at b p.1 p.2)) all_cells).

Definition indicator (P : Prop) `{!Decision P} : nat := if decide P then 1 else 0.

(** What [CountNearbyMines] writes into one cell. *)
Definition counted (b : Board) (r c : Z) (x : Cell) : Cell :=
  if hasMine x then x
  else mkCell (revealed x) (hasMine x) (flagged x) (count_around b r c).

(** What [RevealAllMines] writes into one cell. *)
Definition mine_shown (x : Cell) : Cell :=
  if hasMine x then mkCell true (hasMine x) (flagged x) (nearbyMines x) else x.

(** The counter of [CheckWin] is the number of revealed safe cells. *)
Definition revealed_safe (x : Cell) : Prop := revealed x = true ∧ hasMine x = false.
Definition mined (x : Cell) : Prop := hasMine x = true.
Definition hidden (x : Cell) : Prop := revealed x = false.

(** A cell once it is opened. *)
Definition shown (x : Cell) : Cell :=
  mkCell true (hasMine x) (flagged x) (nearbyMines x).

(** [opens b b']: [b'] is [b] with some hidden safe cells opened and
    nothing else touched. *)
Definition opens (b b' : Board) : Prop :=
  wf_board b' ∧
  ∀ r c, in_bounds r c = true →
    cell_at b' r c = cell_at b r c ∨
    (revealed (cell_at b r c) = false ∧ hasMine (cell_at b r c) = false ∧
     cell_at b' r c = shown (cell_at b r c)).

(** The body of the two [for] loops of [RevealEmpty], with the recursive
    call at depth [fuel]. *)
Definition visit (order : list (Z * Z)) (fuel : nat) (row col : Z) (b : Board)
    (d : Z * Z) : option Board :=
  let nr := row + d.1 in
  let nc := col + d.2 in
  if in_bounds nr nc then
    if negb (revealed (cell_at b nr nc)) && negb (hasMine (cell_at b nr nc))
    then
      let b := set_revealed b nr nc true in
      if nearbyMines (cell_at b nr nc) =? 0
      then RevealEmptyIn order fuel b nr nc
      else Some b
    else Some b
  else Some b.

Definition cell (b : Board) (p : Z * Z) : Cell := cell_at b p.1 p.2.

Definition safe_at (b : Board) (p : Z * Z) : Prop :=
  in_bounds p.1 p.2 = true ∧ hasMine (cell b p) = false.

Definition zero_at (b : Board) (p : Z * Z) : Prop :=
  safe_at b p ∧ nearbyMines (cell b p) = 0.

(** [q] lies in the 3x3 block around [p]. *)
Definition adjacent (p q : Z * Z) : Prop :=
  -1 ≤ q.1 - p.1 ≤ 1 ∧ -1 ≤ q.2 - p.2 ≤ 1.

(** The zero-count cells linked to [s] by a chain of adjacent zero-count
    cells. *)
Inductive zero_region (b : Board) (s : Z * Z) : Z * Z → Prop :=
  | region_start : zero_region b s s
  | region_step p q :
      zero_region b s p → adjacent p q → zero_at b q → zero_region b s q.

(** The safe cells with a non-zero count that touch the region. *)
Definition border_ring (b : Board) (s q : Z * Z) : Prop :=
  safe_at b q ∧ nearbyMines (cell b q) ≠ 0 ∧
  ∃ p, zero_region b s p ∧ adjacent p q.

Definition cascade_area (b : Board) (s q : Z * Z) : Prop :=
  zero_region b s q ∨ border_ring b s q.

(** Everything the cascade from [s] opens touches the zero region of [s]. *)
Definition touches (b0 : Board) (s q : Z * Z) : Prop :=
  safe_at b0 q ∧ ∃ p, zero_region b0 s p ∧ adjacent p q.

Definition opens_within (b0 : Board) (s : Z * Z) (b b' : Board) : Prop :=
  opens b b' ∧
  ∀ q, in_bounds q.1 q.2 = true → revealed (cell b' q) = true →
    revealed (cell b q) = true ∨ touches b0 s q.

(** [p] is closed when every safe cell around it is open. *)
Definition closed (b : Board) (p : Z * Z) : Prop :=
  ∀ q, adjacent p q → safe_at b q → revealed (cell b q) = true.

(** The zero-count cells opened between [b] and [b'] are closed. *)
Definition settled (b b' : Board) : Prop :=
  ∀ q, zero_at b q → revealed (cell b q) = false →
    revealed (cell b' q) = true → closed b' q.

(** The eight neighbours of a cell, as the specification counts them: the
    other cells of the 3x3 block. *)
Definition is_neighbour (p q : Z * Z) : Prop := adjacent p q ∧ q ≠ p.

(** Brute-force reference count over the whole grid. *)
Definition mined_neighbours (b : Board) (r c : Z) : nat :=
  length (filter (λ q, is_neighbour (r, c) q ∧ hasMine (cell b q) = true) all_cells).

(** [b'] has the mines and counts of [b], and the same safe cells open. *)
Definition same_safe (b b' : Board) : Prop :=
  wf_board b' ∧
  ∀ r c, in_bounds r c = true →
    hasMine (cell_at b' r c) = hasMine (cell_at b r c) ∧
    nearbyMines (cell_at b' r c) = nearbyMines (cell_at b r c) ∧
    (hasMine (cell_at b r c) = false →
       revealed (cell_at b' r c) = revealed (cell_at b r c)).

(** The two ways a left click changes the board, and the clicks without
    effect. *)
Inductive click_result (fuel : nat) (b : Board) (over : bool) (row col : Z)
  : Board → bool → Prop :=
  | click_ignored :
      in_bounds row col = false ∨ flagged (cell_at b row col) = true ∨
        revealed (cell_at b row col) = true →
      click_result fuel b over row col b over
  | click_mine :
      in_bounds row col = true → flagged (cell_at b row col) = false →
      revealed (cell_at b row col) = false → hasMine (cell_at b row col) = true →
      click_result fuel b over row col
        (RevealAllMines (set_revealed b row col true)) true
  | click_number :
      in_bounds row col = true → flagged (cell_at b row col) = false →
      revealed (cell_at b row col) = false → hasMine (cell_at b row col) = false →
      nearbyMines (cell_at b row col) ≠ 0 →
      click_result fuel b over row col (set_revealed b row col true) over
  | click_cascade b' :
      in_bounds row col = true → flagged (cell_at b row col) = false →
      revealed (cell_at b row col) = false → hasMine (cell_at b row col) = false →
      nearbyMines (cell_at b row col) = 0 →
      RevealEmpty fuel (set_revealed b row col true) row col = Some b' →
      click_result fuel b over row col b' over.

Record board_inv (b : Board) : Prop := mk_board_inv {
  inv_wf : wf_board b;
  inv_mines : Z.of_nat (count_cells mined b) = MINES;
  inv_counts : ∀ r c, in_bounds r c = true → hasMine (cell_at b r c) = false →
    nearbyMines (cell_at b r c) = Z.of_nat (mined_neighbours b r c);
  inv_closed : ∀ p, zero_at b p → revealed (cell b p) = true → closed b p
}.

Record game_inv (g : Game) : Prop := mk_game_inv {
  inv_board : board_inv (board g);
  inv_win : win g = CheckWin (board g);
  inv_hidden_mines : gameOver g = false →
    ∀ r c, in_bounds r c = true → hasMine (cell_at (board g) r c) = true →
      revealed (cell_at (board g) r c) = false;
  inv_over : gameOver g = true → win g = false
}.

(** [plays g0 g]: [g] is [g0] after some frames. *)
Inductive plays (g0 : Game) : Game → Prop :=
  | plays_start : plays g0 g0
  | plays_frame fuel g i g' :
      plays g0 g → frame fuel g i = Some g' → plays g0 g'.

(** An array before [InitializeBoard]. *)
Definition blank_board : Board := replicate 9 (replicate 9 no_cell).

(** The [rand] of the C standard's example implementation, seeded with 1. *)
Fixpoint lcg_next (n : nat) : Z :=
  match n with
  | O => 1
  | S n => (lcg_next n * 1103515245 + 12345) mod 4294967296
  end.

Definition lcg_rand (k : nat) : nat :=
  Z.to_nat ((lcg_next (S k) / 65536) mod 32768).

(** The game [main] sets up from that generator. *)
Definition sample_game : Game :=
  Eval vm_compute in default (mkGame [] false false) (NewGame 100 lcg_rand blank_board).

(** The game after a left click on the corner [(0, 0)] of [sample_game]. *)
Definition sample_opened : Game :=
  Eval vm_compute in
    default sample_game (frame 82 sample_game (mkInput 0 0 true false)).

(** [sample_game] with a flag on the mined cell [(0, 6)], and that game
    after a left click on the mined cell [(1, 2)]: the game is lost and
    [RevealAllMines] has opened the flagged mine. *)
Definition sample_flagged : Game :=
  Eval vm_compute in
    default sample_game (frame 82 sample_game (mkInput 0 6 false true)).

Definition sample_lost : Game :=
  Eval vm_compute in
    default sample_game (frame 82 sample_flagged (mkInput 1 2 true false)).

(** The cell selected by the draws [k] and [k + 1]. *)
Definition draw_cell (rand : nat → nat) (k : nat) : Z * Z :=
  (Z.rem (Z.of_nat (rand k)) ROWS, Z.rem (Z.of_nat (rand (S k))) COLS).

(** Among the [n] pairs of draws from draw [k] on, the number that select a
    cell neither in [seen] nor selected by an earlier pair. *)
Fixpoint fresh_draws (rand : nat → nat) (n k : nat) (seen : list (Z * Z)) : nat :=
  match n with
  | O => O
  | S n =>
    let p := draw_cell rand k in
    if decide (p ∈ seen) then fresh_draws rand n (S (S k)) seen
    else S (fresh_draws rand n (S (S k)) (p :: seen))
  end.

(** [RevealEmptyIn] with a counter of the calls made, the first included. *)
Fixpoint RevealEmptyCalls (order : list (Z * Z)) (fuel : nat) (b : Board)
    (row col : Z) : option (Board * nat) :=
  match fuel with
  | O => None
  | S fuel =>
    foldM (λ '(b, calls) '(dr, dc),
      let nr := row + dr in
      let nc := col + dc in
      if in_bounds nr nc then
        if negb (revealed (cell_at b nr nc)) && negb (hasMine (cell_at b nr nc))
        then
          let b := set_revealed b nr nc true in
          if nearbyMines (cell_at b nr nc) =? 0
          then
            match RevealEmptyCalls order fuel b nr nc with
            | Some (b, n) => Some (b, (calls + n)%nat)
            | None => None
            end
          else Some (b, calls)
        else Some (b, calls)
      else Some (b, calls)) order (b, 1%nat)
  end.

(** * Runs of several frames and further sample data *)

(** [sample_opened] after a left click on the mined cell [(1, 2)]. *)
Definition sample_opened_lost : Game :=
  Eval vm_compute in
    default sample_game (frame 82 sample_opened (mkInput 1 2 true false)).

(** Several frames in a row. *)
Definition run (fuel : nat) (g : Game) (inputs : list Input) : option Game :=
  foldM (frame fuel) inputs g.

(** [sample_game] after a left click on each of its cells without a mine:
    a won game. *)
Definition sample_won : Game :=
  Eval vm_compute in
    default sample_game
      (run 82 sample_game
         ((λ p : Z * Z, mkInput p.1 p.2 true false) <$>
          filter (λ p, hasMine (cell_at (board sample_game) p.1 p.2) = false) all_cells)).

(** [sample_game] after a right click on [(0, 1)] and a left click on the
    corner [(0, 0)]: the cascade has opened the flagged cell [(0, 1)], which
    is now revealed and still flagged. *)
Definition sample_flag_opened : Game :=
  Eval vm_compute in
    default sample_game
      (run 82 sample_game [mkInput 0 1 false true; mkInput 0 0 true false]).

(** [PlaceMines] run on the board of [sample_game], which already has its
    [MINES] mines. *)
Definition sample_remined : Board :=
  Eval vm_compute in default [] (PlaceMines 100 lcg_rand (board sample_game)).

(** [sample_flagged] (a flag on the mine [(0, 6)]) after a left click on
    each cell without a mine: a won game with a flag left on the board. *)
Definition sample_won_flagged : Game :=
  Eval vm_compute in
    default sample_game
      (run 82 sample_flagged
         ((λ p : Z * Z, mkInput p.1 p.2 true false) <$>
          filter (λ p, hasMine (cell_at (board sample_game) p.1 p.2) = false) all_cells)).

(** ** Sound (the [PlaySound] calls and the play-once flags) *)

(** The five sounds [main] loads. *)
Inductive Sound := sNumber | sBoom | sFlag | sOver | sWin.

#[global] Instance Sound_eq_dec : EqDecision Sound.
Proof. solve_decision. Defined.

(** The three [static bool played...] trackers. *)
Record Audio := mkAudio {
  playedGameOverSound : bool;
  playedWinSound : bool;
  playedBoomSound : bool
}.

(** The state of the flags when [main] starts. *)
Definition audio_off : Audio := mkAudio false false false.

(** The game together with the trackers. *)
Record Session := mkSession {
  game : Game;
  audio : Audio
}.

(** [if (!played) { PlaySound(snd); played = true; }]: the new value of the
    flag and what is heard. *)
Definition play_once (played : bool) (snd : Sound) : bool * list Sound :=
  if negb played then (true, [snd]) else (played, []).

(** [RevealEmpty] of the first copy of the source, which plays [sNumber]
    for every cell it opens; the sounds are listed in the order played. *)
Fixpoint RevealEmptySfx (fuel : nat) (b : Board) (row col : Z)
  : option (Board * list Sound) :=
  match fuel with
  | O => None
  | S fuel =>
    foldM (λ '(b, log) '(dr, dc),
      let nr := row + dr in
      let nc := col + dc in
      if in_bounds nr nc then
        if negb (revealed (cell_at b nr nc)) && negb (hasMine (cell_at b nr nc))
        then
          let b := set_revealed b nr nc true in
          let log := log ++ [sNumber] in
          if nearbyMines (cell_at b nr nc) =? 0
          then
            match RevealEmptySfx fuel b nr nc with
            | Some (b, inner) => Some (b, log ++ inner)
            | None => None
            end
          else Some (b, log)
        else Some (b, log)
      else Some (b, log)) offsets (b, [])
  end.

(** [RevealEmptyCells] of the second copy, which plays nothing. *)
Definition RevealEmptyCells (fuel : nat) (b : Board) (row col : Z)
  : option (Board * list Sound) :=
  b' ← RevealEmpty fuel b row col; Some (b', []).

(** The left-button block with its sounds.  The two copies of the source
    differ here only in the cascade they call, [cascade]. *)
Definition left_click_sfx (cascade : Board → Z → Z → option (Board * list Sound))
    (b : Board) (gameOver : bool) (a : Audio) (row col : Z)
  : option (Board * bool * Audio * list Sound) :=
  if in_bounds row col then
    if negb (flagged (cell_at b row col)) && negb (revealed (cell_at b row col))
    then
      let b := set_revealed b row col true in
      if hasMine (cell_at b row col) then
        let '(boom, log1) := play_once (playedBoomSound a) sBoom in
        let b := RevealAllMines b in
        let '(over, log2) := play_once (playedGameOverSound a) sOver in
        Some (b, true, mkAudio over (playedWinSound a) boom, log1 ++ log2)
      else if nearbyMines (cell_at b row col) =? 0 then
        '(b, log) ← cascade b row col; Some (b, gameOver, a, sNumber :: log)
      else Some (b, gameOver, a, [sNumber])
    else Some (b, gameOver, a, [])
  else Some (b, gameOver, a, []).

(** The right-button block with its sound. *)
Definition right_click_sfx (b : Board) (row col : Z) : Board * list Sound :=
  if in_bounds row col then
    if negb (revealed (cell_at b row col))
    then (set_flagged b row col (negb (flagged (cell_at b row col))), [sFlag])
    else (b, [])
  else (b, []).

(** The win check with its sound. *)
Definition win_check_sfx (b : Board) (win : bool) (a : Audio)
  : bool * Audio * list Sound :=
  if CheckWin b then
    let '(played, log) := play_once (playedWinSound a) sWin in
    (true, mkAudio (playedGameOverSound a) played (playedBoomSound a), log)
  else (win, a, []).

(** The [if (!gameOver && !win)] branch of the frame loop. *)
Definition playing_frame (cascade : Board → Z → Z → option (Board * list Sound))
    (s : Session) (i : Input) : option (Session * list Sound) :=
  '(b, over, a, log1) ←
    (if left_pressed i
     then left_click_sfx cascade (board (game s)) (gameOver (game s)) (audio s)
            (mouse_row i) (mouse_col i)
     else Some (board (game s), gameOver (game s), audio s, []));
  let '(b, log2) :=
    if right_pressed i then right_click_sfx b (mouse_row i) (mouse_col i)
    else (b, []) in
  let '(w, a, log3) := win_check_sfx b (win (game s)) a in
  Some (mkSession (mkGame b over w) a, log1 ++ log2 ++ log3).

(** The [else] branch of the first copy. *)
Definition idle_frame (s : Session) : Session * list Sound :=
  let a := audio s in
  let '(over, log1) :=
    if gameOver (game s) then play_once (playedGameOverSound a) sOver
    else (playedGameOverSound a, []) in
  let '(won, log2) :=
    if win (game s) then play_once (playedWinSound a) sWin
    else (playedWinSound a, []) in
  (mkSession (game s) (mkAudio over won (playedBoomSound a)), log1 ++ log2).

(** One pass of the frame loop of the first copy ([main], lines 67-139). *)
Definition main_loop_v1 (fuel : nat) (s : Session) (i : Input)
  : option (Session * list Sound) :=
  if negb (gameOver (game s)) && negb (win (game s))
  then playing_frame (RevealEmptySfx fuel) s i
  else Some (idle_frame s).

(** One pass of the frame loop of the second copy ([main], lines 396-418,
    with [HandleMouseInput] and [CheckWin]). *)
Definition main_loop_v2 (fuel : nat) (s : Session) (i : Input)
  : option (Session * list Sound) :=
  if negb (gameOver (game s)) && negb (win (game s))
  then playing_frame (RevealEmptyCells fuel) s i
  else Some (s, []).

(** How often [x] is heard in [log]. *)
Definition heard (x : Sound) (log : list Sound) : nat :=
  length (filter (λ y, y = x) log).

(** The trackers say what the game says: the boom and game-over sounds
    have been played exactly if the game is lost, the win sound exactly if
    it is won. *)
Definition in_tune (s : Session) : Prop :=
  playedGameOverSound (audio s) = gameOver (game s) ∧
  playedWinSound (audio s) = win (game s) ∧
  playedBoomSound (audio s) = gameOver (game s).

(** [session_run loop s0 s log]: frames of [loop] lead from [s0] to [s]
    and [log] is what was heard on the way. *)
Inductive session_run (loop : nat → Session → Input → option (Session * list Sound))
    (s0 : Session) : Session → list Sound → Prop :=
  | session_start : session_run loop s0 s0 []
  | session_frame fuel s log i s' l :
      session_run loop s0 s log → loop fuel s i = Some (s', l) →
      session_run loop s0 s' (log ++ l).

(** A session at the start of [main]'s loop (the sample game, trackers
    off) with a flag on the mine [(0, 6)], and the same session after a left
    click on the mine [(1, 2)]. *)
Definition sample_session : Session := mkSession sample_flagged audio_off.

Definition sample_session_lost : Session :=
  mkSession sample_lost (mkAudio true false true).

(** The session [main] starts with on the sample game, and that session
    after a left click on the corner [(0, 0)]. *)
Definition sample_start : Session := mkSession sample_game audio_off.

Definition sample_session_opened : Session := mkSession sample_opened audio_off.

(** ** Drawing ([DrawGame], lines 644-723)

    The raylib calls of [DrawGame] as the list of calls it makes, in order.
    The [float] fields of a [Rectangle] and of a [Vector2] only ever hold
    small integers here ([c * CELL_SIZE], [cell.x + CELL_SIZE / 2 - 8]), so
    they are modelled as [Z].  For [DrawTexturePro] the destination
    rectangle and the tint are kept; the texture is always [boomTexture],
    the source rectangle the whole texture, origin and rotation zero. *)

Definition CELL_SIZE : Z := 60.

(** A [Color] literal of the source, or one of raylib's named colours. *)
Inductive Color :=
  | RGBA (r g b a : Z)
  | WHITE | BLUE | RED | GREEN | RAYWHITE.

Record Rectangle := mkRectangle {
  rect_x : Z;
  rect_y : Z;
  rect_width : Z;
  rect_height : Z
}.

(** The text argument of [DrawText]: [TextFormat("%d", n)] or a literal. *)
Inductive Text :=
  | TextFormat_d (n : Z)
  | TextLiteral (s : string).

Inductive DrawCmd :=
  | BeginDrawing
  | ClearBackground (color : Color)
  | DrawRectangleRec (rec : Rectangle) (color : Color)
  | DrawRectangleLinesEx (rec : Rectangle) (lineThick : Z) (color : Color)
  | DrawTexturePro (dest : Rectangle) (tint : Color)
  | DrawText (text : Text) (posX posY fontSize : Z) (color : Color)
  | DrawTriangle (v1 v2 v3 : Z * Z) (color : Color)
  | EndDrawing.

(** [Rectangle cell = {c * CELL_SIZE, r * CELL_SIZE, CELL_SIZE, CELL_SIZE}] *)
Definition cell_rect (r c : Z) : Rectangle :=
  mkRectangle (c * CELL_SIZE) (r * CELL_SIZE) CELL_SIZE CELL_SIZE.

(** The body of the two loops of [DrawGame]. *)
Definition DrawCell (b : Board) (r c : Z) : list DrawCmd :=
  let cell := cell_rect r c in
  let hiddenColor :=
    if Z.rem (r + c) 2 =? 0 then RGBA 190 224 145 255 else RGBA 170 214 135 255 in
  let revealedColor :=
    if Z.rem (r + c) 2 =? 0 then RGBA 240 210 170 255 else RGBA 225 195 150 255 in
  (if revealed (cell_at b r c) then [DrawRectangleRec cell revealedColor]
   else [DrawRectangleRec cell hiddenColor;
         DrawRectangleLinesEx cell 1 (RGBA 110 110 110 255)]) ++
  (if revealed (cell_at b r c) then
     if hasMine (cell_at b r c) then
       [DrawTexturePro (mkRectangle (rect_x cell) (rect_y cell) CELL_SIZE CELL_SIZE)
          WHITE]
     else if 0 <? nearbyMines (cell_at b r c) then
       [DrawText (TextFormat_d (nearbyMines (cell_at b r c)))
          (rect_x cell + CELL_SIZE ÷ 2 - 8) (rect_y cell + CELL_SIZE ÷ 2 - 12) 25 BLUE]
     else []
   else if flagged (cell_at b r c) then
     [DrawTriangle
        (rect_x cell + CELL_SIZE ÷ 2 - 8, rect_y cell + CELL_SIZE ÷ 2 + 8)
        (rect_x cell + CELL_SIZE ÷ 2 - 8, rect_y cell + CELL_SIZE ÷ 2 - 12)
        (rect_x cell + CELL_SIZE ÷ 2 + 8, rect_y cell + CELL_SIZE ÷ 2 - 2)
        RED]
   else []).

Definition DrawGame (b : Board) (gameOver win : bool) : list DrawCmd :=
  [BeginDrawing; ClearBackground (RGBA 48 99 47 255)] ++
  (r ← seqZ 0 ROWS; c ← seqZ 0 COLS; DrawCell b r c) ++
  [if gameOver then
     DrawText (TextLiteral "GAME OVER!"%string) 10 (ROWS * CELL_SIZE + 10) 30 RED
   else if win then
     DrawText (TextLiteral "YOU WIN!"%string) 10 (ROWS * CELL_SIZE + 10) 30 GREEN
   else
     DrawText (TextLiteral "Left-click: Reveal | Right-click: Flag"%string)
       10 (ROWS * CELL_SIZE + 15) 20 RAYWHITE;
   EndDrawing].

Global Arguments DrawGame : simpl never.

(** What [main] draws at the end of a pass of its loop. *)
Definition screen (g : Game) : list DrawCmd :=
  DrawGame (board g) (gameOver g) (win g).

(** The pixel [(x, y)] lies in the rectangle. *)
Definition inside (rec : Rectangle) (x y : Z) : Prop :=
  rect_x rec ≤ x < rect_x rec + rect_width rec ∧
  rect_y rec ≤ y < rect_y rec + rect_height rec.

(** * Array access lemmas *)

Lemma in_bounds_spec r c :
  in_bounds r c = true ↔ (0 ≤ r < ROWS ∧ 0 ≤ c < COLS).
Proof. unfold in_bounds. rewrite !andb_true_iff. lia. Qed.

Lemma in_bounds_false r c :
  in_bounds r c = false ↔ ¬ (0 ≤ r < ROWS ∧ 0 ≤ c < COLS).
Proof. rewrite <- in_bounds_spec. destruct (in_bounds r c); naive_solver. Qed.

Lemma wf_set_cell b r c x : wf_board b → wf_board (set_cell b r c x).
Proof.
  intros [Hl Hr]. split; unfold set_cell.
  - by rewrite length_alter.
  - apply Forall_alter; [done|]. intros row Hrow. rewrite length_insert.
    eapply Forall_lookup_1 in Hr; eauto.
Qed.

Lemma wf_lookup b r c :
  wf_board b → in_bounds r c = true →
  ∃ row, b !! Z.to_nat r = Some row ∧ row !! Z.to_nat c = Some (cell_at b r c).
Proof.
  intros [Hl Hr] [Hrb Hcb]%in_bounds_spec.
  destruct (lookup_lt_is_Some_2 b (Z.to_nat r)) as [row Hrow]; [unfold ROWS in *; lia|].
  assert (length row = Z.to_nat COLS) as Hlen
    by (eapply Forall_lookup_1 in Hr; eauto).
  destruct (lookup_lt_is_Some_2 row (Z.to_nat c)) as [x Hx]; [unfold COLS in *; lia|].
  exists row. split; [done|]. unfold cell_at. rewrite Hrow. simpl. by rewrite Hx.
Qed.

Lemma cell_at_set_cell_eq b r c x :
  wf_board b → in_bounds r c = true → cell_at (set_cell b r c x) r c = x.
Proof.
  intros Hwf Hb. destruct (wf_lookup b r c Hwf Hb) as (row & Hrow & Hx).
  unfold cell_at, set_cell. rewrite list_lookup_alter_eq, Hrow. simpl.
  rewrite list_lookup_insert_eq; [done|]. by eapply lookup_lt_Some.
Qed.

Lemma cell_at_set_cell_ne b r c r' c' x :
  in_bounds r c = true → in_bounds r' c' = true → (r, c) ≠ (r', c') →
  cell_at (set_cell b r c x) r' c' = cell_at b r' c'.
Proof.
  intros [??]%in_bounds_spec [??]%in_bounds_spec Hne.
  unfold cell_at, set_cell.
  destruct (decide (r = r')) as [->|Hr].
  - rewrite list_lookup_alter_eq. destruct (b !! Z.to_nat r') as [row|]; [|done].
    simpl. rewrite list_lookup_insert_ne; [done|]. intros ?.
    apply Hne. f_equal. lia.
  - rewrite list_lookup_alter_ne; [done|]. lia.
Qed.

Lemma cell_at_set_cell b r c r' c' x :
  wf_board b → in_bounds r c = true → in_bounds r' c' = true →
  cell_at (set_cell b r c x) r' c' =
    if decide ((r, c) = (r', c')) then x else cell_at b r' c'.
Proof.
  intros Hwf Hb Hb'. case_decide as Heq.
  - injection Heq as <- <-. by apply cell_at_set_cell_eq.
  - by apply cell_at_set_cell_ne.
Qed.

Lemma set_cell_id b r c :
  wf_board b → in_bounds r c = true → set_cell b r c (cell_at b r c) = b.
Proof.
  intros Hwf Hb. destruct (wf_lookup b r c Hwf Hb) as (row & Hrow & Hx).
  unfold set_cell. apply list_eq. intros i.
  destruct (decide (i = Z.to_nat r)) as [->|Hi].
  - rewrite list_lookup_alter_eq, Hrow. simpl. by rewrite list_insert_id.
  - by rewrite list_lookup_alter_ne.
Qed.

Lemma set_cell_set_cell b r c x y :
  set_cell (set_cell b r c x) r c y = set_cell b r c y.
Proof.
  unfold set_cell. apply list_eq. intros i.
  destruct (decide (i = Z.to_nat r)) as [->|Hi].
  - rewrite !list_lookup_alter_eq. destruct (b !! Z.to_nat r); [|done].
    simpl. by rewrite list_insert_insert_eq.
  - by rewrite !list_lookup_alter_ne.
Qed.

(** Two boards with the same cells are the same board. *)
Lemma board_ext b b' :
  wf_board b → wf_board b' →
  (∀ r c, in_bounds r c = true → cell_at b r c = cell_at b' r c) → b = b'.
Proof.
  intros Hwf Hwf' Hcells. apply list_eq_same_length with (Z.to_nat ROWS);
    [apply Hwf' | apply Hwf |].
  intros i row row' Hi Hrow Hrow'.
  assert (length row = Z.to_nat COLS) as Hlen
    by (destruct Hwf as [_ H]; eapply Forall_lookup_1 in H; eauto).
  assert (length row' = Z.to_nat COLS) as Hlen'
    by (destruct Hwf' as [_ H]; eapply Forall_lookup_1 in H; eauto).
  apply list_eq_same_length with (Z.to_nat COLS); [done..|].
  intros j x x' Hj Hx Hx'. simpl in *.
  specialize (Hcells (Z.of_nat i) (Z.of_nat j)).
  unfold cell_at in Hcells. rewrite !Nat2Z.id, Hrow, Hrow' in Hcells. simpl in Hcells.
  rewrite Hx, Hx' in Hcells. apply Hcells. apply in_bounds_spec. lia.
Qed.

(** ** Field assignments *)

Section FieldAssignments.
Context (b : Board) (r c r' c' : Z).
Hypothesis Hwf : wf_board b.
Hypothesis Hb : in_bounds r c = true.
Hypothesis Hb' : in_bounds r' c' = true.

Lemma cell_at_set_revealed v :
  cell_at (set_revealed b r c v) r' c' =
    if decide ((r, c) = (r', c'))
    then mkCell v (hasMine (cell_at b r c)) (flagged (cell_at b r c))
                (nearbyMines (cell_at b r c))
    else cell_at b r' c'.
Proof. unfold set_revealed. by apply cell_at_set_cell. Qed.

Lemma cell_at_set_hasMine v :
  cell_at (set_hasMine b r c v) r' c' =
    if decide ((r, c) = (r', c'))
    then mkCell (revealed (cell_at b r c)) v (flagged (cell_at b r c))
                (nearbyMines (cell_at b r c))
    else cell_at b r' c'.
Proof. unfold set_hasMine. by apply cell_at_set_cell. Qed.

Lemma cell_at_set_flagged v :
  cell_at (set_flagged b r c v) r' c' =
    if decide ((r, c) = (r', c'))
    then mkCell (revealed (cell_at b r c)) (hasMine (cell_at b r c)) v
                (nearbyMines (cell_at b r c))
    else cell_at b r' c'.
Proof. unfold set_flagged. by apply cell_at_set_cell. Qed.

Lemma cell_at_set_nearbyMines v :
  cell_at (set_nearbyMines b r c v) r' c' =
    if decide ((r, c) = (r', c'))
    then mkCell (revealed (cell_at b r c)) (hasMine (cell_at b r c))
                (flagged (cell_at b r c)) v
    else cell_at b r' c'.
Proof. unfold set_nearbyMines. by apply cell_at_set_cell. Qed.
End FieldAssignments.

Lemma wf_set_revealed b r c v : wf_board b → wf_board (set_revealed b r c v).
Proof. apply wf_set_cell. Qed.
Lemma wf_set_hasMine b r c v : wf_board b → wf_board (set_hasMine b r c v).
Proof. apply wf_set_cell. Qed.
Lemma wf_set_flagged b r c v : wf_board b → wf_board (set_flagged b r c v).
Proof. apply wf_set_cell. Qed.
Lemma wf_set_nearbyMines b r c v : wf_board b → wf_board (set_nearbyMines b r c v).
Proof. apply wf_set_cell. Qed.

Create HintDb board discriminated.
#[export] Hint Resolve wf_set_cell wf_set_revealed wf_set_hasMine
  wf_set_flagged wf_set_nearbyMines : board.

Lemma if_same_cell {A : Type} (r c : Z) (x y : A) :
  (if decide ((r, c) = (r, c)) then x else y) = x.
Proof. by rewrite decide_True. Qed.

(** Rewrites every read of a freshly written board. *)
Ltac read_cells :=
  repeat first
    [ rewrite if_same_cell
    | rewrite cell_at_set_revealed by eauto with board
    | rewrite cell_at_set_hasMine by eauto with board
    | rewrite cell_at_set_flagged by eauto with board
    | rewrite cell_at_set_nearbyMines by eauto with board ].

(** ** The grid loop, cell by cell *)

Lemma for_cells_foldl {S : Type} (body : Z → Z → S → S) (s : S) :
  for_cells body s = foldl (λ s '(r, c), body r c s) s all_cells.
Proof. reflexivity. Qed.

Lemma elem_of_all_cells r c : (r, c) ∈ all_cells ↔ in_bounds r c = true.
Proof.
  unfold all_cells. rewrite in_bounds_spec, list_elem_of_bind. split.
  - intros (r' & (c' & Hrc & Hc)%list_elem_of_bind & Hr).
    apply list_elem_of_singleton in Hrc. injection Hrc as -> ->.
    apply elem_of_seqZ in Hr, Hc. lia.
  - intros [Hr Hc]. exists r. split; [|apply elem_of_seqZ; lia].
    apply list_elem_of_bind. exists c. split; [by apply list_elem_of_singleton|].
    apply elem_of_seqZ; lia.
Qed.

Lemma NoDup_all_cells : NoDup all_cells.
Proof. apply (bool_decide_unpack _). by vm_compute. Qed.

Lemma elem_of_offsets dr dc :
  (dr, dc) ∈ offsets ↔ (-1 ≤ dr ≤ 1 ∧ -1 ≤ dc ≤ 1).
Proof.
  unfold offsets. rewrite list_elem_of_bind. split.
  - intros (r' & (c' & Hrc & Hc)%list_elem_of_bind & Hr).
    apply list_elem_of_singleton in Hrc. injection Hrc as -> ->.
    apply elem_of_seqZ in Hr, Hc. lia.
  - intros [Hr Hc]. exists dr. split; [|apply elem_of_seqZ; lia].
    apply list_elem_of_bind. exists dc. split; [by apply list_elem_of_singleton|].
    apply elem_of_seqZ; lia.
Qed.

(** A loop that rewrites each listed cell from its own old value, with a
    function [f] of the board that the loop's own writes do not disturb. *)
Section Cellwise.
Variable f : Board → Z → Z → Cell → Cell.
Hypothesis f_stable : ∀ b r c r' c',
  wf_board b → in_bounds r c = true → in_bounds r' c' = true →
  f (set_cell b r c (f b r c (cell_at b r c))) r' c' = f b r' c'.

Lemma cellwise_spec l : ∀ b,
  wf_board b → NoDup l → (∀ r c, (r, c) ∈ l → in_bounds r c = true) →
  wf_board (foldl (λ b '(r, c), set_cell b r c (f b r c (cell_at b r c))) b l) ∧
  ∀ r c, in_bounds r c = true →
    cell_at (foldl (λ b '(r, c), set_cell b r c (f b r c (cell_at b r c))) b l) r c =
      if decide ((r, c) ∈ l) then f b r c (cell_at b r c) else cell_at b r c.
Proof.
  induction l as [|[r0 c0] l IH]; intros b Hwf Hnd Hin.
  - split; [done|]. intros r c _.
    destruct (decide ((r, c) ∈ [])) as [H|]; [|done].
    by apply elem_of_nil in H.
  - apply NoDup_cons in Hnd as [Hnotin Hnd].
    assert (in_bounds r0 c0 = true) as Hb0 by (apply Hin; left).
    destruct (IH (set_cell b r0 c0 (f b r0 c0 (cell_at b r0 c0)))) as [Hwf' Hcells];
      [by apply wf_set_cell | done | intros; apply Hin; by right |].
    split; [done|]. intros r c Hb. simpl.
    rewrite Hcells by done. rewrite f_stable by done.
    rewrite cell_at_set_cell by done.
    destruct (decide ((r0, c0) = (r, c))) as [Heq|Hne].
    + injection Heq as <- <-. rewrite decide_False by done.
      rewrite decide_True by left. done.
    + destruct (decide ((r, c) ∈ l)) as [Hl|Hl].
      * rewrite decide_True by (by right). done.
      * rewrite decide_False; [done|]. intros [?|?]%elem_of_cons; congruence.
Qed.
End Cellwise.

(** ** Counting cells *)

Lemma length_filter_agree {A : Type} (P Q : A → Prop)
    `{!∀ x, Decision (P x)} `{!∀ x, Decision (Q x)} (l : list A) :
  (∀ y, y ∈ l → P y ↔ Q y) → length (filter P l) = length (filter Q l).
Proof.
  induction l as [|y l IH]; intros Hiff; [done|].
  rewrite !filter_cons.
  pose proof (Hiff y ltac:(left)) as Hy.
  assert (length (filter P l) = length (filter Q l)) as Hl
    by (apply IH; intros; apply Hiff; by right).
  repeat case_decide; simpl; try tauto; lia.
Qed.

Lemma length_filter_change {A : Type} `{!EqDecision A} (P Q : A → Prop)
    `{!∀ x, Decision (P x)} `{!∀ x, Decision (Q x)} (l : list A) (x : A) :
  NoDup l → x ∈ l → (∀ y, y ∈ l → y ≠ x → P y ↔ Q y) →
  (length (filter P l) + indicator (Q x) = length (filter Q l) + indicator (P x))%nat.
Proof.
  unfold indicator. induction l as [|y l IH]; intros Hnd Hx Hiff;
    [by apply elem_of_nil in Hx|].
  apply NoDup_cons in Hnd as [Hnotin Hnd]. rewrite !filter_cons.
  destruct (decide (y = x)) as [->|Hne].
  - assert (length (filter P l) = length (filter Q l)) as Hl.
    { apply length_filter_agree. intros y Hy. apply Hiff; [by right|].
      intros ->. done. }
    repeat case_decide; simpl; lia.
  - apply elem_of_cons in Hx as [?|Hx]; [congruence|].
    assert (P y ↔ Q y) as Hy by (apply Hiff; [left|done]).
    assert (∀ y, y ∈ l → y ≠ x → P y ↔ Q y) as Hiff'
      by (intros; apply Hiff; [by right|done]).
    specialize (IH Hnd Hx Hiff').
    repeat case_decide; simpl; try tauto; lia.
Qed.

Lemma count_cells_set_cell (P : Cell → Prop) `{!∀ x, Decision (P x)} b r c x :
  wf_board b → in_bounds r c = true →
  (count_cells P (set_cell b r c x) + indicator (P (cell_at b r c)) =
   count_cells P b + indicator (P x))%nat.
Proof.
  intros Hwf Hb. unfold count_cells.
  pose proof (length_filter_change
    (λ p, P (cell_at (set_cell b r c x) p.1 p.2))
    (λ p, P (cell_at b p.1 p.2)) all_cells (r, c) NoDup_all_cells) as Hch.
  simpl in Hch. rewrite cell_at_set_cell_eq in Hch by done.
  apply Hch; [by apply elem_of_all_cells|].
  intros [r' c'] Hb'%elem_of_all_cells Hne. simpl.
  rewrite cell_at_set_cell_ne; [done..|]. congruence.
Qed.

Lemma count_cells_ext (P Q : Cell → Prop)
    `{!∀ x, Decision (P x)} `{!∀ x, Decision (Q x)} b b' :
  (∀ r c, in_bounds r c = true → P (cell_at b r c) ↔ Q (cell_at b' r c)) →
  count_cells P b = count_cells Q b'.
Proof.
  intros Hiff. apply length_filter_agree. intros [r c] Hb%elem_of_all_cells.
  by apply Hiff.
Qed.

Lemma count_cells_le (P : Cell → Prop) `{!∀ x, Decision (P x)} b :
  (count_cells P b ≤ Z.to_nat (ROWS * COLS))%nat.
Proof.
  unfold count_cells. etrans; [apply length_filter|]. by vm_compute.
Qed.

(** Counting with a loop counter. *)
Lemma foldl_count {A : Type} (P : A → Prop) `{!∀ x, Decision (P x)}
    (t : A → bool) (l : list A) :
  (∀ x, t x = true ↔ P x) →
  ∀ acc, foldl (λ count x, if t x then count + 1 else count) acc l =
         acc + Z.of_nat (length (filter P l)).
Proof.
  intros Ht. induction l as [|x l IH]; intros acc; simpl; [lia|].
  rewrite IH, filter_cons. pose proof (Ht x) as Hx.
  destruct (t x); case_decide; simpl; try lia; exfalso; intuition congruence.
Qed.

(** ** The setup loops and [RevealAllMines], cell by cell *)

Lemma foldl_cells_ext (body1 body2 : Z → Z → Board → Board) (l : list (Z * Z)) :
  (∀ b r c, wf_board b → in_bounds r c = true →
     body1 r c b = body2 r c b ∧ wf_board (body2 r c b)) →
  (∀ r c, (r, c) ∈ l → in_bounds r c = true) →
  ∀ b, wf_board b →
    foldl (λ b '(r, c), body1 r c b) b l = foldl (λ b '(r, c), body2 r c b) b l.
Proof.
  intros Hbody. induction l as [|[r c] l IH]; intros Hin b Hwf; [done|].
  simpl. destruct (Hbody b r c) as [-> Hwf']; [done | apply Hin; left |].
  apply IH; [|done]. intros; apply Hin; by right.
Qed.

(** A grid loop whose body rewrites the visited cell. *)
Lemma for_cells_cellwise (f : Board → Z → Z → Cell → Cell)
    (body : Z → Z → Board → Board) (b : Board) :
  (∀ b r c r' c',
     wf_board b → in_bounds r c = true → in_bounds r' c' = true →
     f (set_cell b r c (f b r c (cell_at b r c))) r' c' = f b r' c') →
  (∀ b r c, wf_board b → in_bounds r c = true →
     body r c b = set_cell b r c (f b r c (cell_at b r c))) →
  wf_board b →
  wf_board (for_cells body b) ∧
  ∀ r c, in_bounds r c = true →
    cell_at (for_cells body b) r c = f b r c (cell_at b r c).
Proof.
  intros Hstable Hbody Hwf. rewrite for_cells_foldl.
  assert (∀ r c, (r, c) ∈ all_cells → in_bounds r c = true) as Hin
    by (intros r c; apply elem_of_all_cells).
  rewrite (foldl_cells_ext body
    (λ r c b, set_cell b r c (f b r c (cell_at b r c))) all_cells); [|  |done|done].
  cbv beta.
  - destruct (cellwise_spec f Hstable all_cells b Hwf NoDup_all_cells Hin)
      as [Hwf' Hcells].
    split; [exact Hwf'|]. intros r c Hb.
    rewrite <- (decide_True (f b r c (cell_at b r c)) (cell_at b r c)
      (proj2 (elem_of_all_cells r c) Hb)).
    exact (Hcells r c Hb).
  - intros b' r c Hwf' Hb. split; [by apply Hbody | by apply wf_set_cell].
Qed.

Lemma InitializeBoard_spec b :
  wf_board b →
  wf_board (InitializeBoard b) ∧
  ∀ r c, in_bounds r c = true →
    cell_at (InitializeBoard b) r c = mkCell false false false 0.
Proof.
  intros Hwf.
  apply (for_cells_cellwise (λ _ _ _ _, mkCell false false false 0)); [done| |done].
  intros b' r c Hwf' Hb.
  apply board_ext; [eauto 6 with board..|]. intros r' c' Hb'.
  read_cells. rewrite cell_at_set_cell by done. simpl. by case_decide.
Qed.

Lemma count_around_ext b b' r c :
  (∀ r' c', in_bounds r' c' = true →
     hasMine (cell_at b r' c') = hasMine (cell_at b' r' c')) →
  count_around b r c = count_around b' r c.
Proof.
  intros Hsame. unfold count_around. generalize 0. generalize offsets.
  induction l as [|[dr dc] l IH]; intros acc; [done|]. simpl.
  destruct (in_bounds (r + dr) (c + dc)) eqn:Hb; simpl; [|apply IH].
  rewrite Hsame by done. apply IH.
Qed.

Lemma counted_stable b r c r' c' :
  wf_board b → in_bounds r c = true → in_bounds r' c' = true →
  counted (set_cell b r c (counted b r c (cell_at b r c))) r' c' = counted b r' c'.
Proof.
  intros Hwf Hb Hb'. unfold counted at 1 3.
  rewrite (count_around_ext _ b); [done|].
  intros r2 c2 Hb2. rewrite cell_at_set_cell by done.
  case_decide as Heq; [|done]. injection Heq as <- <-.
  unfold counted. by destruct (hasMine (cell_at b r c)) eqn:E.
Qed.

Lemma CountNearbyMines_spec b :
  wf_board b →
  wf_board (CountNearbyMines b) ∧
  ∀ r c, in_bounds r c = true →
    cell_at (CountNearbyMines b) r c = counted b r c (cell_at b r c).
Proof.
  intros Hwf. apply (for_cells_cellwise counted); [apply counted_stable| |done].
  intros b' r c Hwf' Hb.
  unfold counted, set_nearbyMines. destruct (hasMine (cell_at b' r c)); [|done].
  by rewrite set_cell_id.
Qed.

Lemma RevealAllMines_spec b :
  wf_board b →
  wf_board (RevealAllMines b) ∧
  ∀ r c, in_bounds r c = true →
    cell_at (RevealAllMines b) r c = mine_shown (cell_at b r c).
Proof.
  intros Hwf. apply (for_cells_cellwise (λ _ _ _, mine_shown)); [done| |done].
  intros b' r c Hwf' Hb.
  unfold mine_shown, set_revealed. destruct (hasMine (cell_at b' r c)); [done|].
  by rewrite set_cell_id.
Qed.

Lemma revealedCount_spec b :
  revealedCount b = Z.of_nat (count_cells revealed_safe b).
Proof.
  unfold revealedCount, count_cells. rewrite for_cells_foldl.
  rewrite <- (Z.add_0_l (Z.of_nat _)).
  rewrite <- (foldl_count _
    (λ p, revealed (cell_at b p.1 p.2) && negb (hasMine (cell_at b p.1 p.2)))).
  - generalize 0. generalize all_cells.
    induction l as [|[r c] l IH]; intros acc; [done|]. simpl. apply IH.
  - intros [r c]. simpl. unfold revealed_safe.
    rewrite andb_true_iff, negb_true_iff. done.
Qed.

Lemma CheckWin_spec b :
  CheckWin b = true ↔
  Z.of_nat (count_cells revealed_safe b) = ROWS * COLS - MINES.
Proof. unfold CheckWin. rewrite revealedCount_spec. apply Z.eqb_eq. Qed.

(** * The cascade *)

Lemma opens_refl b : wf_board b → opens b b.
Proof. intros Hwf. split; [done|]. by left. Qed.

Lemma opens_trans b1 b2 b3 : opens b1 b2 → opens b2 b3 → opens b1 b3.
Proof.
  intros [Hwf2 H12] [Hwf3 H23]. split; [done|]. intros r c Hb.
  destruct (H12 r c Hb) as [E12|(Hr & Hm & E12)],
           (H23 r c Hb) as [E23|(Hr' & Hm' & E23)]; rewrite E23, E12.
  - by left.
  - rewrite E12 in Hr', Hm'. by right.
  - by right.
  - rewrite E12 in Hr'. done.
Qed.

Lemma opens_set_revealed b r c :
  wf_board b → in_bounds r c = true →
  revealed (cell_at b r c) = false → hasMine (cell_at b r c) = false →
  opens b (set_revealed b r c true).
Proof.
  intros Hwf Hb Hr Hm. split; [by apply wf_set_revealed|]. intros r' c' Hb'.
  read_cells. case_decide as Heq; [|by left]. injection Heq as <- <-. by right.
Qed.

Section OpensFacts.
Context (b b' : Board) (r c : Z).
Hypothesis Hopens : opens b b'.
Hypothesis Hb : in_bounds r c = true.

Lemma opens_wf : wf_board b'.
Proof. apply Hopens. Qed.

Lemma opens_hasMine : hasMine (cell_at b' r c) = hasMine (cell_at b r c).
Proof. destruct Hopens as [_ H]. by destruct (H r c Hb) as [->|(_ & _ & ->)]. Qed.

Lemma opens_flagged : flagged (cell_at b' r c) = flagged (cell_at b r c).
Proof. destruct Hopens as [_ H]. by destruct (H r c Hb) as [->|(_ & _ & ->)]. Qed.

Lemma opens_nearbyMines : nearbyMines (cell_at b' r c) = nearbyMines (cell_at b r c).
Proof. destruct Hopens as [_ H]. by destruct (H r c Hb) as [->|(_ & _ & ->)]. Qed.

Lemma opens_revealed_mono :
  revealed (cell_at b r c) = true → revealed (cell_at b' r c) = true.
Proof.
  destruct Hopens as [_ H].
  destruct (H r c Hb) as [->|(Hr & _ & _)]; [done|congruence].
Qed.

Lemma opens_newly_safe :
  revealed (cell_at b r c) = false → revealed (cell_at b' r c) = true →
  hasMine (cell_at b r c) = false.
Proof.
  destruct Hopens as [_ H].
  destruct (H r c Hb) as [->|(_ & Hm & _)]; [congruence|done].
Qed.
End OpensFacts.

Lemma foldM_ext {A B : Type} (f g : B → A → option B) (l : list A) (b : B) :
  (∀ b x, f b x = g b x) → foldM f l b = foldM g l b.
Proof.
  intros Hfg. revert b. induction l as [|x l IH]; intros b; [done|].
  simpl. rewrite Hfg. by destruct (g b x).
Qed.

(** A loop keeps what every pass of its body keeps. *)
Lemma foldM_rel {A B : Type} (P : B → Prop) (R : B → B → Prop)
    (f : B → A → option B) (l : list A) :
  (∀ b, P b → R b b) →
  (∀ b1 b2 b3, R b1 b2 → R b2 b3 → R b1 b3) →
  (∀ b x b', x ∈ l → P b → f b x = Some b' → R b b' ∧ P b') →
  ∀ b b', P b → foldM f l b = Some b' → R b b' ∧ P b'.
Proof.
  intros Hrefl Htrans. induction l as [|x l IH]; intros Hf b b' HP Hrun;
    simpl in Hrun.
  - injection Hrun as <-. auto.
  - destruct (f b x) as [b1|] eqn:Hfx; [|done].
    destruct (Hf b x b1) as [HR1 HP1]; [by left|done..|].
    destruct (IH (λ b x b' Hx, Hf b x b' (list_elem_of_further _ _ _ Hx)) b1 b')
      as [HR2 HP2]; [done..|].
    eauto.
Qed.

Lemma length_filter_le {A : Type} (P Q : A → Prop)
    `{!∀ x, Decision (P x)} `{!∀ x, Decision (Q x)} (l : list A) :
  (∀ y, y ∈ l → P y → Q y) → (length (filter P l) ≤ length (filter Q l))%nat.
Proof.
  induction l as [|y l IH]; intros Himp; [done|].
  rewrite !filter_cons.
  pose proof (Himp y ltac:(left)) as Hy.
  assert (length (filter P l) ≤ length (filter Q l))%nat as Hl
    by (apply IH; intros; apply Himp; [by right|done]).
  repeat case_decide; simpl; try tauto; lia.
Qed.

Lemma opens_hidden_le b b' :
  opens b b' → (count_cells hidden b' ≤ count_cells hidden b)%nat.
Proof.
  intros Hopens. apply length_filter_le. intros [r c] Hb%elem_of_all_cells.
  unfold hidden. simpl. intros Hh.
  destruct (revealed (cell_at b r c)) eqn:Hr; [|done].
  rewrite (opens_revealed_mono b b' r c) in Hh; done.
Qed.

Lemma hidden_set_revealed b r c :
  wf_board b → in_bounds r c = true → revealed (cell_at b r c) = false →
  S (count_cells hidden (set_revealed b r c true)) = count_cells hidden b.
Proof.
  intros Hwf Hb Hr. unfold set_revealed.
  pose proof (count_cells_set_cell hidden b r c
    (mkCell true (hasMine (cell_at b r c)) (flagged (cell_at b r c))
            (nearbyMines (cell_at b r c))) Hwf Hb) as Hcount.
  unfold indicator in Hcount.
  rewrite decide_True, decide_False in Hcount by (unfold hidden; simpl; congruence).
  lia.
Qed.

Section CascadeFacts.
Variable order : list (Z * Z).

Lemma RevealEmptyIn_unfold fuel b row col :
  RevealEmptyIn order (S fuel) b row col = foldM (visit order fuel row col) order b.
Proof. simpl. apply foldM_ext. by intros b' [dr dc]. Qed.

(** The cascade only opens hidden safe cells. *)
Lemma visit_opens fuel row col b d b' :
  (∀ b row col b',
     wf_board b → RevealEmptyIn order fuel b row col = Some b' → opens b b') →
  wf_board b → visit order fuel row col b d = Some b' → opens b b'.
Proof.
  intros IHfuel Hwf Hvisit. unfold visit in Hvisit.
  destruct (in_bounds _ _) eqn:Hb; [|injection Hvisit as <-; by apply opens_refl].
  destruct (negb _ && negb _) eqn:Hhid;
    [|injection Hvisit as <-; by apply opens_refl].
  apply andb_true_iff in Hhid as [Hr%negb_true_iff Hm%negb_true_iff].
  simpl in Hvisit. pose proof (opens_set_revealed _ _ _ Hwf Hb Hr Hm) as Hset.
  destruct (_ =? 0).
  - eapply opens_trans; [done|]. eapply IHfuel; [|done]. by apply wf_set_revealed.
  - by injection Hvisit as <-.
Qed.

Lemma RevealEmptyIn_opens fuel : ∀ b row col b',
  wf_board b → RevealEmptyIn order fuel b row col = Some b' → opens b b'.
Proof.
  induction fuel as [|fuel IHfuel]; intros b row col b' Hwf Hrun; [done|].
  rewrite RevealEmptyIn_unfold in Hrun.
  eapply (foldM_rel wf_board opens); [apply opens_refl|apply opens_trans| |done..].
  intros b1 d b2 _ Hwf1 Hvisit.
  assert (opens b1 b2) by (by eapply visit_opens). eauto using opens_wf.
Qed.

(** Recursion depth: one more than the number of hidden cells is enough. *)
Lemma RevealEmptyIn_terminates fuel : ∀ b row col,
  wf_board b → (count_cells hidden b < fuel)%nat →
  is_Some (RevealEmptyIn order fuel b row col).
Proof.
  induction fuel as [|fuel IHfuel]; intros b row col Hwf Hlt; [lia|].
  rewrite RevealEmptyIn_unfold. revert b Hwf Hlt.
  generalize order at 2. intros l.
  induction l as [|d l IH]; intros b Hwf Hlt; simpl; [done|].
  assert (∃ b1, visit order fuel row col b d = Some b1 ∧ opens b b1) as (b1 & -> & H1).
  { unfold visit.
    destruct (in_bounds _ _) eqn:Hb; [|eauto using opens_refl].
    destruct (negb _ && negb _) eqn:Hhid; [|eauto using opens_refl].
    apply andb_true_iff in Hhid as [Hr%negb_true_iff Hm%negb_true_iff]. simpl.
    pose proof (opens_set_revealed _ _ _ Hwf Hb Hr Hm) as Hset.
    destruct (_ =? 0); [|eauto].
    pose proof (hidden_set_revealed _ _ _ Hwf Hb Hr) as Hcount.
    destruct (IHfuel (set_revealed b (row + d.1) (col + d.2) true)
                (row + d.1) (col + d.2)) as [b1 Hrun];
      [by apply wf_set_revealed | lia |].
    exists b1. split; [done|]. eapply opens_trans; [done|].
    eapply RevealEmptyIn_opens; [|done]. by apply wf_set_revealed. }
  apply IH; [by eapply opens_wf|]. pose proof (opens_hidden_le _ _ H1). lia.
Qed.

(** A deeper stack gives the same board. *)
Lemma RevealEmptyIn_fuel_mono fuel : ∀ fuel' b row col b',
  (fuel ≤ fuel')%nat → RevealEmptyIn order fuel b row col = Some b' →
  RevealEmptyIn order fuel' b row col = Some b'.
Proof.
  induction fuel as [|fuel IHfuel]; intros fuel' b row col b' Hle Hrun; [done|].
  destruct fuel' as [|fuel']; [lia|]. rewrite RevealEmptyIn_unfold in *.
  revert b Hrun. generalize order at 2 4. intros l.
  induction l as [|d l IH]; intros b Hrun; simpl in *; [done|].
  destruct (visit order fuel row col b d) as [b1|] eqn:Hvisit; [|done].
  assert (visit order fuel' row col b d = Some b1) as ->; [|by apply IH].
  unfold visit in *. destruct (in_bounds _ _); [|done].
  destruct (negb _ && negb _); [|done]. simpl in *.
  destruct (_ =? 0); [|done]. apply IHfuel; [lia|done].
Qed.
End CascadeFacts.

(** ** What the cascade reaches *)

Lemma adjacent_refl p : adjacent p p.
Proof. unfold adjacent. lia. Qed.

Lemma zero_region_zero b s q : zero_at b s → zero_region b s q → zero_at b q.
Proof. intros Hs Hq. by destruct Hq. Qed.

Lemma cascade_area_touch b s q :
  zero_at b s →
  cascade_area b s q ↔ safe_at b q ∧ ∃ p, zero_region b s p ∧ adjacent p q.
Proof.
  intros Hs. split.
  - intros [Hq|(Hsafe & _ & Hp)]; [|done].
    split; [by eapply zero_region_zero|]. exists q. eauto using adjacent_refl.
  - intros (Hsafe & p & Hp & Hadj).
    destruct (decide (nearbyMines (cell b q) = 0)) as [Hz|Hnz].
    + left. eapply region_step; [done..|]. by split.
    + right. split_and!; eauto.
Qed.

Lemma safe_at_opens b b' p : opens b b' → safe_at b' p ↔ safe_at b p.
Proof.
  intros Hopens. unfold safe_at, cell. split; intros [Hb Hm]; (split; [done|]).
  - by rewrite <- (opens_hasMine b b').
  - by rewrite (opens_hasMine b b').
Qed.

Lemma zero_at_opens b b' p : opens b b' → zero_at b' p ↔ zero_at b p.
Proof.
  intros Hopens. unfold zero_at. rewrite (safe_at_opens b b') by done.
  unfold safe_at, cell. split; intros [[Hb Hm] Hz]; (split; [done|]).
  - by rewrite <- (opens_nearbyMines b b').
  - by rewrite (opens_nearbyMines b b').
Qed.

Section CascadeReach.
Variable order : list (Z * Z).
(** Any visiting order of the eight neighbours, with or without the
    centre. *)
Hypothesis order_near : ∀ d, d ∈ order → d ∈ offsets.
Hypothesis order_all : ∀ d, d ∈ offsets → d ≠ (0, 0) → d ∈ order.

Variable b0 : Board.
Variable s : Z * Z.

Lemma opens_within_refl b : wf_board b → opens_within b0 s b b.
Proof. intros Hwf. split; [by apply opens_refl|]. auto. Qed.

Lemma opens_within_trans b1 b2 b3 :
  opens_within b0 s b1 b2 → opens_within b0 s b2 b3 → opens_within b0 s b1 b3.
Proof.
  intros [Ho12 H12] [Ho23 H23]. split; [by eapply opens_trans|].
  intros q Hb Hr. destruct (H23 q Hb Hr); auto.
Qed.

Lemma RevealEmptyIn_within fuel : ∀ b row col b',
  opens b0 b → zero_region b0 s (row, col) →
  RevealEmptyIn order fuel b row col = Some b' → opens_within b0 s b b'.
Proof.
  induction fuel as [|fuel IHfuel]; intros b row col b' Hb0 Hreg Hrun; [done|].
  rewrite RevealEmptyIn_unfold in Hrun.
  eapply (foldM_rel (opens b0) (opens_within b0 s));
    [intros; eapply opens_within_refl, opens_wf; eauto
    |apply opens_within_trans| |done..].
  clear b b' Hb0 Hrun. intros b [dr dc] b' Hd%order_near%elem_of_offsets Hb0 Hvisit.
  assert (wf_board b) as Hwf by (by eapply opens_wf).
  assert (opens_within b0 s b b') as Hin; [|split; [done|]; eapply opens_trans, Hin; eauto].
  unfold visit in Hvisit. simpl in Hvisit.
  destruct (in_bounds _ _) eqn:Hb;
    [|injection Hvisit as <-; by apply opens_within_refl].
  destruct (negb _ && negb _) eqn:Hhid;
    [|injection Hvisit as <-; by apply opens_within_refl].
  apply andb_true_iff in Hhid as [Hr%negb_true_iff Hm%negb_true_iff].
  simpl in Hvisit. pose proof (opens_set_revealed _ _ _ Hwf Hb Hr Hm) as Hset.
  assert (touches b0 s (row + dr, col + dc)) as Htouch.
  { split.
    - split; [done|]. unfold cell. simpl. by rewrite <- (opens_hasMine b0 b).
    - exists (row, col). split; [done|]. unfold adjacent. simpl. lia. }
  assert (opens_within b0 s b (set_revealed b (row + dr) (col + dc) true)) as Hstep.
  { split; [done|]. intros [r c] Hq. unfold cell. simpl in *. read_cells.
    case_decide as Heq; [|auto]. injection Heq as <- <-. auto. }
  destruct (_ =? 0) eqn:Hz; [|by injection Hvisit as <-].
  eapply opens_within_trans; [done|]. eapply IHfuel; [|  |done].
  - by eapply opens_trans.
  - apply Z.eqb_eq in Hz. eapply region_step; [done| |].
    + unfold adjacent. simpl. lia.
    + apply (zero_at_opens b0 (set_revealed b (row + dr) (col + dc) true));
        [by eapply opens_trans|].
      split; [split; [done|]|]; unfold cell; simpl; [|done].
      by rewrite (opens_hasMine b _ _ _ Hset).
Qed.

Lemma closed_opens b b' p : opens b b' → closed b p → closed b' p.
Proof.
  intros Hopens Hclosed q Hadj Hsafe.
  apply (opens_revealed_mono b b'); [done|apply Hsafe|].
  apply Hclosed; [done|]. by apply (safe_at_opens b b').
Qed.

Lemma settled_refl b : settled b b.
Proof. intros q _ Hh Hr. congruence. Qed.

Lemma settled_trans b1 b2 b3 :
  opens b1 b2 → opens b2 b3 → settled b1 b2 → settled b2 b3 → settled b1 b3.
Proof.
  intros Ho12 Ho23 H12 H23 q Hz Hh Hr.
  destruct (revealed (cell b2 q)) eqn:Hr2.
  - eapply closed_opens; [done|]. by apply H12.
  - apply H23; [|done..]. by apply (zero_at_opens b1 b2).
Qed.

Lemma foldM_visit_opens fuel row col l : ∀ b b',
  wf_board b → foldM (visit order fuel row col) l b = Some b' → opens b b'.
Proof.
  intros b b' Hwf Hrun.
  eapply (foldM_rel wf_board opens); [apply opens_refl|apply opens_trans| |done..].
  intros b1 d b2 _ Hwf1 Hvisit.
  assert (opens b1 b2)
    by (eapply visit_opens; eauto using RevealEmptyIn_opens).
  eauto using opens_wf.
Qed.

Lemma RevealEmptyIn_closes fuel : ∀ b row col b',
  wf_board b → RevealEmptyIn order fuel b row col = Some b' →
  (revealed (cell b (row, col)) = true → closed b' (row, col)) ∧ settled b b'.
Proof.
  induction fuel as [|fuel IHfuel]; intros b row col b' Hwf Hrun; [done|].
  rewrite RevealEmptyIn_unfold in Hrun.
  assert (opens b b') as Hopens by (by eapply foldM_visit_opens).
  assert ((∀ d, d ∈ order → safe_at b (row + d.1, col + d.2) →
             revealed (cell b' (row + d.1, col + d.2)) = true) ∧ settled b b')
    as [Hall Hsettled].
  { clear Hopens. revert b b' Hwf Hrun. generalize order at 2 3. intros l.
    induction l as [|d l IH]; intros b b' Hwf Hrun; simpl in Hrun.
    { injection Hrun as <-. split; [by intros d ?%elem_of_nil|apply settled_refl]. }
    destruct (visit order fuel row col b d) as [b1|] eqn:Hvisit; [|done].
    assert (opens b b1) as Ho1
      by (eapply visit_opens; eauto using RevealEmptyIn_opens).
    assert (wf_board b1) as Hwf1 by (by eapply opens_wf).
    assert (opens b1 b') as Ho2 by (by eapply foldM_visit_opens).
    destruct (IH b1 b' Hwf1 Hrun) as [Hall' Hsettled'].
    assert ((safe_at b (row + d.1, col + d.2) →
               revealed (cell b1 (row + d.1, col + d.2)) = true) ∧ settled b b1)
      as [Hd Hsettled1].
    { unfold visit in Hvisit.
      destruct (in_bounds _ _) eqn:Hb.
      2:{ injection Hvisit as <-. split; [|apply settled_refl].
          intros [Hb' _]. simpl in Hb'. congruence. }
      destruct (negb _ && negb _) eqn:Hhid.
      2:{ injection Hvisit as <-. split; [|apply settled_refl].
          intros [_ Hm]. unfold cell in *. simpl in *. rewrite Hm in Hhid.
          by destruct (revealed _). }
      apply andb_true_iff in Hhid as [Hr%negb_true_iff Hm%negb_true_iff].
      simpl in Hvisit.
      pose proof (opens_set_revealed _ _ _ Hwf Hb Hr Hm) as Hset.
      set (b2 := set_revealed b (row + d.1) (col + d.2) true) in *.
      assert (revealed (cell b2 (row + d.1, col + d.2)) = true) as Hr2
        by (unfold cell, b2; simpl; by read_cells).
      assert (∀ q, in_bounds q.1 q.2 = true → q ≠ (row + d.1, col + d.2) →
                   cell b2 q = cell b q) as Hother.
      { intros [r c] Hq Hne. unfold cell, b2. simpl in *. read_cells.
        by rewrite decide_False. }
      destruct (_ =? 0) eqn:Hz.
      - destruct (IHfuel b2 _ _ b1 (opens_wf _ _ Hset) Hvisit)
          as [Hclosed Hsettled2].
        assert (opens b2 b1) as Ho21
          by (eapply RevealEmptyIn_opens; eauto using opens_wf).
        split; [intros _; by apply (opens_revealed_mono b2 b1)|].
        intros q Hzq Hh Hrq.
        destruct (decide (q = (row + d.1, col + d.2))) as [->|Hne]; [by apply Hclosed|].
        apply Hsettled2; [by apply (zero_at_opens b b2)| |done].
        rewrite Hother; [done|apply Hzq|done].
      - injection Hvisit as <-. split; [done|]. intros q Hzq Hh Hrq.
        destruct (decide (q = (row + d.1, col + d.2))) as [->|Hne].
        + apply Z.eqb_neq in Hz. destruct Hzq as [_ Hzq].
          unfold cell in Hzq. simpl in Hzq.
          rewrite (opens_nearbyMines b b2) in Hz by done. done.
        + rewrite Hother in Hrq; [congruence|apply Hzq|done]. }
    split; [|by eapply settled_trans].
    intros d' [->|Hd']%elem_of_cons Hsafe.
    - apply (opens_revealed_mono b1 b'); [done|apply Hsafe|by apply Hd].
    - apply Hall'; [done|]. by apply (safe_at_opens b b1). }
  split; [|done]. intros Hr q Hadj Hsafe.
  destruct (decide (q = (row, col))) as [->|Hne].
  { by apply (opens_revealed_mono b b'); [|apply Hsafe|]. }
  destruct q as [r c]. unfold adjacent in Hadj. simpl in Hadj.
  replace (r, c) with (row + (r - row, c - col).1, col + (r - row, c - col).2)
    in * by (simpl; f_equal; lia).
  apply Hall; [|by apply (safe_at_opens b b')].
  apply order_all; [apply elem_of_offsets; lia|].
  intros [= Hr0 Hc0]. apply Hne. simpl. f_equal; lia.
Qed.
End CascadeReach.

(** * Board setup *)

Lemma NoDup_offsets : NoDup offsets.
Proof. apply (bool_decide_unpack _). by vm_compute. Qed.

Lemma count_around_spec b r c :
  hasMine (cell_at b r c) = false →
  count_around b r c = Z.of_nat (mined_neighbours b r c).
Proof.
  intros Hsafe.
  set (P1 := λ d : Z * Z, in_bounds (r + d.1) (c + d.2) = true ∧
                          hasMine (cell_at b (r + d.1) (c + d.2)) = true).
  assert (count_around b r c = Z.of_nat (length (filter P1 offsets))) as ->.
  { unfold count_around. rewrite <- (Z.add_0_l (Z.of_nat _)).
    rewrite <- (foldl_count P1
      (λ d, in_bounds (r + d.1) (c + d.2) && hasMine (cell_at b (r + d.1) (c + d.2)))).
    - generalize 0. generalize offsets.
      induction l as [|[dr dc] l IH]; intros acc; [done|]. simpl. apply IH.
    - intros d. unfold P1. by rewrite andb_true_iff. }
  f_equal. unfold mined_neighbours.
  rewrite <- (length_fmap (λ d : Z * Z, (r + d.1, c + d.2))).
  apply Permutation_length, NoDup_Permutation.
  - apply NoDup_fmap_2; [|apply NoDup_filter, NoDup_offsets].
    intros [d1 d2] [e1 e2] [= H1 H2]. f_equal; lia.
  - apply NoDup_filter, NoDup_all_cells.
  - intros [qr qc]. rewrite list_elem_of_fmap, list_elem_of_filter. split.
    + intros ([dr dc] & [= -> ->] & [[Hb Hm] Hd%elem_of_offsets]%list_elem_of_filter).
      simpl in *. split; [|by apply elem_of_all_cells].
      split; [|done]. split; [unfold adjacent; simpl; lia|].
      intros [= Hr Hc]. rewrite Hr, Hc in Hm. congruence.
    + intros [[[Hadj Hne] Hm] Hb%elem_of_all_cells].
      unfold adjacent in Hadj. simpl in Hadj.
      exists (qr - r, qc - c). simpl.
      replace (r + (qr - r)) with qr by lia. replace (c + (qc - c)) with qc by lia.
      split; [done|]. apply list_elem_of_filter. unfold P1. simpl.
      replace (r + (qr - r)) with qr by lia. replace (c + (qc - c)) with qc by lia.
      split; [done|]. apply elem_of_offsets. lia.
Qed.

Lemma mined_neighbours_ext b b' r c :
  (∀ r' c', in_bounds r' c' = true →
     hasMine (cell_at b r' c') = hasMine (cell_at b' r' c')) →
  mined_neighbours b r c = mined_neighbours b' r c.
Proof.
  intros Hsame. apply length_filter_agree. intros [r' c'] Hb%elem_of_all_cells.
  unfold cell. simpl. by rewrite Hsame.
Qed.

(** The cell a pair of draws selects lies in the grid. *)
Lemma draw_in_bounds (x y : nat) :
  in_bounds (Z.rem (Z.of_nat x) ROWS) (Z.rem (Z.of_nat y) COLS) = true.
Proof.
  apply in_bounds_spec.
  pose proof (Z.rem_bound_pos (Z.of_nat x) ROWS).
  pose proof (Z.rem_bound_pos (Z.of_nat y) COLS).
  unfold ROWS, COLS in *. lia.
Qed.

Lemma mined_set_hasMine b r c :
  wf_board b → in_bounds r c = true → hasMine (cell_at b r c) = false →
  count_cells mined (set_hasMine b r c true) = S (count_cells mined b).
Proof.
  intros Hwf Hb Hm. unfold set_hasMine.
  pose proof (count_cells_set_cell mined b r c
    (mkCell (revealed (cell_at b r c)) true (flagged (cell_at b r c))
            (nearbyMines (cell_at b r c))) Hwf Hb) as Hcount.
  unfold indicator in Hcount.
  rewrite decide_False, decide_True in Hcount by (unfold mined; simpl; congruence).
  lia.
Qed.

(** [PlaceMines] only writes [hasMine], and leaves [MINES] mines when it
    returns. *)
Lemma PlaceMines_loop_spec rand fuel : ∀ k placed b b',
  wf_board b → Z.of_nat (count_cells mined b) = placed → placed ≤ MINES →
  PlaceMines_loop fuel rand k placed b = Some b' →
  wf_board b' ∧ Z.of_nat (count_cells mined b') = MINES ∧
  ∀ r c, in_bounds r c = true →
    revealed (cell_at b' r c) = revealed (cell_at b r c) ∧
    flagged (cell_at b' r c) = flagged (cell_at b r c) ∧
    nearbyMines (cell_at b' r c) = nearbyMines (cell_at b r c).
Proof.
  induction fuel as [|fuel IH]; intros k placed b b' Hwf Hcount Hle Hrun;
    simpl in Hrun; destruct (placed <? MINES) eqn:Hlt;
    try apply Z.ltb_lt in Hlt; try apply Z.ltb_ge in Hlt; try done;
    try (injection Hrun as <-; split_and!; [done|lia|done]).
  pose proof (draw_in_bounds (rand k) (rand (S k))) as Hb.
  destruct (hasMine (cell_at b _ _)) eqn:Hm; simpl in Hrun.
  - eapply IH; eauto.
  - destruct (IH _ _ _ _ (wf_set_hasMine _ _ _ true Hwf) eq_refl
      ltac:(rewrite mined_set_hasMine by done; lia)
      ltac:(rewrite mined_set_hasMine, Nat2Z.inj_succ, Hcount by done; exact Hrun))
      as (Hwf' & Hcount' & Hsame).
    split_and!; [done..|]. intros r c Hrc.
    destruct (Hsame r c Hrc) as (-> & -> & ->). read_cells.
    by case_decide as Heq; [injection Heq as <- <-|].
Qed.

Lemma PlaceMines_spec rand fuel b b' :
  wf_board b → count_cells mined b = 0%nat →
  PlaceMines fuel rand b = Some b' →
  wf_board b' ∧ Z.of_nat (count_cells mined b') = MINES ∧
  ∀ r c, in_bounds r c = true →
    revealed (cell_at b' r c) = revealed (cell_at b r c) ∧
    flagged (cell_at b' r c) = flagged (cell_at b r c) ∧
    nearbyMines (cell_at b' r c) = nearbyMines (cell_at b r c).
Proof.
  intros Hwf Hnone Hrun. unfold PlaceMines in Hrun.
  apply (PlaceMines_loop_spec rand fuel 0 0 b b' Hwf);
    [by rewrite Hnone|by vm_compute|exact Hrun].
Qed.

(** * One frame *)

Lemma same_safe_refl b : wf_board b → same_safe b b.
Proof. intros Hwf. split; [done|]. auto. Qed.

Lemma same_safe_trans b1 b2 b3 :
  same_safe b1 b2 → same_safe b2 b3 → same_safe b1 b3.
Proof.
  intros [Hwf2 H12] [Hwf3 H23]. split; [done|]. intros r c Hb.
  destruct (H12 r c Hb) as (Hm12 & Hn12 & Hr12), (H23 r c Hb) as (Hm23 & Hn23 & Hr23).
  split_and!; [congruence..|]. intros Hm. rewrite Hr23, Hr12; congruence.
Qed.

Lemma right_click_spec b row col :
  wf_board b →
  wf_board (right_click b row col) ∧
  ∀ r c, in_bounds r c = true →
    cell_at (right_click b row col) r c =
      if decide ((row, col) = (r, c) ∧ revealed (cell_at b r c) = false)
      then mkCell (revealed (cell_at b r c)) (hasMine (cell_at b r c))
                  (negb (flagged (cell_at b r c))) (nearbyMines (cell_at b r c))
      else cell_at b r c.
Proof.
  intros Hwf. unfold right_click.
  destruct (in_bounds row col) eqn:Hb.
  - destruct (revealed (cell_at b row col)) eqn:Hr; simpl.
    + split; [done|]. intros r c Hrc. rewrite decide_False; [done|].
      intros [[= <- <-] ?]. congruence.
    + split; [by apply wf_set_flagged|]. intros r c Hrc. read_cells.
      destruct (decide ((row, col) = (r, c))) as [[= <- <-]|Hne].
      * by rewrite decide_True.
      * rewrite decide_False; [done|]. by intros [? _].
  - split; [done|]. intros r c Hrc. rewrite decide_False; [done|].
    intros [[= <- <-] ?]. congruence.
Qed.

Lemma right_click_same_safe b row col :
  wf_board b → same_safe b (right_click b row col).
Proof.
  intros Hwf. destruct (right_click_spec b row col Hwf) as [Hwf' Hcells].
  split; [done|]. intros r c Hb. rewrite Hcells by done. by case_decide.
Qed.

Lemma left_click_result fuel b over row col b' over' :
  wf_board b → left_click fuel b over row col = Some (b', over') →
  click_result fuel b over row col b' over'.
Proof.
  intros Hwf Hrun. unfold left_click in Hrun.
  destruct (in_bounds row col) eqn:Hb;
    [|injection Hrun as <- <-; apply click_ignored; auto].
  destruct (flagged (cell_at b row col)) eqn:Hf; simpl in Hrun;
    [injection Hrun as <- <-; apply click_ignored; auto|].
  destruct (revealed (cell_at b row col)) eqn:Hr; simpl in Hrun;
    [injection Hrun as <- <-; apply click_ignored; auto|].
  revert Hrun. read_cells. simpl.
  destruct (hasMine (cell_at b row col)) eqn:Hm.
  { intros [= <- <-]. by apply click_mine. }
  destruct (nearbyMines (cell_at b row col) =? 0) eqn:Hz.
  - apply Z.eqb_eq in Hz.
    destruct (RevealEmpty fuel _ row col) as [b1|] eqn:Hcascade; simpl; [|done].
    intros [= <- <-]. by apply click_cascade.
  - apply Z.eqb_neq in Hz. intros [= <- <-]. by apply click_number.
Qed.

(** Opening the mines leaves the safe cells alone. *)
Lemma RevealAllMines_same_safe b : wf_board b → same_safe b (RevealAllMines b).
Proof.
  intros Hwf. destruct (RevealAllMines_spec b Hwf) as [Hwf' Hcells].
  split; [done|]. intros r c Hb. rewrite Hcells by done. unfold mine_shown.
  by destruct (hasMine (cell_at b r c)) eqn:Hm.
Qed.

Lemma set_revealed_mine_same_safe b r c :
  wf_board b → in_bounds r c = true → hasMine (cell_at b r c) = true →
  same_safe b (set_revealed b r c true).
Proof.
  intros Hwf Hb Hm. split; [by apply wf_set_revealed|]. intros r' c' Hb'.
  read_cells. case_decide as Heq; [|done]. injection Heq as <- <-.
  simpl. split_and!; [done..|congruence].
Qed.

Lemma opens_evolves_layout b b' r c :
  opens b b' → in_bounds r c = true →
  hasMine (cell_at b' r c) = hasMine (cell_at b r c) ∧
  nearbyMines (cell_at b' r c) = nearbyMines (cell_at b r c) ∧
  flagged (cell_at b' r c) = flagged (cell_at b r c).
Proof.
  intros Hopens Hb.
  by rewrite (opens_hasMine b b'), (opens_nearbyMines b b'), (opens_flagged b b').
Qed.

(** * Invariants of the game *)

(** Mines and counts only depend on the layout. *)
Lemma board_inv_layout b b' :
  board_inv b → wf_board b' →
  (∀ r c, in_bounds r c = true →
     hasMine (cell_at b' r c) = hasMine (cell_at b r c) ∧
     nearbyMines (cell_at b' r c) = nearbyMines (cell_at b r c)) →
  (∀ p, zero_at b' p → revealed (cell b' p) = true → closed b' p) →
  board_inv b'.
Proof.
  intros [Hwf Hmines Hcounts _] Hwf' Hsame Hclosed. split; [done| | |done].
  - rewrite <- Hmines. f_equal. apply count_cells_ext. intros r c Hb.
    unfold mined. by destruct (Hsame r c Hb) as [-> _].
  - intros r c Hb Hm. destruct (Hsame r c Hb) as [Hm' ->].
    rewrite Hcounts by congruence. f_equal. apply mined_neighbours_ext.
    intros r' c' Hb'. by destruct (Hsame r' c' Hb') as [-> _].
Qed.

Lemma safe_at_same_safe b b' p : same_safe b b' → safe_at b' p ↔ safe_at b p.
Proof.
  intros [_ Hsame]. unfold safe_at, cell.
  split; intros [Hb Hm]; (split; [done|]);
    destruct (Hsame _ _ Hb) as (Hm' & _ & _); congruence.
Qed.

Lemma board_inv_same_safe b b' : board_inv b → same_safe b b' → board_inv b'.
Proof.
  intros Hinv Hsame. pose proof Hsame as [Hwf' Hcells].
  apply (board_inv_layout b); [done..| |].
  { intros r c Hb. by destruct (Hcells r c Hb) as (-> & -> & _). }
  intros p [[Hb Hm] Hz] Hr q Hadj Hq.
  assert (∀ q, safe_at b q → revealed (cell b' q) = revealed (cell b q)) as Hrev.
  { intros q' [Hb' Hm']. unfold cell in *.
    by destruct (Hcells _ _ Hb') as (_ & _ & ->). }
  apply (safe_at_same_safe b b') in Hq; [|done]. rewrite Hrev by done.
  assert (safe_at b p) as Hp by (by apply (safe_at_same_safe b b')).
  apply (inv_closed b Hinv p); [|by rewrite <- Hrev|done..].
  split; [done|]. unfold cell in *. by destruct (Hcells _ _ Hb) as (_ & <- & _).
Qed.

Lemma offsets_all d : d ∈ offsets → d ≠ (0, 0) → d ∈ offsets.
Proof. done. Qed.

(** After a cascade every open zero-count cell is closed again, whatever
    the visiting order. *)
Lemma cascade_keeps_closed order fuel b row col b' :
  (∀ d, d ∈ offsets → d ≠ (0, 0) → d ∈ order) →
  wf_board b → in_bounds row col = true →
  revealed (cell_at b row col) = false → hasMine (cell_at b row col) = false →
  (∀ p, zero_at b p → revealed (cell b p) = true → closed b p) →
  RevealEmptyIn order fuel (set_revealed b row col true) row col = Some b' →
  opens b b' ∧ ∀ p, zero_at b' p → revealed (cell b' p) = true → closed b' p.
Proof.
  intros Hall Hwf Hb Hr Hm Hinv Hrun.
  pose proof (opens_set_revealed b row col Hwf Hb Hr Hm) as Hopens1.
  set (b1 := set_revealed b row col true) in *.
  assert (opens b1 b') as Hopens2
    by (eapply RevealEmptyIn_opens; eauto using opens_wf).
  assert (opens b b') as Hopens by (by eapply opens_trans).
  destruct (RevealEmptyIn_closes order Hall fuel b1 row col b'
    (opens_wf _ _ Hopens1) Hrun) as [Hclosed Hsettled].
  split; [done|]. intros p Hzp Hrp.
  destruct (revealed (cell b p)) eqn:Hrb.
  { apply (closed_opens b); [done|]. apply Hinv; [|done].
    by apply (zero_at_opens b b'). }
  destruct (decide (p = (row, col))) as [->|Hne].
  { apply Hclosed. unfold cell, b1. simpl. by read_cells. }
  apply Hsettled; [by apply (zero_at_opens b1 b')| |done].
  destruct p as [r c]. destruct Hzp as [[Hbp _] _].
  unfold cell, b1 in *. simpl in *.
  read_cells. by rewrite decide_False by congruence.
Qed.

Lemma board_inv_click fuel b over row col b' over' :
  board_inv b → click_result fuel b over row col b' over' → board_inv b'.
Proof.
  intros Hinv Hclick. pose proof (inv_wf b Hinv) as Hwf.
  destruct Hclick as [?|Hb Hf Hr Hm|Hb Hf Hr Hm Hnz|b' Hb Hf Hr Hm Hz Hrun]; [done|..].
  - eapply board_inv_same_safe; [done|]. eapply same_safe_trans.
    + by apply set_revealed_mine_same_safe.
    + by apply RevealAllMines_same_safe, wf_set_revealed.
  - pose proof (opens_set_revealed b row col Hwf Hb Hr Hm) as Hopens.
    apply (board_inv_layout b); [done|by apply wf_set_revealed| |].
    { intros r c Hrc. by destruct (opens_evolves_layout _ _ r c Hopens Hrc) as (-> & -> & _). }
    intros p Hzp Hrp. apply (closed_opens b); [done|].
    apply (zero_at_opens b) in Hzp; [|done].
    apply (inv_closed b Hinv); [done|].
    destruct p as [r c]. destruct Hzp as [[Hbp _] Hzp].
    revert Hrp. unfold cell in *. simpl in *. read_cells.
    case_decide as Heq; [|done]. injection Heq as <- <-. congruence.
  - destruct (cascade_keeps_closed offsets fuel b row col b' offsets_all
      Hwf Hb Hr Hm (inv_closed b Hinv) Hrun) as [Hopens Hclosed].
    apply (board_inv_layout b); [done|by eapply opens_wf| |done].
    intros r c Hrc. by destruct (opens_evolves_layout _ _ r c Hopens Hrc) as (-> & -> & _).
Qed.

Lemma CheckWin_ext b b' :
  (∀ r c, in_bounds r c = true →
     revealed_safe (cell_at b r c) ↔ revealed_safe (cell_at b' r c)) →
  CheckWin b = CheckWin b'.
Proof.
  intros Hsame. unfold CheckWin. rewrite !revealedCount_spec.
  by rewrite (count_cells_ext revealed_safe revealed_safe b b').
Qed.

Lemma CheckWin_same_safe b b' : same_safe b b' → CheckWin b' = CheckWin b.
Proof.
  intros [_ Hsame]. apply CheckWin_ext. intros r c Hb. unfold revealed_safe.
  destruct (Hsame r c Hb) as (Hm & _ & Hr).
  destruct (hasMine (cell_at b r c)) eqn:Hmb.
  - split; intros [_ ?]; congruence.
  - rewrite Hm, Hr; done.
Qed.

(** A click on a mine is the only click that ends the game. *)
Lemma click_result_over fuel b row col b' over' :
  wf_board b → click_result fuel b false row col b' over' →
  (over' = true ∧ same_safe b b') ∨
  (over' = false ∧ (b' = b ∨ opens b b')).
Proof.
  intros Hwf [?|Hb Hf Hr Hm|Hb Hf Hr Hm Hnz|b1 Hb Hf Hr Hm Hz Hrun]; [auto|..].
  - left. split; [done|]. eapply same_safe_trans.
    + by apply set_revealed_mine_same_safe.
    + by apply RevealAllMines_same_safe, wf_set_revealed.
  - right. split; [done|]. right. by apply opens_set_revealed.
  - right. split; [done|]. right.
    pose proof (opens_set_revealed b row col Hwf Hb Hr Hm) as Hopens1.
    eapply opens_trans; [done|].
    eapply RevealEmptyIn_opens; eauto using opens_wf.
Qed.

Lemma HandleMouseInput_result fuel b over i b2 over2 :
  wf_board b → HandleMouseInput fuel b over i = Some (b2, over2) →
  ∃ b1,
    (if left_pressed i
     then click_result fuel b over (mouse_row i) (mouse_col i) b1 over2
     else b1 = b ∧ over2 = over) ∧
    b2 = (if right_pressed i then right_click b1 (mouse_row i) (mouse_col i) else b1).
Proof.
  intros Hwf Hrun. unfold HandleMouseInput in Hrun.
  destruct (left_pressed i).
  - destruct (left_click fuel b over _ _) as [[b1 over1]|] eqn:Hleft; [|done].
    simpl in Hrun. injection Hrun as <- <-. exists b1. split; [|done].
    by apply left_click_result.
  - simpl in Hrun. injection Hrun as <- <-. by exists b.
Qed.

Lemma frame_playing fuel g i g' :
  gameOver g = false → win g = false → frame fuel g i = Some g' →
  ∃ b over,
    HandleMouseInput fuel (board g) false i = Some (b, over) ∧
    g' = mkGame b over (CheckWin b).
Proof.
  intros Hover Hwin Hrun. unfold frame in Hrun. rewrite Hover, Hwin in Hrun.
  simpl in Hrun.
  destruct (HandleMouseInput fuel (board g) false i) as [[b over]|]; [|done].
  simpl in Hrun. injection Hrun as <-. exists b, over. split; [done|].
  by destruct (CheckWin b).
Qed.

Lemma frame_finished fuel g i :
  gameOver g = true ∨ win g = true → frame fuel g i = Some g.
Proof.
  intros Hdone. unfold frame.
  by destruct Hdone as [->| ->]; [|rewrite andb_false_r].
Qed.

Lemma right_click_revealed b row col r c :
  wf_board b → in_bounds r c = true →
  revealed (cell_at (right_click b row col) r c) = revealed (cell_at b r c).
Proof.
  intros Hwf Hb. destruct (right_click_spec b row col Hwf) as [_ Hcells].
  rewrite Hcells by done. by case_decide.
Qed.

Lemma opens_mine_hidden b b' r c :
  opens b b' → in_bounds r c = true → hasMine (cell_at b r c) = true →
  cell_at b' r c = cell_at b r c.
Proof.
  intros [_ Hcells] Hb Hm. destruct (Hcells r c Hb) as [?|(_ & ? & _)]; [done|congruence].
Qed.

Lemma frame_inv fuel g i g' : game_inv g → frame fuel g i = Some g' → game_inv g'.
Proof.
  intros Hinv Hrun.
  destruct (gameOver g) eqn:Hover;
    [rewrite frame_finished in Hrun by auto; by injection Hrun as <-|].
  destruct (win g) eqn:Hwin;
    [rewrite frame_finished in Hrun by auto; by injection Hrun as <-|].
  destruct (frame_playing _ _ _ _ Hover Hwin Hrun) as (b2 & over2 & Hinput & ->).
  destruct Hinv as [Hboard Hwinb Hhidden Hoverb].
  pose proof (inv_wf _ Hboard) as Hwf.
  destruct (HandleMouseInput_result _ _ _ _ _ _ Hwf Hinput) as (b1 & Hleft & ->).
  set (b2 := if right_pressed i then _ else b1).
  assert (board_inv b1 ∧
          ((over2 = true ∧ same_safe (board g) b1) ∨
           (over2 = false ∧ (b1 = board g ∨ opens (board g) b1))))
    as [Hboard1 Hcases].
  { destruct (left_pressed i).
    - split; [by eapply board_inv_click|by eapply click_result_over].
    - destruct Hleft as [-> ->]. auto. }
  pose proof (inv_wf _ Hboard1) as Hwf1.
  assert (same_safe b1 b2) as Hsame2.
  { unfold b2. destruct (right_pressed i);
      [by apply right_click_same_safe|by apply same_safe_refl]. }
  assert (∀ r c, in_bounds r c = true →
            revealed (cell_at b2 r c) = revealed (cell_at b1 r c)) as Hrev2.
  { intros r c Hb. unfold b2. destruct (right_pressed i); [|done].
    by apply right_click_revealed. }
  split; simpl.
  - by eapply board_inv_same_safe.
  - done.
  - intros -> r c Hb Hm. destruct Hcases as [[? _]|[_ Hcases]]; [done|].
    rewrite Hrev2 by done. destruct Hsame2 as [_ Hsame2].
    destruct (Hsame2 r c Hb) as (Hm2 & _ & _). rewrite Hm2 in Hm.
    destruct Hcases as [->|Hopens]; [by apply Hhidden|].
    rewrite (opens_mine_hidden (board g) b1) by
      (rewrite <- ?(opens_hasMine (board g) b1); done).
    apply Hhidden; [done..|]. by rewrite <- (opens_hasMine (board g) b1).
  - intros ->. destruct Hcases as [[_ Hsame1]|[? _]]; [|done].
    rewrite (CheckWin_same_safe (board g)); [congruence|].
    by eapply same_safe_trans.
Qed.

Lemma length_filter_none {A : Type} (P : A → Prop) `{!∀ x, Decision (P x)}
    (l : list A) :
  (∀ y, y ∈ l → ¬ P y) → length (filter P l) = 0%nat.
Proof.
  induction l as [|y l IH]; intros Hnone; [done|].
  rewrite filter_cons, decide_False by (apply Hnone; left).
  apply IH. intros; apply Hnone. by right.
Qed.

(** A fresh board: everything hidden, unflagged, [MINES] mines, counts in
    place. *)
Lemma fresh_game_inv b :
  wf_board b → Z.of_nat (count_cells mined b) = MINES →
  (∀ r c, in_bounds r c = true → hasMine (cell_at b r c) = false →
     nearbyMines (cell_at b r c) = Z.of_nat (mined_neighbours b r c)) →
  (∀ r c, in_bounds r c = true → revealed (cell_at b r c) = false) →
  game_inv (mkGame b false false).
Proof.
  intros Hwf Hmines Hcounts Hhidden. split; cbn [board gameOver win]; [split| | |]; try done.
  - intros [r c] [[Hb _] _] Hr. unfold cell in Hr. cbn [fst snd] in *.
    rewrite Hhidden in Hr; done.
  - symmetry. apply not_true_is_false. rewrite CheckWin_spec.
    unfold count_cells. rewrite (length_filter_none _ all_cells); [by vm_compute|].
    intros [r c] Hb%elem_of_all_cells [Hr _]. cbn [fst snd] in *.
    rewrite Hhidden in Hr; done.
  - intros _ r c Hb _. by apply Hhidden.
Qed.

Lemma setup_spec fuel rand b0 b :
  wf_board b0 → PlaceMines fuel rand (InitializeBoard b0) = Some b →
  wf_board (CountNearbyMines b) ∧
  Z.of_nat (count_cells mined (CountNearbyMines b)) = MINES ∧
  (∀ r c, in_bounds r c = true →
     hasMine (cell_at (CountNearbyMines b) r c) = false →
     nearbyMines (cell_at (CountNearbyMines b) r c) =
       Z.of_nat (mined_neighbours (CountNearbyMines b) r c)) ∧
  (∀ r c, in_bounds r c = true →
     revealed (cell_at (CountNearbyMines b) r c) = false ∧
     flagged (cell_at (CountNearbyMines b) r c) = false).
Proof.
  intros Hwf0 Hplace.
  destruct (InitializeBoard_spec b0 Hwf0) as [Hwfi Hinit].
  destruct (PlaceMines_spec rand fuel _ b Hwfi) as (Hwf & Hmines & Hsame);
    [|exact Hplace|].
  { unfold count_cells. apply (length_filter_none _ all_cells).
    intros [r c] Hb%elem_of_all_cells. unfold mined. cbn [fst snd].
    rewrite Hinit by done. done. }
  destruct (CountNearbyMines_spec b Hwf) as [Hwf' Hcount].
  assert (∀ r c, in_bounds r c = true →
    revealed (cell_at (CountNearbyMines b) r c) = false ∧
    flagged (cell_at (CountNearbyMines b) r c) = false ∧
    hasMine (cell_at (CountNearbyMines b) r c) = hasMine (cell_at b r c)) as Hfresh.
  { intros r c Hb. rewrite Hcount by done.
    destruct (Hsame r c Hb) as (Hr & Hf & _). rewrite Hinit in Hr, Hf by done.
    unfold counted. by destruct (hasMine (cell_at b r c)) eqn:Hm. }
  split_and!; [done| | |].
  - rewrite <- Hmines. f_equal. apply count_cells_ext. intros r c Hb.
    unfold mined. by destruct (Hfresh r c Hb) as (_ & _ & ->).
  - intros r c Hb Hm. destruct (Hfresh r c Hb) as (_ & _ & Hm').
    rewrite Hm' in Hm. rewrite Hcount by done. unfold counted. rewrite Hm.
    cbn [nearbyMines].
    rewrite count_around_spec by done. f_equal. apply mined_neighbours_ext.
    intros r' c' Hb'. by destruct (Hfresh r' c' Hb') as (_ & _ & ->).
  - intros r c Hb. by destruct (Hfresh r c Hb) as (? & ? & _).
Qed.

Lemma NewGame_spec fuel rand b0 g :
  wf_board b0 → NewGame fuel rand b0 = Some g →
  game_inv g ∧ gameOver g = false ∧ win g = false ∧
  ∀ r c, in_bounds r c = true →
    revealed (cell_at (board g) r c) = false ∧
    flagged (cell_at (board g) r c) = false.
Proof.
  intros Hwf0 Hrun. unfold NewGame in Hrun.
  destruct (PlaceMines fuel rand (InitializeBoard b0)) as [b|] eqn:Hplace; [|done].
  destruct (setup_spec fuel rand b0 b Hwf0 Hplace) as (Hwf & Hmines & Hcounts & Hfresh).
  simpl in Hrun.
  revert Hrun Hwf Hmines Hcounts Hfresh. generalize (CountNearbyMines b).
  intros b' [= <-] Hwf Hmines Hcounts Hfresh. cbn [board gameOver win].
  split; [|by split_and!]. apply fresh_game_inv; [done..|].
  intros r c Hb. by destruct (Hfresh r c Hb).
Qed.

Lemma reachable_inv g : reachable g → game_inv g.
Proof.
  induction 1 as [fuel rand b0 g Hwf Hnew|fuel g i g' _ IH Hframe].
  - by destruct (NewGame_spec _ _ _ _ Hwf Hnew) as [? _].
  - by eapply frame_inv.
Qed.

(** * Runs of the game *)

Lemma plays_reachable g0 g : reachable g0 → plays g0 g → reachable g.
Proof. intros H0. induction 1; [done|]. by eapply reachable_frame. Qed.

(** No frame touches [hasMine] or [nearbyMines]. *)
Lemma frame_layout fuel g i g' r c :
  wf_board (board g) → frame fuel g i = Some g' → in_bounds r c = true →
  wf_board (board g') ∧
  hasMine (cell_at (board g') r c) = hasMine (cell_at (board g) r c) ∧
  nearbyMines (cell_at (board g') r c) = nearbyMines (cell_at (board g) r c).
Proof.
  intros Hwf Hrun Hb.
  destruct (gameOver g) eqn:Hover;
    [rewrite frame_finished in Hrun by auto; by injection Hrun as <-|].
  destruct (win g) eqn:Hwin;
    [rewrite frame_finished in Hrun by auto; by injection Hrun as <-|].
  destruct (frame_playing _ _ _ _ Hover Hwin Hrun) as (b2 & over2 & Hinput & ->).
  destruct (HandleMouseInput_result _ _ _ _ _ _ Hwf Hinput) as (b1 & Hleft & ->).
  cbn [board].
  assert (wf_board b1 ∧
          hasMine (cell_at b1 r c) = hasMine (cell_at (board g) r c) ∧
          nearbyMines (cell_at b1 r c) = nearbyMines (cell_at (board g) r c))
    as (Hwf1 & <- & <-).
  { destruct (left_pressed i); [|by destruct Hleft as [-> _]].
    destruct (click_result_over _ _ _ _ _ _ Hwf Hleft)
      as [[_ [Hwf1 Hsame]]|[_ [->|Hopens]]]; [|done|].
    - by destruct (Hsame r c Hb) as (-> & -> & _).
    - split; [apply Hopens|].
      by destruct (opens_evolves_layout _ _ r c Hopens Hb) as (-> & -> & _). }
  destruct (right_pressed i); [|done].
  destruct (right_click_same_safe b1 (mouse_row i) (mouse_col i) Hwf1) as [Hwf2 Hsame].
  by destruct (Hsame r c Hb) as (-> & -> & _).
Qed.

Lemma plays_layout g0 g :
  wf_board (board g0) → plays g0 g →
  wf_board (board g) ∧
  ∀ r c, in_bounds r c = true →
    hasMine (cell_at (board g) r c) = hasMine (cell_at (board g0) r c) ∧
    nearbyMines (cell_at (board g) r c) = nearbyMines (cell_at (board g0) r c).
Proof.
  intros Hwf0. induction 1 as [|fuel g i g' _ [Hwf IH] Hrun]; [done|].
  split; [by eapply (frame_layout fuel g i g' 0 0)|].
  intros r c Hb. destruct (frame_layout fuel g i g' r c Hwf Hrun Hb) as (_ & -> & ->).
  by apply IH.
Qed.

(** With a stack for [ROWS * COLS + 1] calls every frame returns. *)
Lemma frame_total fuel g i :
  wf_board (board g) → (Z.to_nat (ROWS * COLS) < fuel)%nat →
  is_Some (frame fuel g i).
Proof.
  intros Hwf Hfuel. unfold frame.
  destruct (negb (gameOver g) && negb (win g)); [|done].
  assert (is_Some (HandleMouseInput fuel (board g) (gameOver g) i)) as [[b over] ->]; [|done].
  unfold HandleMouseInput.
  assert (is_Some (if left_pressed i
                   then left_click fuel (board g) (gameOver g) (mouse_row i) (mouse_col i)
                   else Some (board g, gameOver g))) as [[b over] ->]; [|done].
  destruct (left_pressed i); [|done]. unfold left_click.
  destruct (in_bounds _ _) eqn:Hb; [|done].
  destruct (negb _ && negb _); [|done]. cbn zeta.
  destruct (hasMine _); [done|]. destruct (_ =? 0); [|done].
  destruct (RevealEmptyIn_terminates offsets fuel
    (set_revealed (board g) (mouse_row i) (mouse_col i) true)
    (mouse_row i) (mouse_col i)) as [b' Hrun].
  - by apply wf_set_revealed.
  - eapply Nat.le_lt_trans; [apply count_cells_le|done].
  - unfold RevealEmpty. by rewrite Hrun.
Qed.

(** ** The sample game *)

Lemma wf_blank_board : wf_board blank_board.
Proof. split; [done|]. by repeat constructor. Qed.

Lemma sample_game_new : NewGame 100 lcg_rand blank_board = Some sample_game.
Proof. by vm_compute. Qed.

Lemma sample_game_reachable : reachable sample_game.
Proof. exact (reachable_new _ _ _ _ wf_blank_board sample_game_new). Qed.

(** A run of frames is a play. *)
Lemma run_plays fuel inputs : ∀ g g', run fuel g inputs = Some g' → plays g g'.
Proof.
  unfold run. induction inputs as [|i inputs IH] using rev_ind; intros g g' Hrun.
  - injection Hrun as <-. apply plays_start.
  - revert Hrun. assert (∀ l g, foldM (frame fuel) (l ++ [i]) g =
      match foldM (frame fuel) l g with Some g1 => frame fuel g1 i | None => None end)
      as ->.
    { induction l as [|x l IHl]; intros g0; cbn; [by destruct (frame fuel g0 i)|].
      destruct (frame fuel g0 x); [apply IHl|done]. }
    destruct (foldM (frame fuel) inputs g) as [g1|] eqn:Hrun1; [|done].
    intros Hrun. eapply plays_frame; [by apply IH|done].
Qed.

Lemma sample_won_reachable : reachable sample_won.
Proof.
  apply (plays_reachable sample_game); [exact sample_game_reachable|].
  apply (run_plays 82
    ((λ p : Z * Z, mkInput p.1 p.2 true false) <$>
     filter (λ p, hasMine (cell_at (board sample_game) p.1 p.2) = false) all_cells)).
  vm_compute. reflexivity.
Qed.

(** * The claims *)

Lemma phase_Playing g : phase g = Playing ↔ gameOver g = false ∧ win g = false.
Proof.
  unfold phase. destruct (gameOver g), (win g);
    (split; [intros ?|intros ?]; try done; try split; try done; by destruct_and?).
Qed.

Lemma phase_Won g : phase g = Won ↔ gameOver g = false ∧ win g = true.
Proof.
  unfold phase. destruct (gameOver g), (win g);
    (split; [intros ?|intros ?]; try done; try split; try done; by destruct_and?).
Qed.

Lemma phase_Lost g : phase g = Lost ↔ gameOver g = true.
Proof.
  unfold phase. destruct (gameOver g), (win g);
    (split; [intros ?|intros ?]; try done; try split; try done; by destruct_and?).
Qed.

(** C4: in every state the program can be in, the phase is Won exactly
    when the number of revealed cells without a mine is
    [ROWS * COLS - MINES]; and a won game is final: every later frame,
    whatever the mouse does (reveal, flag toggle), returns the same
    state. *)
Theorem C4_win_iff_all_safe_revealed g :
  reachable g →
  (phase g = Won ↔
     Z.of_nat (count_cells revealed_safe (board g)) = ROWS * COLS - MINES) ∧
  (phase g = Won → ∀ fuel i, frame fuel g i = Some g).
Proof.
  intros [_ Hwin _ Hover]%reachable_inv. split.
  - rewrite phase_Won, <- CheckWin_spec, <- Hwin. split; [by intros [_ ?]|].
    intros Hw. split; [|done]. destruct (gameOver g); [|done].
    rewrite Hover in Hw; done.
  - intros [_ Hw]%phase_Won fuel i. apply frame_finished. auto.
Qed.

Lemma C4_witness :
  phase sample_won = Won ∧
  Z.of_nat (count_cells revealed_safe (board sample_won)) = ROWS * COLS - MINES ∧
  (phase sample_won = Won ↔
     Z.of_nat (count_cells revealed_safe (board sample_won)) = ROWS * COLS - MINES) ∧
  (phase sample_won = Won → ∀ fuel i, frame fuel sample_won i = Some sample_won).
Proof.
  split; [by vm_compute|]. split; [by vm_compute|].
  apply (C4_win_iff_all_safe_revealed sample_won). exact sample_won_reachable.
Defined.

(** C5: in every state the program can be in (so from the end of the setup
    on), the [nearbyMines] of a cell without a mine is the number of mined
    cells among its neighbours in the grid, counted by brute force over the
    whole grid; and no frame changes the [nearbyMines] of any cell. *)
Theorem C5_nearbyMines_exact_and_fixed g :
  reachable g →
  (∀ r c, in_bounds r c = true → hasMine (cell_at (board g) r c) = false →
     nearbyMines (cell_at (board g) r c) = Z.of_nat (mined_neighbours (board g) r c)) ∧
  (∀ fuel i g', frame fuel g i = Some g' →
     ∀ r c, in_bounds r c = true →
       nearbyMines (cell_at (board g') r c) = nearbyMines (cell_at (board g) r c)).
Proof.
  intros [[Hwf _ Hcounts _] _ _ _]%reachable_inv. split; [done|].
  intros fuel i g' Hrun r c Hb.
  by destruct (frame_layout fuel g i g' r c Hwf Hrun Hb) as (_ & _ & ->).
Qed.

Lemma C5_witness :
  (∀ r c, in_bounds r c = true → hasMine (cell_at (board sample_game) r c) = false →
     nearbyMines (cell_at (board sample_game) r c) =
       Z.of_nat (mined_neighbours (board sample_game) r c)) ∧
  (∀ fuel i g', frame fuel sample_game i = Some g' →
     ∀ r c, in_bounds r c = true →
       nearbyMines (cell_at (board g') r c) =
         nearbyMines (cell_at (board sample_game) r c)).
Proof. apply (C5_nearbyMines_exact_and_fixed sample_game). exact sample_game_reachable. Defined.

(** C6: when the setup returns a game [g0], exactly [MINES] cells of [g0]
    have a mine and every cell is hidden and unflagged; and in every state
    [g] reached from [g0] by frames there are still exactly [MINES] mines,
    in the same cells. *)
Theorem C6_mine_count_invariant fuel rand b0 g0 g :
  wf_board b0 → NewGame fuel rand b0 = Some g0 → plays g0 g →
  (Z.of_nat (count_cells mined (board g0)) = MINES ∧
   ∀ r c, in_bounds r c = true →
     revealed (cell_at (board g0) r c) = false ∧
     flagged (cell_at (board g0) r c) = false) ∧
  (Z.of_nat (count_cells mined (board g)) = MINES ∧
   ∀ r c, in_bounds r c = true →
     hasMine (cell_at (board g) r c) = hasMine (cell_at (board g0) r c)).
Proof.
  intros Hwf0 Hnew Hplays.
  destruct (NewGame_spec _ _ _ _ Hwf0 Hnew) as ([[Hwf Hmines _ _] _ _ _] & _ & _ & Hfresh).
  split; [by split|].
  assert (reachable g) as [[_ Hmines' _ _] _ _ _]%reachable_inv
    by (eapply plays_reachable; [exact (reachable_new _ _ _ _ Hwf0 Hnew)|done]).
  split; [done|]. intros r c Hb.
  destruct (plays_layout g0 g Hwf Hplays) as [_ Hsame].
  by destruct (Hsame r c Hb) as [-> _].
Qed.

(** C10: while the game is neither lost nor won no mined cell is revealed;
    and a frame that reveals a mined cell starts in a game that is not over
    and ends in a lost one. *)
Theorem C10_no_mine_revealed_while_playing g :
  reachable g →
  (phase g = Playing →
     ∀ r c, in_bounds r c = true → hasMine (cell_at (board g) r c) = true →
       revealed (cell_at (board g) r c) = false) ∧
  (∀ fuel i g' r c,
     frame fuel g i = Some g' → in_bounds r c = true →
     hasMine (cell_at (board g) r c) = true →
     revealed (cell_at (board g) r c) = false →
     revealed (cell_at (board g') r c) = true →
     phase g = Playing ∧ phase g' = Lost).
Proof.
  intros Hreach. pose proof (reachable_inv g Hreach) as [[Hwf _ _ _] _ Hhidden _].
  split.
  - intros [Hover _]%phase_Playing. by apply Hhidden.
  - intros fuel i g' r c Hrun Hb Hm Hr Hr'.
    assert (phase g = Playing) as Hplaying.
    { apply phase_Playing. destruct (gameOver g) eqn:Hover, (win g) eqn:Hwin; try done;
        rewrite frame_finished in Hrun by auto; injection Hrun as <-; congruence. }
    split; [done|]. apply phase_Lost.
    assert (reachable g') as [_ _ Hhidden' _]%reachable_inv
      by (by eapply reachable_frame).
    destruct (gameOver g') eqn:Hover'; [done|].
    destruct (frame_layout fuel g i g' r c Hwf Hrun Hb) as (_ & Hm' & _).
    rewrite Hhidden' in Hr'; [done..|]. congruence.
Qed.

Lemma C10_witness :
  (phase sample_game = Playing →
     ∀ r c, in_bounds r c = true → hasMine (cell_at (board sample_game) r c) = true →
       revealed (cell_at (board sample_game) r c) = false) ∧
  (∀ fuel i g' r c,
     frame fuel sample_game i = Some g' → in_bounds r c = true →
     hasMine (cell_at (board sample_game) r c) = true →
     revealed (cell_at (board sample_game) r c) = false →
     revealed (cell_at (board g') r c) = true →
     phase sample_game = Playing ∧ phase g' = Lost).
Proof. apply (C10_no_mine_revealed_while_playing sample_game). exact sample_game_reachable. Defined.

Lemma sample_opened_frame :
  frame 82 sample_game (mkInput 0 0 true false) = Some sample_opened.
Proof. by vm_compute. Qed.

Lemma sample_opened_reachable : reachable sample_opened.
Proof. exact (reachable_frame _ _ _ _ sample_game_reachable sample_opened_frame). Qed.

Lemma C6_witness :
  (Z.of_nat (count_cells mined (board sample_game)) = MINES ∧
   ∀ r c, in_bounds r c = true →
     revealed (cell_at (board sample_game) r c) = false ∧
     flagged (cell_at (board sample_game) r c) = false) ∧
  (Z.of_nat (count_cells mined (board sample_opened)) = MINES ∧
   ∀ r c, in_bounds r c = true →
     hasMine (cell_at (board sample_opened) r c) =
       hasMine (cell_at (board sample_game) r c)).
Proof.
  apply (C6_mine_count_invariant 100 lcg_rand blank_board sample_game sample_opened
           wf_blank_board sample_game_new).
  exact (plays_frame _ _ _ _ _ (plays_start _) sample_opened_frame).
Defined.

Lemma left_click_ignored fuel b over row col :
  in_bounds row col = false ∨ revealed (cell_at b row col) = true ∨
    flagged (cell_at b row col) = true →
  left_click fuel b over row col = Some (b, over).
Proof.
  intros Hcond. unfold left_click. destruct (in_bounds row col); [|done].
  destruct Hcond as [?|[-> | ->]]; [done|by rewrite andb_false_r|done].
Qed.

Lemma game_eta g : mkGame (board g) (gameOver g) (win g) = g.
Proof. by destruct g. Qed.

(** A frame of a running game whose input leaves the board alone changes
    nothing. *)
Lemma frame_unchanged fuel g i :
  game_inv g → HandleMouseInput fuel (board g) (gameOver g) i = Some (board g, gameOver g) →
  frame fuel g i = Some g.
Proof.
  intros [_ Hwin _ _] Hinput. unfold frame.
  destruct (negb (gameOver g) && negb (win g)) eqn:Hplaying; [|done].
  rewrite Hinput. cbn [mbind option_bind]. rewrite <- Hwin.
  destruct (win g) eqn:Hw; rewrite <- Hw; by rewrite game_eta.
Qed.

(** C7: in every state the program can be in, a left click (Reveal) on
    coordinates outside the grid, on a revealed cell, on a flagged cell, or
    when the game is not being played, returns the state it started from:
    board and phase are the same.  (The source has no return value; the
    state being the same is its "Unchanged".)  A second click on a revealed
    cell is the second case. *)
Theorem C7_reveal_is_noop g fuel row col :
  reachable g →
  in_bounds row col = false ∨ revealed (cell_at (board g) row col) = true ∨
    flagged (cell_at (board g) row col) = true ∨ phase g ≠ Playing →
  frame fuel g (mkInput row col true false) = Some g.
Proof.
  intros Hinv%reachable_inv Hcond.
  destruct (gameOver g) eqn:Hover; [apply frame_finished; auto|].
  destruct (win g) eqn:Hwin; [apply frame_finished; auto|].
  apply frame_unchanged; [done|]. unfold HandleMouseInput. cbn.
  rewrite left_click_ignored; [by rewrite Hover|].
  destruct Hcond as [?|[?|[?|Hphase]]]; auto.
  destruct Hphase. by apply phase_Playing.
Qed.

Lemma C7_witness :
  frame 82 sample_opened (mkInput 0 0 true false) = Some sample_opened.
Proof.
  apply (C7_reveal_is_noop sample_opened 82 0 0 sample_opened_reachable).
  right. left. by vm_compute.
Defined.

Lemma right_click_revealed_noop b row col :
  in_bounds row col = false ∨ revealed (cell_at b row col) = true →
  right_click b row col = b.
Proof.
  intros Hcond. unfold right_click. destruct (in_bounds row col); [|done].
  by destruct Hcond as [?| ->].
Qed.

(** C3: in a game being played, a left click on a hidden, unflagged, mined
    cell of the grid returns a lost game in which every mined cell is
    revealed, every cell without a mine that was hidden is still hidden, and
    no cell has changed its flag or its mine. *)
Theorem C3_mine_click_loses g fuel i :
  reachable g → phase g = Playing → left_pressed i = true →
  in_bounds (mouse_row i) (mouse_col i) = true →
  flagged (cell_at (board g) (mouse_row i) (mouse_col i)) = false →
  revealed (cell_at (board g) (mouse_row i) (mouse_col i)) = false →
  hasMine (cell_at (board g) (mouse_row i) (mouse_col i)) = true →
  ∃ g', frame fuel g i = Some g' ∧ phase g' = Lost ∧
    ∀ r c, in_bounds r c = true →
      (hasMine (cell_at (board g') r c) = true →
         revealed (cell_at (board g') r c) = true) ∧
      (hasMine (cell_at (board g) r c) = false →
         revealed (cell_at (board g) r c) = false →
         revealed (cell_at (board g') r c) = false) ∧
      flagged (cell_at (board g') r c) = flagged (cell_at (board g) r c) ∧
      hasMine (cell_at (board g') r c) = hasMine (cell_at (board g) r c).
Proof.
  intros [[Hwf _ _ _] _ _ _]%reachable_inv [Hover Hwin]%phase_Playing Hleft Hb Hf Hr Hm.
  set (b1 := RevealAllMines (set_revealed (board g) (mouse_row i) (mouse_col i) true)).
  assert (left_click fuel (board g) false (mouse_row i) (mouse_col i) = Some (b1, true))
    as Hclick.
  { unfold left_click. rewrite Hb, Hf, Hr. cbn [negb andb].
    cbn zeta. rewrite cell_at_set_revealed, if_same_cell by done. cbn [hasMine].
    by rewrite Hm. }
  destruct (RevealAllMines_spec _ (wf_set_revealed _ (mouse_row i) (mouse_col i) true Hwf))
    as [Hwf1 Hcells]. fold b1 in Hwf1, Hcells.
  assert (∀ r c, in_bounds r c = true →
            cell_at b1 r c = mine_shown (cell_at (board g) r c)) as Hcells1.
  { intros r c Hrc. rewrite Hcells by done. read_cells.
    case_decide as Heq; [|done]. injection Heq as <- <-.
    unfold mine_shown. cbn [hasMine]. by rewrite Hm. }
  assert ((if right_pressed i then right_click b1 (mouse_row i) (mouse_col i) else b1) = b1)
    as Hright.
  { destruct (right_pressed i); [|done]. apply right_click_revealed_noop. right.
    rewrite Hcells1 by done. unfold mine_shown. by rewrite Hm. }
  exists (mkGame b1 true (if CheckWin b1 then true else win g)). split_and!.
  - unfold frame, HandleMouseInput. rewrite Hover, Hwin, Hleft, Hclick.
    cbn [negb andb mbind option_bind]. by rewrite Hright.
  - by apply phase_Lost.
  - intros r c Hrc. cbn [board]. rewrite Hcells1 by done. unfold mine_shown.
    destruct (hasMine (cell_at (board g) r c)) eqn:Hmrc; cbn; by rewrite ?Hmrc.
Qed.

Lemma C3_witness :
  ∃ g', frame 82 sample_game (mkInput 0 6 true false) = Some g' ∧ phase g' = Lost ∧
    ∀ r c, in_bounds r c = true →
      (hasMine (cell_at (board g') r c) = true →
         revealed (cell_at (board g') r c) = true) ∧
      (hasMine (cell_at (board sample_game) r c) = false →
         revealed (cell_at (board sample_game) r c) = false →
         revealed (cell_at (board g') r c) = false) ∧
      flagged (cell_at (board g') r c) = flagged (cell_at (board sample_game) r c) ∧
      hasMine (cell_at (board g') r c) = hasMine (cell_at (board sample_game) r c).
Proof.
  apply (C3_mine_click_loses sample_game 82 (mkInput 0 6 true false)
           sample_game_reachable); by vm_compute.
Defined.

Lemma game_playing_eta g :
  gameOver g = false → win g = false → mkGame (board g) false false = g.
Proof. destruct g. cbn. by intros -> ->. Qed.

(** A right click in a running game. *)
Lemma frame_right_click fuel g row col :
  game_inv g → phase g = Playing →
  frame fuel g (mkInput row col false true) =
    Some (mkGame (right_click (board g) row col) false false).
Proof.
  intros [[Hwf _ _ _] Hw _ _] [Hover Hwin]%phase_Playing.
  unfold frame, HandleMouseInput. rewrite Hover, Hwin.
  cbn [negb andb left_pressed right_pressed mouse_row mouse_col mbind option_bind].
  rewrite (CheckWin_same_safe (board g)) by (by apply right_click_same_safe).
  by rewrite <- Hw, Hwin.
Qed.

Lemma set_flagged_twice b row col :
  wf_board b → in_bounds row col = true →
  let b' := set_flagged b row col (negb (flagged (cell_at b row col))) in
  set_flagged b' row col (negb (flagged (cell_at b' row col))) = b.
Proof.
  intros Hwf Hb b'. unfold b', set_flagged.
  rewrite !cell_at_set_cell_eq by done. cbn.
  rewrite set_cell_set_cell, negb_involutive.
  etrans; [|exact (set_cell_id b row col Hwf Hb)]. f_equal.
  by destruct (cell_at b row col).
Qed.

(** C8: in every state the program can be in, a right click (ToggleFlag)
    outside the grid, on a revealed cell, or when the game is not being
    played returns the state it started from; on a hidden cell of a game
    being played it returns a game, still being played, that differs only in
    the [flagged] of that cell, which is negated (so no cell is revealed),
    and a second right click on the same cell returns the first state. *)
Theorem C8_toggle_flag g fuel row col :
  reachable g →
  (in_bounds row col = false ∨ revealed (cell_at (board g) row col) = true ∨
     phase g ≠ Playing →
   frame fuel g (mkInput row col false true) = Some g) ∧
  (in_bounds row col = true → revealed (cell_at (board g) row col) = false →
   phase g = Playing →
   ∃ g', frame fuel g (mkInput row col false true) = Some g' ∧
     phase g' = Playing ∧
     (∀ r c, in_bounds r c = true →
        cell_at (board g') r c =
          if decide ((row, col) = (r, c))
          then mkCell (revealed (cell_at (board g) r c)) (hasMine (cell_at (board g) r c))
                 (negb (flagged (cell_at (board g) r c)))
                 (nearbyMines (cell_at (board g) r c))
          else cell_at (board g) r c) ∧
     frame fuel g' (mkInput row col false true) = Some g).
Proof.
  intros Hreach. pose proof (reachable_inv g Hreach) as Hinv.
  pose proof (inv_wf _ (inv_board _ Hinv)) as Hwf. split.
  - intros Hcond.
    destruct (gameOver g) eqn:Hover; [apply frame_finished; auto|].
    destruct (win g) eqn:Hwin; [apply frame_finished; auto|].
    rewrite frame_right_click by (by rewrite ?phase_Playing).
    rewrite right_click_revealed_noop.
    + by rewrite game_playing_eta.
    + destruct Hcond as [?|[?|Hphase]]; auto. destruct Hphase. by apply phase_Playing.
  - intros Hb Hr Hplaying. pose proof Hplaying as [Hover Hwin]%phase_Playing.
    assert (right_click (board g) row col =
            set_flagged (board g) row col (negb (flagged (cell_at (board g) row col))))
      as Hclick by (unfold right_click; by rewrite Hb, Hr).
    eexists. split_and!; [by apply frame_right_click|done|..].
    + intros r c Hrc. cbn [board].
      destruct (right_click_spec (board g) row col Hwf) as [_ Hcells].
      rewrite Hcells by done.
      destruct (decide ((row, col) = (r, c))) as [[= <- <-]|Hne].
      * by rewrite decide_True.
      * rewrite decide_False; [done|]. by intros [? _].
    + assert (reachable (mkGame (right_click (board g) row col) false false)) as Hinv'
        by (eapply reachable_frame; [done|by apply (frame_right_click fuel)]).
      apply reachable_inv in Hinv'.
      rewrite frame_right_click by done. cbn [board]. rewrite Hclick.
      unfold right_click. rewrite Hb. read_cells. cbn [revealed flagged].
      rewrite Hr. cbn [negb].
      pose proof (set_flagged_twice (board g) row col Hwf Hb) as Htwice.
      cbv zeta in Htwice. rewrite cell_at_set_flagged, if_same_cell in Htwice by done.
      cbn [flagged] in Htwice. rewrite Htwice.
      by rewrite game_playing_eta.
Qed.

Lemma C8_witness :
  (in_bounds 0 1 = false ∨ revealed (cell_at (board sample_game) 0 1) = true ∨
     phase sample_game ≠ Playing →
   frame 82 sample_game (mkInput 0 1 false true) = Some sample_game) ∧
  (in_bounds 0 1 = true → revealed (cell_at (board sample_game) 0 1) = false →
   phase sample_game = Playing →
   ∃ g', frame 82 sample_game (mkInput 0 1 false true) = Some g' ∧
     phase g' = Playing ∧
     (∀ r c, in_bounds r c = true →
        cell_at (board g') r c =
          if decide ((0, 1) = (r, c))
          then mkCell (revealed (cell_at (board sample_game) r c))
                 (hasMine (cell_at (board sample_game) r c))
                 (negb (flagged (cell_at (board sample_game) r c)))
                 (nearbyMines (cell_at (board sample_game) r c))
          else cell_at (board sample_game) r c) ∧
     frame 82 g' (mkInput 0 1 false true) = Some sample_game).
Proof. apply (C8_toggle_flag sample_game 82 0 1). exact sample_game_reachable. Defined.

(** The cascade from a hidden safe zero-count cell: what is open
    afterwards, for any visiting order. *)
Lemma cascade_exact order fuel b row col b' :
  (∀ d, d ∈ order → d ∈ offsets) →
  (∀ d, d ∈ offsets → d ≠ (0, 0) → d ∈ order) →
  wf_board b → in_bounds row col = true →
  revealed (cell_at b row col) = false → hasMine (cell_at b row col) = false →
  nearbyMines (cell_at b row col) = 0 →
  (∀ p, zero_at b p → revealed (cell b p) = true → closed b p) →
  RevealEmptyIn order fuel (set_revealed b row col true) row col = Some b' →
  opens b b' ∧
  ∀ q, in_bounds q.1 q.2 = true →
    revealed (cell b' q) = true ↔
    revealed (cell b q) = true ∨ cascade_area b (row, col) q.
Proof.
  intros Hnear Hall Hwf Hb Hr Hm Hz Hinv Hrun.
  destruct (cascade_keeps_closed order fuel b row col b' Hall Hwf Hb Hr Hm Hinv Hrun)
    as [Hopens Hclosed].
  pose proof (opens_set_revealed b row col Hwf Hb Hr Hm) as Hopens1.
  assert (zero_at b (row, col)) as Hzs by done.
  assert (opens b (set_revealed b row col true) →
          opens_within b (row, col) (set_revealed b row col true) b') as Hwithin.
  { intros ?. eapply (RevealEmptyIn_within order Hnear b (row, col)); [done| |done].
    apply region_start. }
  destruct (Hwithin Hopens1) as [Hopens2 Hsound].
  split; [done|]. intros q Hq. rewrite (cascade_area_touch b (row, col) q Hzs). split.
  - intros Hrq. destruct (Hsound q Hq Hrq) as [Hr1|Htouch]; [|by right].
    destruct q as [r c]. revert Hr1. unfold cell. cbn [fst snd] in *. read_cells.
    case_decide as Heq; [|by left]. injection Heq as <- <-. intros _. right.
    split; [done|]. exists (row, col). split; [apply region_start|apply adjacent_refl].
  - intros [Hrq|[Hsafe (p & Hp & Hadj)]].
    { by apply (opens_revealed_mono b b'). }
    assert (revealed (cell b' p) = true ∧ zero_at b p) as [Hrp Hzp].
    { clear Hadj. induction Hp as [|p p' Hp [IHr IHz] Hadj Hz'].
      - split; [|done].
        apply (opens_revealed_mono (set_revealed b row col true) b'); [done..|].
        unfold cell. cbn [fst snd]. by read_cells.
      - split; [|done]. apply (Hclosed p); [by apply (zero_at_opens b b')|done..|].
        apply (safe_at_opens b b'); [done|apply Hz']. }
    apply (Hclosed p); [by apply (zero_at_opens b b')|done..|].
    by apply (safe_at_opens b b').
Qed.

(** Two boards opened from the same board with the same cells open are the
    same board. *)
Lemma opens_same_revealed b b1 b2 :
  wf_board b → opens b b1 → opens b b2 →
  (∀ q, in_bounds q.1 q.2 = true →
     revealed (cell b1 q) = true ↔ revealed (cell b2 q) = true) →
  b1 = b2.
Proof.
  intros Hwf [Hwf1 H1] [Hwf2 H2] Hsame. apply board_ext; [done..|].
  intros r c Hb. specialize (Hsame (r, c) Hb). unfold cell in Hsame. cbn in Hsame.
  destruct (H1 r c Hb) as [E1|(Hr1 & _ & E1)], (H2 r c Hb) as [E2|(Hr2 & _ & E2)];
    rewrite E1, E2 in *; try done.
  - cbn in Hsame. destruct Hsame as [_ Hsame]. rewrite Hsame in Hr2; done.
  - cbn in Hsame. destruct Hsame as [Hsame _]. rewrite Hsame in Hr1; done.
Qed.

(** A left click on a hidden, unflagged, safe zero-count cell runs the
    cascade. *)
Lemma frame_cascade fuel g row col :
  wf_board (board g) → phase g = Playing → in_bounds row col = true →
  flagged (cell_at (board g) row col) = false →
  revealed (cell_at (board g) row col) = false →
  hasMine (cell_at (board g) row col) = false →
  nearbyMines (cell_at (board g) row col) = 0 →
  frame fuel g (mkInput row col true false) =
    b' ← RevealEmpty fuel (set_revealed (board g) row col true) row col;
    Some (mkGame b' false (CheckWin b')).
Proof.
  intros Hwf [Hover Hwin]%phase_Playing Hb Hf Hr Hm Hz.
  unfold frame, HandleMouseInput, left_click. rewrite Hover, Hwin.
  cbn [negb andb left_pressed right_pressed mouse_row mouse_col].
  rewrite Hb, Hf, Hr. cbn [negb andb]. cbn zeta.
  rewrite cell_at_set_revealed, if_same_cell by done.
  cbn [hasMine nearbyMines]. rewrite Hm, Hz. cbn [Z.eqb].
  destruct (RevealEmpty fuel _ row col) as [b'|]; [|done].
  cbn [mbind option_bind]. by destruct (CheckWin b').
Qed.

(** C1: in a game being played, a left click (Reveal) on a hidden,
    unflagged cell without a mine whose count is zero returns (given stack
    for [ROWS * COLS + 1] calls) a game in which the open cells are the
    cells that were open before together with the zero-count region linked
    to the clicked cell and the ring of safe non-zero cells around that
    region; every mined cell is as it was; and the cascade run with any
    other visiting order of the neighbours gives the same board. *)
Theorem C1_cascade_reveals_region_and_ring g fuel row col :
  reachable g → phase g = Playing → (Z.to_nat (ROWS * COLS) < fuel)%nat →
  in_bounds row col = true →
  flagged (cell_at (board g) row col) = false →
  revealed (cell_at (board g) row col) = false →
  hasMine (cell_at (board g) row col) = false →
  nearbyMines (cell_at (board g) row col) = 0 →
  ∃ g', frame fuel g (mkInput row col true false) = Some g' ∧
    (∀ q, in_bounds q.1 q.2 = true →
       revealed (cell (board g') q) = true ↔
       revealed (cell (board g) q) = true ∨
       zero_region (board g) (row, col) q ∨ border_ring (board g) (row, col) q) ∧
    (∀ q, in_bounds q.1 q.2 = true → hasMine (cell (board g) q) = true →
       cell (board g') q = cell (board g) q) ∧
    (∀ order fuel' b',
       (∀ d, d ∈ order → d ∈ offsets) →
       (∀ d, d ∈ offsets → d ≠ (0, 0) → d ∈ order) →
       RevealEmptyIn order fuel' (set_revealed (board g) row col true) row col = Some b' →
       b' = board g').
Proof.
  intros [[Hwf _ _ Hclosed] _ _ _]%reachable_inv Hplaying Hfuel Hb Hf Hr Hm Hz.
  rewrite frame_cascade by done.
  destruct (RevealEmptyIn_terminates offsets fuel
    (set_revealed (board g) row col true) row col) as [b1 Hrun];
    [by apply wf_set_revealed|eapply Nat.le_lt_trans; [apply count_cells_le|done]|].
  unfold RevealEmpty. rewrite Hrun. cbn [mbind option_bind].
  destruct (cascade_exact offsets fuel (board g) row col b1 (λ _ H, H) offsets_all
    Hwf Hb Hr Hm Hz Hclosed Hrun) as [Hopens Hexact].
  eexists. split; [done|]. cbn [board]. split_and!.
  - exact Hexact.
  - intros [r c] Hq Hmq. by apply (opens_mine_hidden (board g) b1).
  - intros order fuel' b' Hnear Hall Hrun'.
    destruct (cascade_exact order fuel' (board g) row col b' Hnear Hall
      Hwf Hb Hr Hm Hz Hclosed Hrun') as [Hopens' Hexact'].
    apply (opens_same_revealed (board g)); [done..|].
    intros q Hq. by rewrite Hexact, Hexact'.
Qed.

Lemma C1_witness :
  ∃ g', frame 82 sample_game (mkInput 0 0 true false) = Some g' ∧
    (∀ q, in_bounds q.1 q.2 = true →
       revealed (cell (board g') q) = true ↔
       revealed (cell (board sample_game) q) = true ∨
       zero_region (board sample_game) (0, 0) q ∨
       border_ring (board sample_game) (0, 0) q) ∧
    (∀ q, in_bounds q.1 q.2 = true → hasMine (cell (board sample_game) q) = true →
       cell (board g') q = cell (board sample_game) q) ∧
    (∀ order fuel' b',
       (∀ d, d ∈ order → d ∈ offsets) →
       (∀ d, d ∈ offsets → d ≠ (0, 0) → d ∈ order) →
       RevealEmptyIn order fuel' (set_revealed (board sample_game) 0 0 true) 0 0 = Some b' →
       b' = board g').
Proof.
  apply (C1_cascade_reveals_region_and_ring sample_game 82 0 0 sample_game_reachable);
    by vm_compute.
Defined.

Lemma sample_flagged_reachable : reachable sample_flagged.
Proof.
  apply (reachable_frame 82 sample_game (mkInput 0 6 false true));
    [exact sample_game_reachable|by vm_compute].
Qed.

Lemma sample_lost_frame :
  frame 82 sample_flagged (mkInput 1 2 true false) = Some sample_lost.
Proof. vm_compute. reflexivity. Qed.

(** C2 as stated fails: on loss [RevealAllMines] opens a hidden mined cell
    that carries a flag. *)
Lemma C2_counterexample :
  ¬ (∀ g fuel i g' r c,
       reachable g → frame fuel g i = Some g' → in_bounds r c = true →
       revealed (cell_at (board g) r c) = false →
       revealed (cell_at (board g') r c) = true →
       flagged (cell_at (board g) r c) = false).
Proof.
  intros Hclaim.
  assert (flagged (cell_at (board sample_flagged) 0 6) = false) as Hflag.
  { apply (Hclaim sample_flagged 82%nat (mkInput 1 2 true false)
      sample_lost 0 6 sample_flagged_reachable sample_lost_frame);
      vm_compute; reflexivity. }
  vm_compute in Hflag. discriminate Hflag.
Qed.

Lemma click_result_flags fuel b over row col b' over' r c :
  wf_board b → click_result fuel b over row col b' over' → in_bounds r c = true →
  wf_board b' ∧
  flagged (cell_at b' r c) = flagged (cell_at b r c) ∧
  (revealed (cell_at b r c) = false → revealed (cell_at b' r c) = true →
     (r, c) = (row, col) → flagged (cell_at b r c) = false).
Proof.
  intros Hwf Hclick Hrc.
  destruct Hclick as [?|Hb Hf Hr Hm|Hb Hf Hr Hm Hnz|b' Hb Hf Hr Hm Hz Hrun].
  - split_and!; [done..|]. congruence.
  - destruct (RevealAllMines_spec _ (wf_set_revealed _ row col true Hwf)) as [Hwf1 Hcells].
    split_and!; [done| |by intros _ _ [= -> ->]].
    rewrite Hcells by done. read_cells. unfold mine_shown.
    destruct (decide ((row, col) = (r, c))) as [[= <- <-]|Hne].
    + cbn [hasMine]. by rewrite Hm.
    + by destruct (hasMine (cell_at b r c)) eqn:Hmrc.
  - split_and!; [by apply wf_set_revealed| |by intros _ _ [= -> ->]].
    read_cells. by case_decide as Heq; [injection Heq as <- <-|].
  - pose proof (opens_set_revealed b row col Hwf Hb Hr Hm) as Hopens1.
    assert (opens (set_revealed b row col true) b') as Hopens2
      by (eapply RevealEmptyIn_opens; eauto using opens_wf).
    split_and!; [by eapply opens_wf| |by intros _ _ [= -> ->]].
    by rewrite (opens_flagged b b') by (done || by eapply opens_trans).
Qed.

(** A click that ends the game has opened every mine. *)
Lemma click_result_lost fuel b row col b' r c :
  wf_board b → click_result fuel b false row col b' true → in_bounds r c = true →
  hasMine (cell_at b r c) = true → revealed (cell_at b' r c) = true.
Proof.
  intros Hwf Hclick Hrc Hmrc. inversion Hclick as [| Hb Hf Hr Hm Hb' | |]; subst.
  destruct (RevealAllMines_spec _ (wf_set_revealed _ row col true Hwf)) as [_ Hcells].
  rewrite Hcells by done. read_cells. unfold mine_shown.
  destruct (decide ((row, col) = (r, c))) as [[= <- <-]|Hne];
    cbn [hasMine]; by rewrite Hmrc.
Qed.

(** C2, amended: a frame reveals the cell under the mouse only if that cell
    was not flagged; cells are revealed only by a left click in a game being
    played, and a cell that is revealed keeps its flag; and a frame that
    loses the game reveals every mined cell, flagged or not. *)
Theorem C2_clicked_cell_unflagged g fuel i g' r c :
  reachable g → frame fuel g i = Some g' → in_bounds r c = true →
  (revealed (cell_at (board g) r c) = false →
   revealed (cell_at (board g') r c) = true →
   ((r, c) = (mouse_row i, mouse_col i) → flagged (cell_at (board g) r c) = false) ∧
   flagged (cell_at (board g') r c) = flagged (cell_at (board g) r c) ∧
   left_pressed i = true ∧ phase g = Playing) ∧
  (phase g = Playing → phase g' = Lost → hasMine (cell_at (board g) r c) = true →
   revealed (cell_at (board g') r c) = true).
Proof.
  intros [[Hwf _ _ _] _ _ _]%reachable_inv Hrun Hrc.
  assert (revealed (cell_at (board g) r c) ≠ revealed (cell_at (board g') r c) →
          phase g = Playing) as Hplays.
  { intros Hne. apply phase_Playing.
    destruct (gameOver g) eqn:Hover, (win g) eqn:Hwin; try done;
      rewrite frame_finished in Hrun by auto; injection Hrun as <-; congruence. }
  split.
  - intros Hr Hr'. assert (phase g = Playing) as Hplaying by (apply Hplays; congruence).
    pose proof Hplaying as [Hover Hwin]%phase_Playing.
    destruct (frame_playing _ _ _ _ Hover Hwin Hrun) as (b2 & over2 & Hinput & ->).
    destruct (HandleMouseInput_result _ _ _ _ _ _ Hwf Hinput) as (b1 & Hleft & ->).
    cbn [board] in *.
    destruct (left_pressed i) eqn:Hpressed.
    + destruct (click_result_flags _ _ _ _ _ _ _ r c Hwf Hleft Hrc)
        as (Hwf1 & Hflag & Hclicked).
      assert (revealed (cell_at b1 r c) = true) as Hr1.
      { destruct (right_pressed i); [|done]. by rewrite right_click_revealed in Hr'. }
      split_and!; [auto| |done..]. rewrite <- Hflag.
      destruct (right_pressed i); [|done].
      destruct (right_click_spec b1 (mouse_row i) (mouse_col i) Hwf1) as [_ Hcells].
      rewrite Hcells by done. rewrite decide_False; [done|]. intros [_ ?]. congruence.
    + destruct Hleft as [-> _].
      destruct (right_pressed i); [|congruence].
      rewrite right_click_revealed in Hr' by done. congruence.
  - intros [Hover Hwin]%phase_Playing Hlost%phase_Lost Hm.
    destruct (frame_playing _ _ _ _ Hover Hwin Hrun) as (b2 & over2 & Hinput & ->).
    destruct (HandleMouseInput_result _ _ _ _ _ _ Hwf Hinput) as (b1 & Hleft & ->).
    cbn [board gameOver] in *. subst over2.
    destruct (left_pressed i); [|by destruct Hleft].
    assert (revealed (cell_at b1 r c) = true) as Hr1
      by (by eapply click_result_lost).
    destruct (right_pressed i); [|done].
    rewrite right_click_revealed; [done| |done].
    by destruct (click_result_flags _ _ _ _ _ _ _ r c Hwf Hleft Hrc).
Qed.

Lemma C2_witness :
  (revealed (cell_at (board sample_flagged) 0 6) = false →
   revealed (cell_at (board sample_lost) 0 6) = true →
   ((0, 6) = (mouse_row (mkInput 1 2 true false), mouse_col (mkInput 1 2 true false)) →
      flagged (cell_at (board sample_flagged) 0 6) = false) ∧
   flagged (cell_at (board sample_lost) 0 6) =
     flagged (cell_at (board sample_flagged) 0 6) ∧
   left_pressed (mkInput 1 2 true false) = true ∧ phase sample_flagged = Playing) ∧
  (phase sample_flagged = Playing → phase sample_lost = Lost →
   hasMine (cell_at (board sample_flagged) 0 6) = true →
   revealed (cell_at (board sample_lost) 0 6) = true).
Proof.
  apply (C2_clicked_cell_unflagged sample_flagged 82 (mkInput 1 2 true false)
           sample_lost 0 6 sample_flagged_reachable sample_lost_frame).
  vm_compute. reflexivity.
Defined.

(** * Termination and cost *)

Lemma PlaceMines_loop_returns rand n : ∀ k placed b seen,
  wf_board b →
  (∀ r c, in_bounds r c = true → hasMine (cell_at b r c) = true ↔ (r, c) ∈ seen) →
  is_Some (PlaceMines_loop n rand k placed b) ↔
  MINES - placed ≤ Z.of_nat (fresh_draws rand n k seen).
Proof.
  induction n as [|n IH]; intros k placed b seen Hwf Hseen;
    cbn [PlaceMines_loop fresh_draws];
    destruct (placed <? MINES) eqn:Hlt;
    try apply Z.ltb_lt in Hlt; try apply Z.ltb_ge in Hlt.
  - split; [by intros [? ?]|cbn; lia].
  - split; [cbn; lia|done].
  - pose proof (draw_in_bounds (rand k) (rand (S k))) as Hb.
    unfold draw_cell in *.
    set (r0 := Z.rem (Z.of_nat (rand k)) ROWS) in *.
    set (c0 := Z.rem (Z.of_nat (rand (S k))) COLS) in *.
    destruct (hasMine (cell_at b r0 c0)) eqn:Hm; cbn [negb].
    + rewrite decide_True by (by apply Hseen). by apply IH.
    + rewrite decide_False by (rewrite <- Hseen by done; congruence).
      rewrite (IH _ _ _ ((r0, c0) :: seen)); [lia|by apply wf_set_hasMine|].
      intros r c Hrc. rewrite cell_at_set_hasMine by done.
      rewrite elem_of_cons, <- Hseen by done.
      destruct (decide ((r0, c0) = (r, c))) as [Heq|Hne]; cbn [hasMine].
      * split; [by left|done].
      * split; [by right|]. intros [?|?]; [congruence|done].
  - split; [intros _; lia|done].
Qed.

(** The [while] loop of [PlaceMines] ends within [n] passes exactly when
    the first [n] pairs of draws select [MINES] different cells. *)
Lemma PlaceMines_returns rand n b0 :
  wf_board b0 →
  is_Some (PlaceMines n rand (InitializeBoard b0)) ↔
  (Z.to_nat MINES ≤ fresh_draws rand n 0 [])%nat.
Proof.
  intros Hwf0. destruct (InitializeBoard_spec b0 Hwf0) as [Hwf Hinit].
  unfold PlaceMines. rewrite (PlaceMines_loop_returns rand n 0 0 _ [] Hwf).
  - unfold MINES. lia.
  - intros r c Hb. rewrite Hinit by done. cbn. by rewrite elem_of_nil.
Qed.

Lemma fresh_draws_stuck n : ∀ k seen,
  (0, 0) ∈ seen → fresh_draws (λ _, 0%nat) n k seen = 0%nat.
Proof.
  induction n as [|n IH]; intros k seen Hseen; [done|]. simpl.
  unfold draw_cell. cbn. rewrite decide_True by done. by apply IH.
Qed.

Section CallCount.
Variable order : list (Z * Z).

Lemma RevealEmptyCalls_board fuel : ∀ b row col,
  fst <$> RevealEmptyCalls order fuel b row col = RevealEmptyIn order fuel b row col.
Proof.
  induction fuel as [|fuel IHfuel]; intros b row col; [done|].
  rewrite RevealEmptyIn_unfold. simpl. generalize 1%nat. revert b.
  generalize order at 2 4. intros l.
  induction l as [|[dr dc] l IH]; intros b calls; [done|]. simpl.
  unfold visit at 1. cbn [fst snd].
  destruct (in_bounds _ _); [|apply IH].
  destruct (negb _ && negb _); [|apply IH]. cbn zeta.
  destruct (_ =? 0); [|apply IH].
  rewrite <- IHfuel.
  destruct (RevealEmptyCalls order fuel _ _ _) as [[b1 n]|]; [apply IH|done].
Qed.

(** Every call but the first is paid for by a cell that it found hidden. *)
Lemma RevealEmptyCalls_bound fuel : ∀ b row col b' calls,
  wf_board b → RevealEmptyCalls order fuel b row col = Some (b', calls) →
  wf_board b' ∧
  (calls + count_cells hidden b' ≤ 1 + count_cells hidden b)%nat.
Proof.
  induction fuel as [|fuel IHfuel]; intros b row col b' calls Hwf Hrun; [done|].
  simpl in Hrun. revert Hrun. generalize 1%nat. revert b Hwf.
  generalize order at 2. intros l.
  induction l as [|[dr dc] l IH]; intros b Hwf calls0 Hrun; simpl in Hrun.
  { injection Hrun as <- <-. split; [done|lia]. }
  destruct (in_bounds _ _) eqn:Hb; [|by apply IH].
  destruct (negb _ && negb _) eqn:Hhid; [|by apply IH].
  apply andb_true_iff in Hhid as [Hr%negb_true_iff Hm%negb_true_iff].
  cbn zeta in Hrun.
  pose proof (hidden_set_revealed b _ _ Hwf Hb Hr) as Hcount.
  pose proof (wf_set_revealed b (row + dr) (col + dc) true Hwf) as Hwf2.
  destruct (_ =? 0).
  - destruct (RevealEmptyCalls order fuel _ _ _) as [[b1 n]|] eqn:Hcall; [|done].
    destruct (IHfuel _ _ _ _ _ Hwf2 Hcall) as [Hwf1 Hle1].
    destruct (IH b1 Hwf1 _ Hrun) as [Hwf' Hle]. split; [done|lia].
  - destruct (IH _ Hwf2 _ Hrun) as [Hwf' Hle]. split; [done|lia].
Qed.
End CallCount.

(** C9 as stated fails: with a [rand] that always returns 0 the loop of
    [PlaceMines] places one mine and then never leaves, however many passes
    it is given. *)
Lemma C9_counterexample :
  ¬ (∀ rand b0, wf_board b0 →
       ∃ n, is_Some (PlaceMines n rand (InitializeBoard b0))).
Proof.
  intros Hclaim.
  destruct (Hclaim (λ _, 0%nat) blank_board wf_blank_board) as [n Hn].
  apply (PlaceMines_returns _ _ _ wf_blank_board) in Hn.
  change (Z.to_nat MINES) with 10%nat in Hn.
  destruct n as [|n]; cbn [fresh_draws] in Hn; [lia|].
  rewrite decide_False in Hn by apply not_elem_of_nil.
  change (draw_cell (λ _, 0%nat) 0) with (0, 0) in Hn.
  rewrite fresh_draws_stuck in Hn by left. lia.
Qed.

(** The calls of a cascade, on any board it can be started on. *)
Lemma RevealEmptyCalls_cost fuel b row col :
  wf_board b → (count_cells hidden b < fuel)%nat →
  ∃ b' calls,
    RevealEmptyCalls offsets fuel b row col = Some (b', calls) ∧
    RevealEmpty fuel b row col = Some b' ∧
    (calls ≤ 1 + count_cells hidden b)%nat.
Proof.
  intros Hwf Hfuel.
  destruct (RevealEmptyIn_terminates offsets fuel b row col Hwf Hfuel) as [b' Hrun].
  pose proof (RevealEmptyCalls_board offsets fuel b row col) as Hboard.
  rewrite Hrun in Hboard.
  destruct (RevealEmptyCalls offsets fuel b row col) as [[b1 calls]|] eqn:Hcalls;
    [|done].
  injection Hboard as ->. exists b', calls.
  destruct (RevealEmptyCalls_bound offsets _ _ _ _ _ _ Hwf Hcalls) as [_ Hle].
  split_and!; [done|done|lia].
Qed.

(** C9, amended: every frame (Reveal with its cascade, ToggleFlag) returns,
    given stack for [ROWS * COLS + 1] calls; a cascade, on whatever board it
    is started, makes at most one call of [RevealEmpty] more than that board
    has hidden cells, so at most [ROWS * COLS + 1] calls of nine loop passes
    each, because every recursive call follows the opening of a hidden cell;
    the cascade of a click, which runs on the board with the clicked cell
    already open, makes at most as many calls as the board had hidden cells
    before the click, and its result is the result of the click;
    [InitializeBoard] and [CountNearbyMines] are loops over the grid; and
    the loop of [PlaceMines] ends within [n] passes exactly when the first
    [n] pairs of draws select [MINES] different cells: it has no bound of
    its own. *)
Theorem C9_termination_and_cost rand b0 g :
  wf_board b0 → reachable g →
  (∀ fuel i, (Z.to_nat (ROWS * COLS) < fuel)%nat → is_Some (frame fuel g i)) ∧
  (∀ b row col fuel,
     wf_board b → (count_cells hidden b < fuel)%nat →
     ∃ b' calls,
       RevealEmptyCalls offsets fuel b row col = Some (b', calls) ∧
       RevealEmpty fuel b row col = Some b' ∧
       (calls ≤ 1 + count_cells hidden b)%nat ∧
       (1 + count_cells hidden b ≤ Z.to_nat (ROWS * COLS) + 1)%nat) ∧
  (∀ fuel row col,
     (count_cells hidden (board g) ≤ fuel)%nat →
     in_bounds row col = true →
     flagged (cell_at (board g) row col) = false →
     revealed (cell_at (board g) row col) = false →
     hasMine (cell_at (board g) row col) = false →
     nearbyMines (cell_at (board g) row col) = 0 →
     ∃ b' calls,
       RevealEmptyCalls offsets fuel (set_revealed (board g) row col true) row col
         = Some (b', calls) ∧
       left_click fuel (board g) (gameOver g) row col = Some (b', gameOver g) ∧
       (calls ≤ count_cells hidden (board g))%nat ∧
       (count_cells hidden (board g) ≤ Z.to_nat (ROWS * COLS))%nat) ∧
  (∀ n, is_Some (PlaceMines n rand (InitializeBoard b0)) ↔
        (Z.to_nat MINES ≤ fresh_draws rand n 0 [])%nat).
Proof.
  intros Hwf0 [[Hwf _ _ _] _ _ _]%reachable_inv. split_and!.
  - intros fuel i Hfuel. by apply frame_total.
  - intros b row col fuel Hwfb Hfuel.
    destruct (RevealEmptyCalls_cost fuel b row col Hwfb Hfuel)
      as (b' & calls & Hcalls & Hrun & Hle).
    exists b', calls. pose proof (count_cells_le hidden b).
    split_and!; [done|done|done|lia].
  - intros fuel row col Hfuel Hb Hf Hr Hm Hz.
    pose proof (hidden_set_revealed (board g) row col Hwf Hb Hr) as Hcount.
    destruct (RevealEmptyCalls_cost fuel (set_revealed (board g) row col true)
                row col) as (b' & calls & Hcalls & Hrun & Hle);
      [by apply wf_set_revealed|lia|].
    exists b', calls. pose proof (count_cells_le hidden (board g)).
    split_and!; [done| |lia|lia].
    unfold left_click. rewrite Hb, Hf, Hr. cbn [negb andb]. cbn zeta.
    rewrite cell_at_set_revealed, if_same_cell by done. cbn [hasMine nearbyMines].
    rewrite Hm, Hz. cbn [Z.eqb]. by rewrite Hrun.
  - intros n. by apply PlaceMines_returns.
Qed.

Lemma C9_witness :
  (∀ fuel i, (Z.to_nat (ROWS * COLS) < fuel)%nat → is_Some (frame fuel sample_game i)) ∧
  (∀ b row col fuel,
     wf_board b → (count_cells hidden b < fuel)%nat →
     ∃ b' calls,
       RevealEmptyCalls offsets fuel b row col = Some (b', calls) ∧
       RevealEmpty fuel b row col = Some b' ∧
       (calls ≤ 1 + count_cells hidden b)%nat ∧
       (1 + count_cells hidden b ≤ Z.to_nat (ROWS * COLS) + 1)%nat) ∧
  (∃ b' calls,
     RevealEmptyCalls offsets 82 (set_revealed (board sample_game) 0 0 true) 0 0
       = Some (b', calls) ∧
     left_click 82 (board sample_game) (gameOver sample_game) 0 0
       = Some (b', gameOver sample_game) ∧
     (calls ≤ count_cells hidden (board sample_game))%nat ∧
     (count_cells hidden (board sample_game) ≤ Z.to_nat (ROWS * COLS))%nat) ∧
  (∀ n, is_Some (PlaceMines n lcg_rand (InitializeBoard blank_board)) ↔
        (Z.to_nat MINES ≤ fresh_draws lcg_rand n 0 [])%nat).
Proof.
  destruct (C9_termination_and_cost lcg_rand blank_board sample_game
              wf_blank_board sample_game_reachable)
    as (Hframe & Hany & Hclick & Hplace).
  split_and!; [exact Hframe|exact Hany| |exact Hplace].
  apply Hclick; [vm_compute; lia|by vm_compute..].
Defined.

(** * Further properties of the board functions *)

Lemma cell_at_blank_board r c :
  in_bounds r c = true → cell_at blank_board r c = no_cell.
Proof.
  intros [Hr Hc]%in_bounds_spec. unfold cell_at, blank_board, ROWS, COLS in *.
  rewrite lookup_replicate_2 by lia. cbn [mbind option_bind].
  by rewrite lookup_replicate_2 by lia.
Qed.

(** X1: whatever the array holds before, [InitializeBoard] leaves the same
    board: every cell hidden, unmined, unflagged, with count 0. *)
Theorem X1_InitializeBoard_forgets b :
  wf_board b → InitializeBoard b = blank_board.
Proof.
  intros Hwf. destruct (InitializeBoard_spec b Hwf) as [Hwf' Hcells].
  apply board_ext; [done|apply wf_blank_board|].
  intros r c Hb. by rewrite Hcells, cell_at_blank_board.
Qed.

Lemma wf_sample_lost : wf_board (board sample_lost).
Proof. split; [done|]. by repeat constructor. Qed.

Lemma X1_witness : InitializeBoard (board sample_lost) = blank_board.
Proof. apply (X1_InitializeBoard_forgets (board sample_lost)). exact wf_sample_lost. Defined.

Lemma counted_hasMine b r c x : hasMine (counted b r c x) = hasMine x.
Proof. unfold counted. by destruct (hasMine x) eqn:Hm. Qed.

(** X2: on any board [CountNearbyMines] writes nothing but the
    [nearbyMines] of the cells without a mine, which becomes the number of
    mined neighbours; a mined cell keeps the count it had; and a second run
    changes nothing. *)
Theorem X2_CountNearbyMines_writes_counts_only b :
  wf_board b →
  (∀ r c, in_bounds r c = true →
     revealed (cell_at (CountNearbyMines b) r c) = revealed (cell_at b r c) ∧
     hasMine (cell_at (CountNearbyMines b) r c) = hasMine (cell_at b r c) ∧
     flagged (cell_at (CountNearbyMines b) r c) = flagged (cell_at b r c) ∧
     nearbyMines (cell_at (CountNearbyMines b) r c) =
       if hasMine (cell_at b r c) then nearbyMines (cell_at b r c)
       else Z.of_nat (mined_neighbours b r c)) ∧
  CountNearbyMines (CountNearbyMines b) = CountNearbyMines b.
Proof.
  intros Hwf. destruct (CountNearbyMines_spec b Hwf) as [Hwf1 Hcells1].
  destruct (CountNearbyMines_spec _ Hwf1) as [Hwf2 Hcells2]. split.
  - intros r c Hb. rewrite Hcells1 by done. unfold counted.
    destruct (hasMine (cell_at b r c)) eqn:Hm; [by rewrite Hm|].
    cbn. by rewrite count_around_spec.
  - apply board_ext; [done..|]. intros r c Hb.
    rewrite Hcells2, Hcells1 by done. unfold counted at 1.
    rewrite (count_around_ext (CountNearbyMines b) b).
    + rewrite counted_hasMine. unfold counted.
      by destruct (hasMine (cell_at b r c)) eqn:Hm.
    + intros r' c' Hb'. by rewrite Hcells1, counted_hasMine.
Qed.

Lemma X2_witness :
  (∀ r c, in_bounds r c = true →
     revealed (cell_at (CountNearbyMines (board sample_lost)) r c) =
       revealed (cell_at (board sample_lost) r c) ∧
     hasMine (cell_at (CountNearbyMines (board sample_lost)) r c) =
       hasMine (cell_at (board sample_lost) r c) ∧
     flagged (cell_at (CountNearbyMines (board sample_lost)) r c) =
       flagged (cell_at (board sample_lost) r c) ∧
     nearbyMines (cell_at (CountNearbyMines (board sample_lost)) r c) =
       if hasMine (cell_at (board sample_lost) r c)
       then nearbyMines (cell_at (board sample_lost) r c)
       else Z.of_nat (mined_neighbours (board sample_lost) r c)) ∧
  CountNearbyMines (CountNearbyMines (board sample_lost)) =
    CountNearbyMines (board sample_lost).
Proof.
  apply (X2_CountNearbyMines_writes_counts_only (board sample_lost)).
  exact wf_sample_lost.
Defined.

(** X3: on any board [RevealAllMines] sets [revealed] on the mined cells
    and writes nothing else, and a second run changes nothing. *)
Theorem X3_RevealAllMines_idempotent b :
  wf_board b →
  (∀ r c, in_bounds r c = true →
     cell_at (RevealAllMines b) r c =
       if hasMine (cell_at b r c)
       then mkCell true true (flagged (cell_at b r c)) (nearbyMines (cell_at b r c))
       else cell_at b r c) ∧
  RevealAllMines (RevealAllMines b) = RevealAllMines b.
Proof.
  intros Hwf. destruct (RevealAllMines_spec b Hwf) as [Hwf1 Hcells1].
  destruct (RevealAllMines_spec _ Hwf1) as [Hwf2 Hcells2]. split.
  - intros r c Hb. rewrite Hcells1 by done. unfold mine_shown.
    by destruct (hasMine (cell_at b r c)) eqn:Hm.
  - apply board_ext; [done..|]. intros r c Hb.
    rewrite Hcells2, Hcells1 by done. unfold mine_shown.
    destruct (hasMine (cell_at b r c)) eqn:Hm; cbn; by rewrite ?Hm.
Qed.

Lemma X3_witness :
  (∀ r c, in_bounds r c = true →
     cell_at (RevealAllMines (board sample_game)) r c =
       if hasMine (cell_at (board sample_game) r c)
       then mkCell true true (flagged (cell_at (board sample_game) r c))
              (nearbyMines (cell_at (board sample_game) r c))
       else cell_at (board sample_game) r c) ∧
  RevealAllMines (RevealAllMines (board sample_game)) =
    RevealAllMines (board sample_game).
Proof.
  apply (X3_RevealAllMines_idempotent (board sample_game)).
  apply (inv_wf _ (inv_board _ (reachable_inv _ sample_game_reachable))).
Defined.

Lemma neighbours_at_most_8 r c :
  in_bounds r c = true →
  (length (filter (is_neighbour (r, c)) all_cells) ≤ 8)%nat.
Proof.
  intros Hb%elem_of_all_cells.
  assert (Forall (λ p, (length (filter (is_neighbour p) all_cells) ≤ 8)%nat) all_cells)
    as Hall by (apply (bool_decide_unpack _); by vm_compute).
  by apply (proj1 (Forall_forall _ _) Hall).
Qed.

Lemma mined_neighbours_at_most_8 b r c :
  in_bounds r c = true → (mined_neighbours b r c ≤ 8)%nat.
Proof.
  intros Hb. etrans; [|by apply neighbours_at_most_8].
  apply length_filter_le. by intros q _ [? _].
Qed.

Lemma setup_mined_zero fuel rand b0 b :
  wf_board b0 → PlaceMines fuel rand (InitializeBoard b0) = Some b →
  ∀ r c, in_bounds r c = true →
    hasMine (cell_at (CountNearbyMines b) r c) = true →
    nearbyMines (cell_at (CountNearbyMines b) r c) = 0.
Proof.
  intros Hwf0 Hplace r c Hb.
  destruct (InitializeBoard_spec b0 Hwf0) as [Hwfi Hinit].
  destruct (PlaceMines_spec rand fuel _ b Hwfi) as (Hwf & _ & Hsame);
    [|exact Hplace|].
  { unfold count_cells. apply (length_filter_none _ all_cells).
    intros [r' c'] Hb'%elem_of_all_cells. unfold mined. cbn [fst snd].
    rewrite Hinit by done. done. }
  destruct (CountNearbyMines_spec b Hwf) as [_ Hcount].
  rewrite Hcount by done. unfold counted.
  destruct (hasMine (cell_at b r c)) eqn:Hm; [|done]. intros _.
  destruct (Hsame r c Hb) as (_ & _ & ->). by rewrite Hinit.
Qed.

Lemma reachable_mined_zero g :
  reachable g →
  ∀ r c, in_bounds r c = true → hasMine (cell_at (board g) r c) = true →
    nearbyMines (cell_at (board g) r c) = 0.
Proof.
  induction 1 as [fuel rand b0 g Hwf0 Hnew|fuel g i g' Hreach IH Hframe].
  - unfold NewGame in Hnew.
    destruct (PlaceMines fuel rand (InitializeBoard b0)) as [b|] eqn:Hplace; [|done].
    pose proof (setup_mined_zero fuel rand b0 b Hwf0 Hplace) as Hzero.
    simpl in Hnew. revert Hnew Hzero. generalize (CountNearbyMines b).
    by intros b' [= <-] Hzero.
  - intros r c Hb Hm.
    pose proof (inv_wf _ (inv_board _ (reachable_inv _ Hreach))) as Hwf.
    destruct (frame_layout fuel g i g' r c Hwf Hframe Hb) as (_ & Hm' & ->).
    apply IH; [done|congruence].
Qed.

(** X4: in every state the program can be in, the [nearbyMines] of every
    cell lies between 0 and 8, and that of a mined cell is 0 (it is never
    counted). *)
Theorem X4_nearbyMines_range g r c :
  reachable g → in_bounds r c = true →
  0 ≤ nearbyMines (cell_at (board g) r c) ≤ 8 ∧
  (hasMine (cell_at (board g) r c) = true →
     nearbyMines (cell_at (board g) r c) = 0).
Proof.
  intros Hreach Hb. split; [|by apply reachable_mined_zero].
  destruct (hasMine (cell_at (board g) r c)) eqn:Hm.
  - rewrite (reachable_mined_zero g Hreach r c); done.
  - rewrite (inv_counts _ (inv_board _ (reachable_inv _ Hreach))) by done.
    pose proof (mined_neighbours_at_most_8 (board g) r c Hb). lia.
Qed.

Lemma X4_witness :
  0 ≤ nearbyMines (cell_at (board sample_opened) 6 2) ≤ 8 ∧
  (hasMine (cell_at (board sample_opened) 6 2) = true →
     nearbyMines (cell_at (board sample_opened) 6 2) = 0).
Proof.
  apply (X4_nearbyMines_range sample_opened 6 2 sample_opened_reachable).
  by vm_compute.
Defined.

Lemma click_result_keeps_revealed fuel b over row col b' over' r c :
  wf_board b → click_result fuel b over row col b' over' → in_bounds r c = true →
  revealed (cell_at b r c) = true → revealed (cell_at b' r c) = true.
Proof.
  intros Hwf Hclick Hrc Hrev.
  destruct Hclick as [?|Hb Hf Hr Hm|Hb Hf Hr Hm Hnz|b' Hb Hf Hr Hm Hz Hrun]; [done|..].
  - destruct (RevealAllMines_spec _ (wf_set_revealed _ row col true Hwf)) as [_ Hcells].
    rewrite Hcells by done. read_cells. unfold mine_shown.
    destruct (decide ((row, col) = (r, c))) as [[= <- <-]|Hne]; cbn [hasMine].
    + by rewrite Hm.
    + by destruct (hasMine (cell_at b r c)).
  - read_cells. by case_decide.
  - pose proof (opens_set_revealed b row col Hwf Hb Hr Hm) as Hopens1.
    assert (opens (set_revealed b row col true) b') as Hopens2
      by (eapply RevealEmptyIn_opens; eauto using opens_wf).
    apply (opens_revealed_mono b b'); [by eapply opens_trans|done..].
Qed.

(** One frame never hides a cell and never touches the flag of an open
    cell. *)
Lemma frame_keeps_revealed fuel g i g' r c :
  wf_board (board g) → frame fuel g i = Some g' → in_bounds r c = true →
  revealed (cell_at (board g) r c) = true →
  wf_board (board g') ∧
  revealed (cell_at (board g') r c) = true ∧
  flagged (cell_at (board g') r c) = flagged (cell_at (board g) r c).
Proof.
  intros Hwf Hrun Hrc Hrev.
  destruct (gameOver g) eqn:Hover;
    [rewrite frame_finished in Hrun by auto; by injection Hrun as <-|].
  destruct (win g) eqn:Hwin;
    [rewrite frame_finished in Hrun by auto; by injection Hrun as <-|].
  destruct (frame_playing _ _ _ _ Hover Hwin Hrun) as (b2 & over2 & Hinput & ->).
  destruct (HandleMouseInput_result _ _ _ _ _ _ Hwf Hinput) as (b1 & Hleft & ->).
  cbn [board].
  assert (wf_board b1 ∧ revealed (cell_at b1 r c) = true ∧
          flagged (cell_at b1 r c) = flagged (cell_at (board g) r c))
    as (Hwf1 & Hrev1 & <-).
  { destruct (left_pressed i); [|by destruct Hleft as [-> _]].
    destruct (click_result_flags _ _ _ _ _ _ _ r c Hwf Hleft Hrc) as (? & ? & _).
    split_and!; [done| |done].
    exact (click_result_keeps_revealed _ _ _ _ _ _ _ r c Hwf Hleft Hrc Hrev). }
  destruct (right_pressed i); [|done].
  destruct (right_click_spec b1 (mouse_row i) (mouse_col i) Hwf1) as [Hwf2 Hcells].
  rewrite Hcells by done. rewrite decide_False; [done|]. intros [_ ?]. congruence.
Qed.

(** X5: along any run of frames a revealed cell stays revealed and keeps
    the flag it had. *)
Theorem X5_revealed_is_permanent g0 g r c :
  wf_board (board g0) → plays g0 g → in_bounds r c = true →
  revealed (cell_at (board g0) r c) = true →
  revealed (cell_at (board g) r c) = true ∧
  flagged (cell_at (board g) r c) = flagged (cell_at (board g0) r c).
Proof.
  intros Hwf0 Hplays Hrc Hrev.
  assert (wf_board (board g) ∧ revealed (cell_at (board g) r c) = true ∧
          flagged (cell_at (board g) r c) = flagged (cell_at (board g0) r c))
    as (_ & ? & ?); [|done].
  induction Hplays as [|fuel g i g' _ (Hwf & IHr & IHf) Hrun]; [done|].
  destruct (frame_keeps_revealed fuel g i g' r c Hwf Hrun Hrc IHr) as (? & ? & ->).
  done.
Qed.

Lemma wf_sample_opened : wf_board (board sample_opened).
Proof. exact (inv_wf _ (inv_board _ (reachable_inv _ sample_opened_reachable))). Qed.

Lemma sample_opened_lost_frame :
  frame 82 sample_opened (mkInput 1 2 true false) = Some sample_opened_lost.
Proof. vm_compute. reflexivity. Qed.

Lemma X5_witness :
  revealed (cell_at (board sample_opened_lost) 0 0) = true ∧
  flagged (cell_at (board sample_opened_lost) 0 0) =
    flagged (cell_at (board sample_opened) 0 0).
Proof.
  apply (X5_revealed_is_permanent sample_opened sample_opened_lost 0 0 wf_sample_opened).
  - exact (plays_frame _ _ _ _ _ (plays_start _) sample_opened_lost_frame).
  - vm_compute. reflexivity.
  - vm_compute. reflexivity.
Defined.

Lemma length_filter_split {A : Type} (P : A → Prop) `{!∀ x, Decision (P x)}
    (l : list A) :
  (length (filter P l) + length (filter (λ x, ¬ P x) l) = length l)%nat.
Proof.
  induction l as [|x l IH]; [done|]. rewrite !filter_cons.
  destruct (decide (P x)); [rewrite decide_False by tauto|rewrite decide_True by done];
    simpl; lia.
Qed.

Lemma length_filter_full {A : Type} (P Q : A → Prop)
    `{!∀ x, Decision (P x)} `{!∀ x, Decision (Q x)} (l : list A) :
  (∀ y, y ∈ l → P y → Q y) → length (filter P l) = length (filter Q l) →
  ∀ y, y ∈ l → Q y → P y.
Proof.
  induction l as [|x l IH]; intros Himp Hlen y Hy HQ; [by apply elem_of_nil in Hy|].
  assert (∀ y, y ∈ l → P y → Q y) as Himp' by (intros; apply Himp; [by right|done]).
  pose proof (length_filter_le P Q l Himp') as Hle.
  pose proof (Himp x ltac:(left)) as Hx.
  rewrite !filter_cons in Hlen.
  destruct (decide (P x)) as [HPx|HPx], (decide (Q x)) as [HQx|HQx];
    simpl in Hlen; try tauto; try lia.
  - apply elem_of_cons in Hy as [->|Hy]; [done|]. apply IH; [done|lia|done..].
  - apply elem_of_cons in Hy as [->|Hy]; [done|]. apply IH; [done|lia|done..].
Qed.

Lemma reachable_won_cells g :
  reachable g → gameOver g = false → win g = true →
  ∀ r c, in_bounds r c = true →
    revealed (cell_at (board g) r c) = negb (hasMine (cell_at (board g) r c)).
Proof.
  intros [[Hwf Hmines _ _] Hwin Hhidden Hover]%reachable_inv Hnotover Hwon r c Hb.
  destruct (hasMine (cell_at (board g) r c)) eqn:Hm; [by apply Hhidden|].
  rewrite Hwin in Hwon. apply CheckWin_spec in Hwon.
  pose proof (length_filter_split (λ p, mined (cell_at (board g) p.1 p.2)) all_cells)
    as Hsplit.
  change (length (filter _ all_cells)) with (count_cells mined (board g)) in Hsplit at 1.
  assert (length all_cells = 81%nat) as Hcells by (by vm_compute).
  assert (count_cells revealed_safe (board g) =
          length (filter (λ p, ¬ mined (cell_at (board g) p.1 p.2)) all_cells)) as Hlen.
  { unfold ROWS, COLS, MINES in *. lia. }
  cbn [negb].
  apply (length_filter_full _ _ all_cells) with (y := (r, c)) in Hlen.
  - apply Hlen.
  - intros [r' c'] _ [_ Hm']. unfold mined. cbn [fst snd] in *. congruence.
  - by apply elem_of_all_cells.
  - unfold mined. cbn [fst snd]. congruence.
Qed.

(** X7: a game is never both lost and won; and in a won game the revealed
    cells are exactly the cells without a mine (no mine is shown on a
    win). *)
Theorem X7_won_board g :
  reachable g →
  ¬ (gameOver g = true ∧ win g = true) ∧
  (phase g = Won →
   ∀ r c, in_bounds r c = true →
     revealed (cell_at (board g) r c) = negb (hasMine (cell_at (board g) r c))).
Proof.
  intros Hreach. split.
  - pose proof (inv_over _ (reachable_inv _ Hreach)) as Hover.
    intros [Ho Hw]. rewrite Hover in Hw; done.
  - intros [Hnotover Hwon]%phase_Won. by apply reachable_won_cells.
Qed.

Lemma X7_witness :
  ¬ (gameOver sample_won = true ∧ win sample_won = true) ∧
  (phase sample_won = Won →
   ∀ r c, in_bounds r c = true →
     revealed (cell_at (board sample_won) r c) =
       negb (hasMine (cell_at (board sample_won) r c))).
Proof. apply (X7_won_board sample_won). exact sample_won_reachable. Defined.

Lemma click_result_opens_clicked fuel b over row col b' over' :
  wf_board b → click_result fuel b over row col b' over' →
  in_bounds row col = true → flagged (cell_at b row col) = false →
  revealed (cell_at b' row col) = true.
Proof.
  intros Hwf Hclick Hb Hf.
  destruct (revealed (cell_at b row col)) eqn:Hrev.
  { by eapply click_result_keeps_revealed. }
  destruct Hclick as [[?|[?|?]]|_ _ Hr Hm|_ _ Hr Hm Hnz|b' _ _ Hr Hm Hz Hrun];
    try congruence.
  - destruct (RevealAllMines_spec _ (wf_set_revealed _ row col true Hwf)) as [_ Hcells].
    rewrite Hcells by done. read_cells. unfold mine_shown. cbn [hasMine]. by rewrite Hm.
  - by read_cells.
  - pose proof (opens_set_revealed b row col Hwf Hb Hr Hm) as Hopens1.
    apply (opens_revealed_mono (set_revealed b row col true) b'); [|done|by read_cells].
    eapply RevealEmptyIn_opens; eauto using opens_wf.
Qed.

(** X8: a frame with both buttons pressed never sets a flag. It is the
    right-click frame on a flagged cell (the left click is ignored) and the
    left-click frame on any other cell (the cell is open, or the
    coordinates are outside the grid, when the right button is looked at).
    No cell that was unflagged is flagged afterwards, and in a game being
    played the cell under the mouse ends flagged only if it was flagged and
    already open (a flag on a hidden cell is taken off; a flagged cell that
    a cascade has opened keeps its flag). *)
Theorem X8_both_buttons g fuel row col :
  wf_board (board g) →
  frame fuel g (mkInput row col true true) =
    (if in_bounds row col && flagged (cell_at (board g) row col)
     then frame fuel g (mkInput row col false true)
     else frame fuel g (mkInput row col true false)) ∧
  ∀ g', frame fuel g (mkInput row col true true) = Some g' →
    (∀ r c, in_bounds r c = true →
       flagged (cell_at (board g') r c) = true →
       flagged (cell_at (board g) r c) = true) ∧
    (phase g = Playing → in_bounds row col = true →
       flagged (cell_at (board g') row col) =
         flagged (cell_at (board g) row col) &&
         revealed (cell_at (board g) row col)).
Proof.
  intros Hwf. split.
  { unfold frame.
    destruct (negb (gameOver g) && negb (win g)); [|by destruct (_ && _)].
    unfold HandleMouseInput.
    cbn [left_pressed right_pressed mouse_row mouse_col].
    destruct (in_bounds row col) eqn:Hb; cbn [andb].
    - destruct (flagged (cell_at (board g) row col)) eqn:Hf.
      + by rewrite left_click_ignored by auto.
      + destruct (left_click fuel (board g) (gameOver g) row col)
          as [[b1 over1]|] eqn:Hleft; [|done].
        cbn [mbind option_bind]. rewrite right_click_revealed_noop; [done|]. right.
        apply left_click_result in Hleft; [|done].
        by eapply click_result_opens_clicked.
    - rewrite left_click_ignored by auto. cbn [mbind option_bind].
      by rewrite right_click_revealed_noop by auto. }
  intros g' Hframe.
  destruct (gameOver g) eqn:Hover.
  { rewrite frame_finished in Hframe by auto. injection Hframe as <-.
    split; [done|]. intros [? _]%phase_Playing. congruence. }
  destruct (win g) eqn:Hwin.
  { rewrite frame_finished in Hframe by auto. injection Hframe as <-.
    split; [done|]. intros [_ ?]%phase_Playing. congruence. }
  destruct (frame_playing _ _ _ _ Hover Hwin Hframe) as (b2 & over & Hinput & ->).
  cbn [board].
  destruct (HandleMouseInput_result _ _ _ _ _ _ Hwf Hinput) as (b1 & Hleft & ->).
  cbn [left_pressed right_pressed mouse_row mouse_col] in *.
  assert (wf_board b1) as Hwf1
    by (by destruct (click_result_flags _ _ _ _ _ _ _ 0 0 Hwf Hleft)).
  destruct (right_click_spec b1 row col Hwf1) as [_ Hcells].
  assert (∀ r c, in_bounds r c = true →
            flagged (cell_at b1 r c) = flagged (cell_at (board g) r c)) as Hflags.
  { intros r c Hb.
    by destruct (click_result_flags _ _ _ _ _ _ _ r c Hwf Hleft Hb) as (_ & ? & _). }
  assert (in_bounds row col = true →
          flagged (cell_at (board g) row col) = false →
          revealed (cell_at b1 row col) = true) as Hopened
    by (intros;
        by apply (click_result_opens_clicked fuel (board g) false row col b1 over)).
  assert (flagged (cell_at (board g) row col) = true → b1 = board g) as Hignored.
  { intros Hf. inversion Hleft; try done; congruence. }
  split.
  - intros r c Hb. rewrite Hcells by done. case_decide as Hcase.
    + destruct Hcase as [[= <- <-] Hr]. cbn [flagged]. rewrite Hflags by done.
      destruct (flagged (cell_at (board g) row col)) eqn:Hf; [done|].
      rewrite Hopened in Hr; done.
    + by rewrite Hflags.
  - intros _ Hb. rewrite Hcells by done.
    destruct (flagged (cell_at (board g) row col)) eqn:Hf.
    + rewrite (Hignored eq_refl) in *.
      destruct (revealed (cell_at (board g) row col)) eqn:Hr.
      * rewrite decide_False by (intros [_ ?]; congruence). by rewrite Hf.
      * rewrite decide_True by done. cbn [flagged]. by rewrite Hf.
    + rewrite decide_False by (intros [_ ?]; rewrite Hopened in *; done).
      by rewrite Hflags, Hf.
Qed.

Lemma sample_flag_opened_reachable : reachable sample_flag_opened.
Proof.
  apply (plays_reachable sample_game); [exact sample_game_reachable|].
  apply (run_plays 82 [mkInput 0 1 false true; mkInput 0 0 true false]).
  vm_compute. reflexivity.
Qed.

Lemma X8_witness :
  frame 82 sample_flag_opened (mkInput 0 1 true true) =
    (if in_bounds 0 1 && flagged (cell_at (board sample_flag_opened) 0 1)
     then frame 82 sample_flag_opened (mkInput 0 1 false true)
     else frame 82 sample_flag_opened (mkInput 0 1 true false)) ∧
  ∀ g', frame 82 sample_flag_opened (mkInput 0 1 true true) = Some g' →
    (∀ r c, in_bounds r c = true →
       flagged (cell_at (board g') r c) = true →
       flagged (cell_at (board sample_flag_opened) r c) = true) ∧
    (phase sample_flag_opened = Playing → in_bounds 0 1 = true →
       flagged (cell_at (board g') 0 1) =
         flagged (cell_at (board sample_flag_opened) 0 1) &&
         revealed (cell_at (board sample_flag_opened) 0 1)).
Proof.
  apply (X8_both_buttons sample_flag_opened 82 0 1).
  exact (inv_wf _ (inv_board _ (reachable_inv _ sample_flag_opened_reachable))).
Defined.

(** X9: in a game being played a left click on a hidden, unflagged cell
    without a mine whose count is not zero opens that cell and nothing else:
    no cascade, whatever the stack and the right button. *)
Theorem X9_number_click_opens_one_cell g fuel row col right :
  reachable g → phase g = Playing → in_bounds row col = true →
  flagged (cell_at (board g) row col) = false →
  revealed (cell_at (board g) row col) = false →
  hasMine (cell_at (board g) row col) = false →
  nearbyMines (cell_at (board g) row col) ≠ 0 →
  ∃ g', frame fuel g (mkInput row col true right) = Some g' ∧
    gameOver g' = false ∧
    ∀ r c, in_bounds r c = true →
      cell_at (board g') r c =
        if decide ((r, c) = (row, col)) then shown (cell_at (board g) r c)
        else cell_at (board g) r c.
Proof.
  intros [[Hwf _ _ _] _ _ _]%reachable_inv [Hover Hwin]%phase_Playing Hb Hf Hr Hm Hz.
  set (b1 := set_revealed (board g) row col true).
  assert (left_click fuel (board g) false row col = Some (b1, false)) as Hclick.
  { unfold left_click. rewrite Hb, Hf, Hr. cbn [negb andb]. cbn zeta.
    rewrite cell_at_set_revealed, if_same_cell by done. cbn [hasMine nearbyMines].
    rewrite Hm. by apply Z.eqb_neq in Hz as ->. }
  assert ((if right then right_click b1 row col else b1) = b1) as Hright.
  { destruct right; [|done]. apply right_click_revealed_noop. right.
    unfold b1. by read_cells. }
  exists (mkGame b1 false (if CheckWin b1 then true else win g)). split_and!.
  - unfold frame, HandleMouseInput. rewrite Hover, Hwin.
    cbn [negb andb left_pressed right_pressed mouse_row mouse_col].
    rewrite Hclick. cbn [mbind option_bind]. by rewrite Hright.
  - done.
  - intros r c Hrc. cbn [board]. unfold b1. read_cells.
    destruct (decide ((row, col) = (r, c))) as [[= <- <-]|Hne].
    + by rewrite decide_True.
    + rewrite decide_False; [done|]. congruence.
Qed.

Lemma X9_witness :
  ∃ g', frame 82 sample_game (mkInput 0 1 true true) = Some g' ∧
    gameOver g' = false ∧
    ∀ r c, in_bounds r c = true →
      cell_at (board g') r c =
        if decide ((r, c) = (0, 1)) then shown (cell_at (board sample_game) r c)
        else cell_at (board sample_game) r c.
Proof.
  apply (X9_number_click_opens_one_cell sample_game 82 0 1 true sample_game_reachable);
    by vm_compute.
Defined.

Lemma PlaceMines_loop_adds rand fuel : ∀ k placed b b',
  wf_board b → placed ≤ MINES →
  PlaceMines_loop fuel rand k placed b = Some b' →
  wf_board b' ∧
  Z.of_nat (count_cells mined b') = Z.of_nat (count_cells mined b) + (MINES - placed) ∧
  ∀ r c, in_bounds r c = true →
    revealed (cell_at b' r c) = revealed (cell_at b r c) ∧
    flagged (cell_at b' r c) = flagged (cell_at b r c) ∧
    nearbyMines (cell_at b' r c) = nearbyMines (cell_at b r c) ∧
    (hasMine (cell_at b r c) = true → hasMine (cell_at b' r c) = true) ∧
    (hasMine (cell_at b' r c) = true →
       hasMine (cell_at b r c) = true ∨ ∃ j : nat, (r, c) = draw_cell rand (k + 2 * j)).
Proof.
  induction fuel as [|fuel IH]; intros k placed b b' Hwf Hle Hrun;
    cbn [PlaceMines_loop] in Hrun; destruct (placed <? MINES) eqn:Hlt;
    try apply Z.ltb_lt in Hlt; try apply Z.ltb_ge in Hlt; try done;
    try (injection Hrun as <-; split_and!; [done|lia|]; intros r c Hb;
         split_and!; auto).
  pose proof (draw_in_bounds (rand k) (rand (S k))) as Hb.
  destruct (hasMine (cell_at b _ _)) eqn:Hm; cbn [negb] in Hrun.
  - destruct (IH _ _ _ _ Hwf Hle Hrun) as (Hwf' & Hcount & Hcells).
    split_and!; [done..|]. intros r c Hrc.
    destruct (Hcells r c Hrc) as (? & ? & ? & ? & Hnew). split_and!; [done..|].
    intros [?|[j ->]]%Hnew; [by left|]. right. exists (S j).
      by replace (k + 2 * S j)%nat with (S (S k) + 2 * j)%nat by lia.
  - assert (placed + 1 ≤ MINES) as Hle' by lia.
    destruct (IH _ _ _ _ (wf_set_hasMine _ _ _ true Hwf) Hle' Hrun)
      as (Hwf' & Hcount & Hcells).
    rewrite mined_set_hasMine in Hcount by done.
    split_and!; [done|lia|]. intros r c Hrc.
    destruct (Hcells r c Hrc) as (Hr & Hf & Hn & Hold & Hnew).
    revert Hr Hf Hn Hold Hnew. read_cells.
    destruct (decide ((Z.rem (Z.of_nat (rand k)) ROWS,
                       Z.rem (Z.of_nat (rand (S k))) COLS) = (r, c))) as [Heq|Hne];
      cbn [revealed hasMine flagged nearbyMines].
    + injection Heq as <- <-. intros -> -> -> Hold _. split_and!; [done..|auto|].
      intros _. right. exists 0%nat. unfold draw_cell. by rewrite Nat.add_0_r.
    + intros -> -> -> Hold Hnew. split_and!; [done..|].
      intros [?|[j ->]]%Hnew; [by left|]. right. exists (S j).
      by replace (k + 2 * S j)%nat with (S (S k) + 2 * j)%nat by lia.
Qed.

(** X10: on any board, when [PlaceMines] returns it has added exactly
    [MINES] mines to the ones that were there: it removes no mine, puts the
    new ones only on cells selected by a pair of draws, and writes no other
    field. *)
Theorem X10_PlaceMines_adds_MINES rand fuel b b' :
  wf_board b → PlaceMines fuel rand b = Some b' →
  Z.of_nat (count_cells mined b') = Z.of_nat (count_cells mined b) + MINES ∧
  ∀ r c, in_bounds r c = true →
    revealed (cell_at b' r c) = revealed (cell_at b r c) ∧
    flagged (cell_at b' r c) = flagged (cell_at b r c) ∧
    nearbyMines (cell_at b' r c) = nearbyMines (cell_at b r c) ∧
    (hasMine (cell_at b r c) = true → hasMine (cell_at b' r c) = true) ∧
    (hasMine (cell_at b' r c) = true →
       hasMine (cell_at b r c) = true ∨ ∃ j : nat, (r, c) = draw_cell rand (2 * j)).
Proof.
  intros Hwf Hrun. unfold PlaceMines in Hrun.
  destruct (PlaceMines_loop_adds rand fuel 0 0 b b' Hwf ltac:(by vm_compute) Hrun)
    as (_ & Hcount & Hcells).
  split; [lia|]. exact Hcells.
Qed.

Lemma X10_witness :
  Z.of_nat (count_cells mined sample_remined) =
    Z.of_nat (count_cells mined (board sample_game)) + MINES ∧
  ∀ r c, in_bounds r c = true →
    revealed (cell_at sample_remined r c) = revealed (cell_at (board sample_game) r c) ∧
    flagged (cell_at sample_remined r c) = flagged (cell_at (board sample_game) r c) ∧
    nearbyMines (cell_at sample_remined r c) =
      nearbyMines (cell_at (board sample_game) r c) ∧
    (hasMine (cell_at (board sample_game) r c) = true →
       hasMine (cell_at sample_remined r c) = true) ∧
    (hasMine (cell_at sample_remined r c) = true →
       hasMine (cell_at (board sample_game) r c) = true ∨
       ∃ j : nat, (r, c) = draw_cell lcg_rand (2 * j)).
Proof.
  apply (X10_PlaceMines_adds_MINES lcg_rand 100 (board sample_game) sample_remined).
  - exact (inv_wf _ (inv_board _ (reachable_inv _ sample_game_reachable))).
  - vm_compute. reflexivity.
Defined.

(** * Sound *)

Lemma heard_nil x : heard x [] = 0%nat.
Proof. done. Qed.

Lemma heard_app x l1 l2 : heard x (l1 ++ l2) = (heard x l1 + heard x l2)%nat.
Proof. unfold heard. by rewrite filter_app, length_app. Qed.

Lemma heard_cons x y l :
  heard x (y :: l) = ((if decide (y = x) then 1 else 0) + heard x l)%nat.
Proof. unfold heard. rewrite filter_cons. by case_decide. Qed.

Lemma heard_replicate x y n :
  heard x (replicate n y) = if decide (y = x) then n else 0%nat.
Proof.
  induction n as [|n IH]; [by case_decide|]. cbn [replicate].
  rewrite heard_cons, IH. by case_decide.
Qed.

Lemma play_once_spec played x :
  play_once played x = (true, if played then [] else [x]).
Proof. unfold play_once. by destruct played. Qed.

(** The first copy's cascade computes the board of [RevealEmpty]. *)
Lemma RevealEmptySfx_board fuel : ∀ b row col,
  fst <$> RevealEmptySfx fuel b row col = RevealEmpty fuel b row col.
Proof.
  unfold RevealEmpty.
  induction fuel as [|fuel IHfuel]; intros b row col; [done|].
  rewrite RevealEmptyIn_unfold. cbn [RevealEmptySfx].
  match goal with |- context [foldM ?f offsets (b, [])] => set (F := f) end.
  generalize (@nil Sound). revert b. generalize offsets at 1 3. intros l.
  induction l as [|[dr dc] l IH]; intros b log; [done|]. cbn [foldM].
  unfold F at 1. unfold visit at 1. cbn [fst snd].
  destruct (in_bounds _ _); [|apply IH].
  destruct (negb _ && negb _); [|apply IH]. cbn zeta.
  destruct (_ =? 0); [|apply IH].
  rewrite <- IHfuel.
  destruct (RevealEmptySfx fuel _ _ _) as [[b1 l1]|]; [apply IH|done].
Qed.

(** It plays [sNumber] and nothing else, once for every cell it opens. *)
Lemma RevealEmptySfx_log fuel : ∀ b row col b' log,
  wf_board b → RevealEmptySfx fuel b row col = Some (b', log) →
  wf_board b' ∧ log = replicate (length log) sNumber ∧
  (length log + count_cells hidden b' = count_cells hidden b)%nat.
Proof.
  induction fuel as [|fuel IHfuel]; intros b row col b' log Hwf Hrun; [done|].
  cbn [RevealEmptySfx] in Hrun.
  assert (∀ l b log0 n0,
    wf_board b → log0 = replicate n0 sNumber →
    foldM (λ '(b, log) '(dr, dc),
      let nr := row + dr in
      let nc := col + dc in
      if in_bounds nr nc then
        if negb (revealed (cell_at b nr nc)) && negb (hasMine (cell_at b nr nc))
        then
          let b := set_revealed b nr nc true in
          let log := log ++ [sNumber] in
          if nearbyMines (cell_at b nr nc) =? 0
          then
            match RevealEmptySfx fuel b nr nc with
            | Some (b, inner) => Some (b, log ++ inner)
            | None => None
            end
          else Some (b, log)
        else Some (b, log)
      else Some (b, log)) l (b, log0) = Some (b', log) →
    wf_board b' ∧ ∃ n, log = replicate n sNumber ∧
      (n + count_cells hidden b' = n0 + count_cells hidden b)%nat) as Hloop.
  { clear b Hwf Hrun. induction l as [|[dr dc] l IH]; intros b log0 n0 Hwf Hlog0 Hrun;
      cbn [foldM] in Hrun.
    { injection Hrun as <- <-. split; [done|]. by exists n0. }
    destruct (in_bounds _ _) eqn:Hb; [|by apply (IH b log0 n0)].
    destruct (negb _ && negb _) eqn:Hhid; [|by apply (IH b log0 n0)].
    apply andb_true_iff in Hhid as [Hr%negb_true_iff Hm%negb_true_iff].
    cbn zeta in Hrun.
    pose proof (hidden_set_revealed b _ _ Hwf Hb Hr) as Hcount.
    pose proof (wf_set_revealed b (row + dr) (col + dc) true Hwf) as Hwf2.
    assert (log0 ++ [sNumber] = replicate (S n0) sNumber) as Hlog1.
    { rewrite Hlog0. change [sNumber] with (replicate 1 sNumber).
      rewrite <- replicate_add. f_equal. lia. }
    destruct (_ =? 0).
    - destruct (RevealEmptySfx fuel _ _ _) as [[b1 l1]|] eqn:Hcall; [|done].
      destruct (IHfuel _ _ _ _ _ Hwf2 Hcall) as (Hwf1 & Hl1 & Hle1).
      destruct (IH b1 ((log0 ++ [sNumber]) ++ l1) (S n0 + length l1)%nat Hwf1)
        as (Hwf' & n & Hn & Hle);
        [by rewrite Hlog1, Hl1, <- replicate_add, length_replicate|exact Hrun|].
      split; [done|]. exists n. split; [done|]. lia.
    - destruct (IH _ (log0 ++ [sNumber]) (S n0) Hwf2 Hlog1 Hrun)
        as (Hwf' & n & Hn & Hle).
      split; [done|]. exists n. split; [done|]. lia. }
  destruct (Hloop offsets b [] 0%nat Hwf eq_refl Hrun) as (Hwf' & n & -> & Hn).
  rewrite length_replicate. by split_and!.
Qed.

Lemma length_filter_disjoint {A : Type} (P Q : A → Prop)
    `{!∀ x, Decision (P x)} `{!∀ x, Decision (Q x)} (l : list A) :
  (∀ y, y ∈ l → P y → Q y → False) →
  (length (filter P l) + length (filter Q l) =
   length (filter (λ y, P y ∨ Q y) l))%nat.
Proof.
  induction l as [|y l IH]; intros Hdis; [done|]. rewrite !filter_cons.
  pose proof (Hdis y ltac:(left)) as Hy.
  assert (length (filter P l) + length (filter Q l) =
          length (filter (λ y, P y ∨ Q y) l))%nat as Hl
    by (apply IH; intros; eapply Hdis; [by right|done..]).
  destruct (decide (P y)), (decide (Q y)), (decide (P y ∨ Q y));
    simpl; try tauto; lia.
Qed.

(** Opening cells moves them from the hidden count to the count of
    [CheckWin]. *)
Lemma opens_counts b b' :
  opens b b' →
  (count_cells revealed_safe b' + count_cells hidden b' =
   count_cells revealed_safe b + count_cells hidden b)%nat.
Proof.
  intros [_ Hcells]. unfold count_cells.
  rewrite !length_filter_disjoint
    by (intros [r c] _ [Hr _] Hh; unfold hidden in Hh; congruence).
  apply length_filter_agree. intros [r c] Hb%elem_of_all_cells. cbn [fst snd].
  unfold revealed_safe, hidden.
  destruct (Hcells r c Hb) as [->|(Hr & Hm & ->)]; [done|]. cbn.
  rewrite Hr, Hm. split; intros _; [by right|by left].
Qed.

(** What a left click does and what is heard, case by case. *)
Lemma left_click_sfx_shape cascade b over a row col b' over' a' log :
  wf_board b →
  left_click_sfx cascade b over a row col = Some (b', over', a', log) →
  (b' = b ∧ over' = over ∧ a' = a ∧ log = [] ∧
   (in_bounds row col = false ∨ flagged (cell_at b row col) = true ∨
    revealed (cell_at b row col) = true)) ∨
  (in_bounds row col = true ∧ flagged (cell_at b row col) = false ∧
   revealed (cell_at b row col) = false ∧
   ((hasMine (cell_at b row col) = true ∧
     b' = RevealAllMines (set_revealed b row col true) ∧ over' = true ∧
     a' = mkAudio true (playedWinSound a) true ∧
     log = (if playedBoomSound a then [] else [sBoom]) ++
           (if playedGameOverSound a then [] else [sOver])) ∨
    (hasMine (cell_at b row col) = false ∧ over' = over ∧ a' = a ∧
     ((nearbyMines (cell_at b row col) ≠ 0 ∧
       b' = set_revealed b row col true ∧ log = [sNumber]) ∨
      (nearbyMines (cell_at b row col) = 0 ∧
       ∃ l, cascade (set_revealed b row col true) row col = Some (b', l) ∧
            log = sNumber :: l))))).
Proof.
  intros Hwf Hrun. unfold left_click_sfx in Hrun.
  destruct (in_bounds row col) eqn:Hb; [|injection Hrun as <- <- <- <-; left; auto 10].
  destruct (flagged (cell_at b row col)) eqn:Hf; cbn [negb andb] in Hrun;
    [injection Hrun as <- <- <- <-; left; auto 10|].
  destruct (revealed (cell_at b row col)) eqn:Hr; cbn [negb andb] in Hrun;
    [injection Hrun as <- <- <- <-; left; auto 10|].
  right. split_and!; [done..|]. revert Hrun. cbn zeta.
  rewrite cell_at_set_revealed, if_same_cell by done. cbn [hasMine nearbyMines].
  destruct (hasMine (cell_at b row col)) eqn:Hm.
  - rewrite !play_once_spec. intros [= <- <- <- <-]. left. by split_and!.
  - right. split; [done|]. revert Hrun.
    destruct (nearbyMines (cell_at b row col) =? 0) eqn:Hz.
    + apply Z.eqb_eq in Hz.
      destruct (cascade _ row col) as [[b1 l]|] eqn:Hcascade; cbn; [|done].
      intros [= <- <- <- <-]. split_and!; [done..|]. right. split; [done|]. by exists l.
    + apply Z.eqb_neq in Hz. intros [= <- <- <- <-]. split_and!; [done..|]. by left.
Qed.

(** The sounds do not steer the game: a left click with sound computes
    the board and [gameOver] of [left_click]. *)
Lemma left_click_sfx_game cascade fuel b over a row col :
  (∀ b r c, fst <$> cascade b r c = RevealEmpty fuel b r c) →
  (λ x : Board * bool * Audio * list Sound, (x.1.1.1, x.1.1.2)) <$>
    left_click_sfx cascade b over a row col = left_click fuel b over row col.
Proof.
  intros Hcascade. unfold left_click_sfx, left_click.
  destruct (in_bounds row col); [|done].
  destruct (negb _ && negb _); [|done]. cbn zeta.
  destruct (hasMine _); [by rewrite !play_once_spec|].
  destruct (_ =? 0); [|done]. rewrite <- Hcascade.
  by destruct (cascade _ row col) as [[b1 l]|].
Qed.

Lemma right_click_sfx_spec b row col :
  right_click_sfx b row col =
    (right_click b row col,
     if in_bounds row col && negb (revealed (cell_at b row col)) then [sFlag] else []).
Proof.
  unfold right_click_sfx, right_click. destruct (in_bounds row col); [|done].
  by destruct (negb _).
Qed.

Lemma win_check_sfx_spec b w a :
  win_check_sfx b w a =
    (if CheckWin b then true else w,
     if CheckWin b then mkAudio (playedGameOverSound a) true (playedBoomSound a) else a,
     if CheckWin b && negb (playedWinSound a) then [sWin] else []).
Proof.
  unfold win_check_sfx. destruct (CheckWin b); [|done].
  rewrite play_once_spec. by destruct (playedWinSound a).
Qed.

Lemma playing_frame_game cascade fuel s i :
  (∀ b r c, fst <$> cascade b r c = RevealEmpty fuel b r c) →
  (λ x : Session * list Sound, game x.1) <$> playing_frame cascade s i =
    '(b, over) ← HandleMouseInput fuel (board (game s)) (gameOver (game s)) i;
    Some (mkGame b over (if CheckWin b then true else win (game s))).
Proof.
  intros Hcascade. unfold playing_frame, HandleMouseInput.
  destruct (left_pressed i).
  - rewrite <- (left_click_sfx_game cascade fuel _ _ (audio s)) by done.
    destruct (left_click_sfx cascade _ _ _ _ _) as [[[[b1 over1] a1] log1]|]; [|done].
    cbn [fmap option_fmap option_map mbind option_bind fst snd].
    destruct (right_pressed i); rewrite ?right_click_sfx_spec; cbn beta iota;
      by rewrite win_check_sfx_spec.
  - cbn [fmap option_fmap option_map mbind option_bind fst snd].
    destruct (right_pressed i); rewrite ?right_click_sfx_spec; cbn beta iota;
      by rewrite win_check_sfx_spec.
Qed.

Lemma RevealEmptyCells_board fuel b r c :
  fst <$> RevealEmptyCells fuel b r c = RevealEmpty fuel b r c.
Proof. unfold RevealEmptyCells. by destruct (RevealEmpty fuel b r c). Qed.

Lemma idle_frame_game s : game (idle_frame s).1 = game s.
Proof.
  unfold idle_frame.
  by destruct (gameOver (game s)), (win (game s)); rewrite ?play_once_spec.
Qed.

(** X11: the sounds and the play-once flags never steer the game: in both
    copies of the source a frame of the loop takes the board, [gameOver] and
    [win] where [frame] takes them, and returns no result exactly when
    [frame] returns none. *)
Theorem X11_sound_does_not_steer_the_game fuel s i :
  (λ x : Session * list Sound, game x.1) <$> main_loop_v1 fuel s i =
    frame fuel (game s) i ∧
  (λ x : Session * list Sound, game x.1) <$> main_loop_v2 fuel s i =
    frame fuel (game s) i.
Proof.
  unfold main_loop_v1, main_loop_v2, frame.
  destruct (negb (gameOver (game s)) && negb (win (game s))).
  - split; apply playing_frame_game; intros;
      [apply RevealEmptySfx_board|apply RevealEmptyCells_board].
  - split; [|done]. cbn [fmap option_fmap option_map]. by rewrite idle_frame_game.
Qed.

(** When the trackers are in tune the [else] branch of the first copy
    finds nothing to play. *)
Lemma idle_frame_in_tune s : in_tune s → idle_frame s = (s, []).
Proof.
  destruct s as [g [over won boom]]. unfold in_tune, idle_frame.
  cbn [game audio playedGameOverSound playedWinSound playedBoomSound].
  intros (-> & -> & _). rewrite !play_once_spec.
  by destruct (gameOver g), (win g).
Qed.

Lemma heard_only_number l x :
  l = replicate (length l) sNumber → x ≠ sNumber → heard x l = 0%nat.
Proof. intros -> Hx. rewrite heard_replicate. by rewrite decide_False. Qed.

(** One frame of a game being played with the trackers in tune: the
    trackers stay in tune, and the boom, game-over and win sounds are heard
    exactly when the game is lost, respectively won, in this frame. *)
Lemma playing_frame_sounds cascade s i s' log :
  (∀ b r c b' l, wf_board b → cascade b r c = Some (b', l) →
     l = replicate (length l) sNumber) →
  wf_board (board (game s)) → in_tune s →
  gameOver (game s) = false → win (game s) = false →
  playing_frame cascade s i = Some (s', log) →
  in_tune s' ∧
  heard sBoom log = (if gameOver (game s') then 1 else 0)%nat ∧
  heard sOver log = (if gameOver (game s') then 1 else 0)%nat ∧
  heard sWin log = (if win (game s') then 1 else 0)%nat.
Proof.
  intros Hlog Hwf (Ho & Hw & Hbm) Hover Hwin Hrun. unfold playing_frame in Hrun.
  rewrite Hover, Hwin in *.
  assert (∃ b1 over1 a1 log1,
    (if left_pressed i
     then left_click_sfx cascade (board (game s)) false (audio s)
            (mouse_row i) (mouse_col i)
     else Some (board (game s), false, audio s, [])) = Some (b1, over1, a1, log1) ∧
    playedWinSound a1 = false ∧
    playedGameOverSound a1 = over1 ∧ playedBoomSound a1 = over1 ∧
    heard sBoom log1 = (if over1 then 1 else 0)%nat ∧
    heard sOver log1 = (if over1 then 1 else 0)%nat ∧
    heard sWin log1 = 0%nat) as (b1 & over1 & a1 & log1 & Hleft & Ha1).
  { destruct (left_pressed i); [|by exists (board (game s)), false, (audio s), []].
    destruct (left_click_sfx _ _ _ _ _ _) as [[[[b1 over1] a1] log1]|] eqn:Hleft;
      [|done].
    exists b1, over1, a1, log1. split; [done|].
    destruct (left_click_sfx_shape _ _ _ _ _ _ _ _ _ _ Hwf Hleft)
      as [(-> & -> & -> & -> & _)|(Hb & Hf & Hr & [(Hm & -> & -> & -> & ->)|
           (Hm & -> & -> & [(Hz & -> & ->)|(Hz & l & Hcascade & ->)])])].
    - by split_and!.
    - rewrite Hbm, Ho. by split_and!.
    - by split_and!.
    - apply Hlog in Hcascade; [|by apply wf_set_revealed].
      rewrite !heard_cons, !(heard_only_number l) by done. by split_and!. }
  rewrite Hleft in Hrun. cbn [mbind option_bind] in Hrun.
  destruct Ha1 as (Hw1 & Ho1 & Hbm1 & Hboom & Hov & Hwn).
  revert Hrun.
  destruct (right_pressed i); rewrite ?right_click_sfx_spec; cbn beta iota;
    rewrite win_check_sfx_spec, Hw1; intros [= <- <-]; cbn [game audio gameOver win];
    rewrite !heard_app, Hboom, Hov, Hwn;
    repeat match goal with
    | |- context [if ?x && negb false then _ else _] => rewrite (andb_true_r x)
    | |- context [if ?x && negb ?y then _ else _] => destruct (x && negb y)
    end;
    unfold in_tune; cbn [game audio gameOver win];
    destruct (CheckWin _); cbn; rewrite ?Hw1, ?Ho1, ?Hbm1; split_and!; try done; lia.
Qed.

Lemma main_loop_v1_game fuel s i s' l :
  main_loop_v1 fuel s i = Some (s', l) → frame fuel (game s) i = Some (game s').
Proof.
  intros Hrun. unfold main_loop_v1 in Hrun. unfold frame.
  destruct (negb (gameOver (game s)) && negb (win (game s))).
  - rewrite <- (playing_frame_game (RevealEmptySfx fuel)) by apply RevealEmptySfx_board.
    by rewrite Hrun.
  - injection Hrun as Hrun. by rewrite <- (idle_frame_game s), Hrun.
Qed.

Lemma main_loop_v2_game fuel s i s' l :
  main_loop_v2 fuel s i = Some (s', l) → frame fuel (game s) i = Some (game s').
Proof.
  intros Hrun. unfold main_loop_v2 in Hrun. unfold frame.
  destruct (negb (gameOver (game s)) && negb (win (game s))).
  - rewrite <- (playing_frame_game (RevealEmptyCells fuel))
      by apply RevealEmptyCells_board.
    by rewrite Hrun.
  - by injection Hrun as <- _.
Qed.

Lemma main_loop_game loop fuel s i s' l :
  loop = main_loop_v1 ∨ loop = main_loop_v2 →
  loop fuel s i = Some (s', l) → frame fuel (game s) i = Some (game s').
Proof. intros [-> | ->]; [apply main_loop_v1_game|apply main_loop_v2_game]. Qed.

Lemma RevealEmptySfx_only_number fuel b r c b' l :
  wf_board b → RevealEmptySfx fuel b r c = Some (b', l) →
  l = replicate (length l) sNumber.
Proof. intros Hwf Hrun. by destruct (RevealEmptySfx_log fuel b r c b' l Hwf Hrun) as (_ & ? & _). Qed.

Lemma RevealEmptyCells_only_number fuel b r c b' l :
  wf_board b → RevealEmptyCells fuel b r c = Some (b', l) →
  l = replicate (length l) sNumber.
Proof.
  intros _ Hrun. unfold RevealEmptyCells in Hrun.
  destruct (RevealEmpty fuel b r c); [|done]. by injection Hrun as _ <-.
Qed.

(** One frame of either copy, trackers in tune. *)
Lemma main_loop_sounds loop fuel s i s' log :
  loop = main_loop_v1 ∨ loop = main_loop_v2 →
  wf_board (board (game s)) → in_tune s → loop fuel s i = Some (s', log) →
  in_tune s' ∧
  (heard sBoom log + (if gameOver (game s) then 1 else 0) =
     if gameOver (game s') then 1 else 0)%nat ∧
  (heard sOver log + (if gameOver (game s) then 1 else 0) =
     if gameOver (game s') then 1 else 0)%nat ∧
  (heard sWin log + (if win (game s) then 1 else 0) =
     if win (game s') then 1 else 0)%nat.
Proof.
  intros Hloop Hwf Htune Hrun.
  destruct (negb (gameOver (game s)) && negb (win (game s))) eqn:Hplaying.
  - apply andb_true_iff in Hplaying as [Hover%negb_true_iff Hwin%negb_true_iff].
    rewrite Hover, Hwin. rewrite !Nat.add_0_r.
    destruct Hloop as [-> | ->]; unfold main_loop_v1, main_loop_v2 in Hrun;
      rewrite Hover, Hwin in Hrun; cbn [negb andb] in Hrun.
    + apply (playing_frame_sounds (RevealEmptySfx fuel) s i s' log); try done.
      intros; by eapply RevealEmptySfx_only_number.
    + apply (playing_frame_sounds (RevealEmptyCells fuel) s i s' log); try done.
      intros; by eapply RevealEmptyCells_only_number.
  - assert (s' = s ∧ log = []) as [-> ->].
    { destruct Hloop as [-> | ->]; unfold main_loop_v1, main_loop_v2 in Hrun;
        rewrite Hplaying in Hrun; [|by injection Hrun as <- <-].
      rewrite idle_frame_in_tune in Hrun by done. by injection Hrun as <- <-. }
    by rewrite !heard_nil.
Qed.

(** X12: in a run of either copy's loop that starts with the trackers in
    tune with a game being played (as [main] starts it), the boom sound and
    the game-over sound have each been heard exactly once if the game is
    lost and never otherwise, the win sound exactly once if the game is won
    and never otherwise, and the trackers are still in tune. *)
Theorem X12_ending_sounds_once loop s0 s log :
  loop = main_loop_v1 ∨ loop = main_loop_v2 →
  wf_board (board (game s0)) → phase (game s0) = Playing → in_tune s0 →
  session_run loop s0 s log →
  in_tune s ∧
  heard sBoom log = (if gameOver (game s) then 1 else 0)%nat ∧
  heard sOver log = (if gameOver (game s) then 1 else 0)%nat ∧
  heard sWin log = (if win (game s) then 1 else 0)%nat.
Proof.
  intros Hloop Hwf0 [Hover0 Hwin0]%phase_Playing Htune0 Hrun.
  assert (wf_board (board (game s)) ∧ in_tune s ∧
    heard sBoom log = (if gameOver (game s) then 1 else 0)%nat ∧
    heard sOver log = (if gameOver (game s) then 1 else 0)%nat ∧
    heard sWin log = (if win (game s) then 1 else 0)%nat) as (_ & ?); [|done].
  induction Hrun as [|fuel s log i s' l _ (Hwf & Htune & Hb & Ho & Hw) Hstep].
  { rewrite Hover0, Hwin0. by split_and!. }
  destruct (main_loop_sounds loop fuel s i s' l Hloop Hwf Htune Hstep)
    as (Htune' & Hb' & Ho' & Hw').
  pose proof (main_loop_game loop fuel s i s' l Hloop Hstep) as Hframe.
  split; [by eapply (frame_layout fuel (game s) i (game s') 0 0)|].
  rewrite !heard_app, Hb, Ho, Hw. split_and!; [done|lia..].
Qed.

Lemma X12_witness :
  in_tune sample_session_lost ∧
  heard sBoom ([] ++ [sBoom; sOver]) =
    (if gameOver (game sample_session_lost) then 1 else 0)%nat ∧
  heard sOver ([] ++ [sBoom; sOver]) =
    (if gameOver (game sample_session_lost) then 1 else 0)%nat ∧
  heard sWin ([] ++ [sBoom; sOver]) =
    (if win (game sample_session_lost) then 1 else 0)%nat.
Proof.
  apply (X12_ending_sounds_once main_loop_v1 sample_session sample_session_lost
           ([] ++ [sBoom; sOver])).
  - by left.
  - exact (inv_wf _ (inv_board _ (reachable_inv _ sample_flagged_reachable))).
  - by vm_compute.
  - by vm_compute.
  - apply (session_frame main_loop_v1 sample_session 82 sample_session []
             (mkInput 1 2 true false)); [apply session_start|].
    vm_compute. reflexivity.
Defined.

(** ** The three blocks of a played frame *)

Lemma playing_frame_parts cascade s i s' log :
  playing_frame cascade s i = Some (s', log) →
  ∃ b1 over1 a1 log1,
    (if left_pressed i
     then left_click_sfx cascade (board (game s)) (gameOver (game s)) (audio s)
            (mouse_row i) (mouse_col i)
     else Some (board (game s), gameOver (game s), audio s, [])) =
      Some (b1, over1, a1, log1) ∧
    ∃ b2, b2 = (if right_pressed i then right_click b1 (mouse_row i) (mouse_col i)
                else b1) ∧
    s' = mkSession (mkGame b2 over1 (if CheckWin b2 then true else win (game s)))
           (if CheckWin b2
            then mkAudio (playedGameOverSound a1) true (playedBoomSound a1)
            else a1) ∧
    log = log1 ++
          (if right_pressed i && in_bounds (mouse_row i) (mouse_col i) &&
              negb (revealed (cell_at b1 (mouse_row i) (mouse_col i)))
           then [sFlag] else []) ++
          (if CheckWin b2 && negb (playedWinSound a1) then [sWin] else []).
Proof.
  unfold playing_frame. intros Hrun.
  destruct (if left_pressed i then _ else _) as [[[[b1 over1] a1] log1]|]; [|done].
  exists b1, over1, a1, log1. split; [done|].
  cbn [mbind option_bind] in Hrun. revert Hrun.
  destruct (right_pressed i); rewrite ?right_click_sfx_spec; cbn beta iota;
    rewrite win_check_sfx_spec; intros [= <- <-]; eexists; split_and!; done.
Qed.

Lemma left_block_shape cascade b over a i b' over' a' log :
  wf_board b →
  (if left_pressed i
   then left_click_sfx cascade b over a (mouse_row i) (mouse_col i)
   else Some (b, over, a, [])) = Some (b', over', a', log) →
  (b' = b ∧ over' = over ∧ a' = a ∧ log = [] ∧
   (left_pressed i = false ∨ in_bounds (mouse_row i) (mouse_col i) = false ∨
    flagged (cell_at b (mouse_row i) (mouse_col i)) = true ∨
    revealed (cell_at b (mouse_row i) (mouse_col i)) = true)) ∨
  (left_pressed i = true ∧ in_bounds (mouse_row i) (mouse_col i) = true ∧
   flagged (cell_at b (mouse_row i) (mouse_col i)) = false ∧
   revealed (cell_at b (mouse_row i) (mouse_col i)) = false ∧
   ((hasMine (cell_at b (mouse_row i) (mouse_col i)) = true ∧
     b' = RevealAllMines (set_revealed b (mouse_row i) (mouse_col i) true) ∧
     over' = true ∧ a' = mkAudio true (playedWinSound a) true ∧
     log = (if playedBoomSound a then [] else [sBoom]) ++
           (if playedGameOverSound a then [] else [sOver])) ∨
    (hasMine (cell_at b (mouse_row i) (mouse_col i)) = false ∧
     over' = over ∧ a' = a ∧
     ((nearbyMines (cell_at b (mouse_row i) (mouse_col i)) ≠ 0 ∧
       b' = set_revealed b (mouse_row i) (mouse_col i) true ∧ log = [sNumber]) ∨
      (nearbyMines (cell_at b (mouse_row i) (mouse_col i)) = 0 ∧
       ∃ l, cascade (set_revealed b (mouse_row i) (mouse_col i) true)
              (mouse_row i) (mouse_col i) = Some (b', l) ∧
            log = sNumber :: l))))).
Proof.
  intros Hwf Hrun. destruct (left_pressed i).
  - destruct (left_click_sfx_shape _ _ _ _ _ _ _ _ _ _ Hwf Hrun)
      as [(-> & -> & -> & -> & ?)|?]; [left; split_and!; auto|by right].
  - injection Hrun as <- <- <- <-. left. split_and!; auto.
Qed.

Lemma same_safe_count b b' :
  same_safe b b' → count_cells revealed_safe b' = count_cells revealed_safe b.
Proof.
  intros [_ Hsame]. apply count_cells_ext. intros r c Hb. unfold revealed_safe.
  destruct (Hsame r c Hb) as (Hm & _ & Hr).
  destruct (hasMine (cell_at b r c)) eqn:Hmb.
  - split; intros [_ ?]; congruence.
  - rewrite Hm, Hr; done.
Qed.

Lemma idle_frame_log s x :
  x ≠ sOver → x ≠ sWin → heard x (idle_frame s).2 = 0%nat.
Proof.
  intros Hover Hwin. unfold idle_frame.
  destruct (gameOver (game s)), (win (game s)); rewrite ?play_once_spec;
    cbn [snd]; rewrite heard_app;
    repeat match goal with |- context [if ?x then _ else _] => destruct x end;
    rewrite ?heard_cons, ?heard_nil, ?decide_False by done; done.
Qed.

Lemma left_block_flags cascade fuel b over a i b' over' a' log r c :
  (∀ b r c, fst <$> cascade b r c = RevealEmpty fuel b r c) →
  wf_board b →
  (if left_pressed i
   then left_click_sfx cascade b over a (mouse_row i) (mouse_col i)
   else Some (b, over, a, [])) = Some (b', over', a', log) →
  in_bounds r c = true →
  wf_board b' ∧ flagged (cell_at b' r c) = flagged (cell_at b r c).
Proof.
  intros Hproj Hwf Hrun Hb.
  destruct (left_pressed i); [|by injection Hrun as <- <- <- <-].
  pose proof (left_click_sfx_game cascade fuel b over a (mouse_row i) (mouse_col i)
                Hproj) as Hgame.
  rewrite Hrun in Hgame. cbn in Hgame. symmetry in Hgame.
  apply left_click_result in Hgame; [|done].
  by destruct (click_result_flags _ _ _ _ _ _ _ r c Hwf Hgame Hb) as (? & ? & _).
Qed.

Lemma left_block_log cascade b over a i b' over' a' log :
  (∀ b r c b' l, wf_board b → cascade b r c = Some (b', l) →
     l = replicate (length l) sNumber) →
  wf_board b →
  (if left_pressed i
   then left_click_sfx cascade b over a (mouse_row i) (mouse_col i)
   else Some (b, over, a, [])) = Some (b', over', a', log) →
  heard sFlag log = 0%nat ∧ heard sWin log = 0%nat.
Proof.
  intros Hlog Hwf Hrun.
  destruct (left_block_shape _ _ _ _ _ _ _ _ _ Hwf Hrun)
    as [(_ & _ & _ & -> & _)|(_ & Hb & Hf & Hr & [(Hm & _ & _ & _ & ->)|
         (Hm & _ & _ & [(Hz & _ & ->)|(Hz & l & Hcascade & ->)])])]; [done| |done|].
  - by destruct (playedBoomSound a), (playedGameOverSound a).
  - apply Hlog in Hcascade; [|by apply wf_set_revealed].
    by rewrite !heard_cons, !(heard_only_number l).
Qed.

Lemma left_block_v1_count fuel b over a i b' over' a' log :
  wf_board b →
  (if left_pressed i
   then left_click_sfx (RevealEmptySfx fuel) b over a (mouse_row i) (mouse_col i)
   else Some (b, over, a, [])) = Some (b', over', a', log) →
  wf_board b' ∧
  count_cells revealed_safe b' = (count_cells revealed_safe b + heard sNumber log)%nat.
Proof.
  intros Hwf Hrun.
  destruct (left_block_shape _ _ _ _ _ _ _ _ _ Hwf Hrun)
    as [(-> & _ & _ & -> & _)|(_ & Hb & Hf & Hr & [(Hm & -> & _ & _ & ->)|
         (Hm & _ & _ & [(Hz & -> & ->)|(Hz & l & Hcascade & ->)])])].
  - rewrite heard_nil. split; [done|lia].
  - assert (same_safe b (RevealAllMines
              (set_revealed b (mouse_row i) (mouse_col i) true))) as Hsame.
    { eapply same_safe_trans; [by apply set_revealed_mine_same_safe|].
      by apply RevealAllMines_same_safe, wf_set_revealed. }
    split; [apply Hsame|]. rewrite (same_safe_count _ _ Hsame).
    destruct (playedBoomSound a), (playedGameOverSound a);
      change (heard sNumber _) with 0%nat; lia.
  - split; [by apply wf_set_revealed|].
    pose proof (opens_counts _ _ (opens_set_revealed _ _ _ Hwf Hb Hr Hm)).
    pose proof (hidden_set_revealed _ _ _ Hwf Hb Hr).
    change (heard sNumber [sNumber]) with 1%nat. lia.
  - pose proof (opens_counts _ _ (opens_set_revealed _ _ _ Hwf Hb Hr Hm)).
    pose proof (hidden_set_revealed _ _ _ Hwf Hb Hr).
    assert (wf_board (set_revealed b (mouse_row i) (mouse_col i) true)) as Hwf1
      by (by apply wf_set_revealed).
    destruct (RevealEmptySfx_log _ _ _ _ _ _ Hwf1 Hcascade) as (Hwf' & Hl & Hhidden).
    split; [done|].
    pose proof (RevealEmptySfx_board fuel
      (set_revealed b (mouse_row i) (mouse_col i) true) (mouse_row i) (mouse_col i))
      as Hboard.
    rewrite Hcascade in Hboard. cbn in Hboard. symmetry in Hboard.
    unfold RevealEmpty in Hboard. apply RevealEmptyIn_opens in Hboard; [|done].
    apply opens_counts in Hboard.
    rewrite heard_cons, decide_True by done. rewrite Hl, heard_replicate.
    rewrite decide_True by done. lia.
Qed.

(** X13: in the first copy the number sound is played once for every
    cell that a frame opens: in any frame the number of [sNumber] sounds is
    the increase of the count of revealed cells without a mine, the count
    that [CheckWin] compares with [ROWS * COLS - MINES]. *)
Theorem X13_number_sound_per_opened_cell fuel s i s' log :
  wf_board (board (game s)) → main_loop_v1 fuel s i = Some (s', log) →
  Z.of_nat (heard sNumber log) =
    revealedCount (board (game s')) - revealedCount (board (game s)).
Proof.
  intros Hwf Hrun. rewrite !revealedCount_spec. unfold main_loop_v1 in Hrun.
  destruct (negb (gameOver (game s)) && negb (win (game s))).
  2:{ injection Hrun as Hrun. rewrite <- (idle_frame_game s), Hrun. cbn [fst].
      replace log with (idle_frame s).2 by (by rewrite Hrun).
      rewrite idle_frame_log by done. lia. }
  apply playing_frame_parts in Hrun
    as (b1 & over1 & a1 & log1 & Hleft & b2 & Hb2 & -> & ->).
  cbn [game board].
  destruct (left_block_v1_count _ _ _ _ _ _ _ _ _ Hwf Hleft) as [Hwf1 Hcount].
  assert (count_cells revealed_safe b2 = count_cells revealed_safe b1) as ->.
  { apply same_safe_count. rewrite Hb2. destruct (right_pressed i).
    - by apply right_click_same_safe.
    - by apply same_safe_refl. }
  rewrite Hcount, !heard_app.
  assert (∀ (x y : bool), heard sNumber (if x then [sFlag] else []) = 0%nat ∧
            heard sNumber (if y then [sWin] else []) = 0%nat) as Hrest
    by (by intros [] []).
  destruct (Hrest (right_pressed i && in_bounds (mouse_row i) (mouse_col i) &&
                   negb (revealed (cell_at b1 (mouse_row i) (mouse_col i))))
                  (CheckWin b2 && negb (playedWinSound a1))) as [-> ->].
  lia.
Qed.

Lemma wf_sample_game : wf_board (board sample_game).
Proof. exact (inv_wf _ (inv_board _ (reachable_inv _ sample_game_reachable))). Qed.

Lemma X13_witness :
  Z.of_nat (heard sNumber [sNumber; sNumber; sNumber; sNumber]) =
    revealedCount (board (game sample_session_opened)) -
    revealedCount (board (game sample_start)).
Proof.
  apply (X13_number_sound_per_opened_cell 82 sample_start (mkInput 0 0 true false)).
  - exact wf_sample_game.
  - vm_compute. reflexivity.
Defined.

Lemma left_block_v2_count fuel b over a i b' over' a' log :
  wf_board b →
  (if left_pressed i
   then left_click_sfx (RevealEmptyCells fuel) b over a (mouse_row i) (mouse_col i)
   else Some (b, over, a, [])) = Some (b', over', a', log) →
  wf_board b' ∧
  heard sNumber log =
    if decide (count_cells revealed_safe b < count_cells revealed_safe b')%nat
    then 1%nat else 0%nat.
Proof.
  intros Hwf Hrun.
  destruct (left_block_shape _ _ _ _ _ _ _ _ _ Hwf Hrun)
    as [(-> & _ & _ & -> & _)|(_ & Hb & Hf & Hr & [(Hm & -> & _ & _ & ->)|
         (Hm & _ & _ & [(Hz & -> & ->)|(Hz & l & Hcascade & ->)])])].
  - split; [done|]. rewrite decide_False by lia. done.
  - assert (same_safe b (RevealAllMines
              (set_revealed b (mouse_row i) (mouse_col i) true))) as Hsame.
    { eapply same_safe_trans; [by apply set_revealed_mine_same_safe|].
      by apply RevealAllMines_same_safe, wf_set_revealed. }
    split; [apply Hsame|]. rewrite (same_safe_count _ _ Hsame).
    rewrite decide_False by lia.
    by destruct (playedBoomSound a), (playedGameOverSound a).
  - split; [by apply wf_set_revealed|].
    pose proof (opens_counts _ _ (opens_set_revealed _ _ _ Hwf Hb Hr Hm)).
    pose proof (hidden_set_revealed _ _ _ Hwf Hb Hr).
    rewrite decide_True by lia. done.
  - pose proof (opens_counts _ _ (opens_set_revealed _ _ _ Hwf Hb Hr Hm)).
    pose proof (hidden_set_revealed _ _ _ Hwf Hb Hr).
    assert (wf_board (set_revealed b (mouse_row i) (mouse_col i) true)) as Hwf1
      by (by apply wf_set_revealed).
    unfold RevealEmptyCells in Hcascade.
    destruct (RevealEmpty _ _ _ _) as [b1|] eqn:Hboard; [|done].
    injection Hcascade as -> <-.
    unfold RevealEmpty in Hboard. apply RevealEmptyIn_opens in Hboard; [|done].
    split; [apply Hboard|].
    pose proof (opens_counts _ _ Hboard). pose proof (opens_hidden_le _ _ Hboard).
    rewrite decide_True by lia. done.
Qed.

(** X14: in the second copy the cascade is silent: a frame plays the
    number sound once if it opens at least one cell without a mine (the
    count of revealed safe cells grows) and not at all otherwise, however
    many cells the cascade opens. *)
Theorem X14_one_number_sound_per_frame fuel s i s' log :
  wf_board (board (game s)) → main_loop_v2 fuel s i = Some (s', log) →
  heard sNumber log =
    if decide (revealedCount (board (game s)) < revealedCount (board (game s')))
    then 1%nat else 0%nat.
Proof.
  intros Hwf Hrun. rewrite !revealedCount_spec. unfold main_loop_v2 in Hrun.
  destruct (negb (gameOver (game s)) && negb (win (game s))).
  2:{ injection Hrun as <- <-. rewrite decide_False by lia. done. }
  apply playing_frame_parts in Hrun
    as (b1 & over1 & a1 & log1 & Hleft & b2 & Hb2 & -> & ->).
  cbn [game board].
  destruct (left_block_v2_count _ _ _ _ _ _ _ _ _ Hwf Hleft) as [Hwf1 Hcount].
  assert (count_cells revealed_safe b2 = count_cells revealed_safe b1) as ->.
  { apply same_safe_count. rewrite Hb2. destruct (right_pressed i).
    - by apply right_click_same_safe.
    - by apply same_safe_refl. }
  rewrite !heard_app, Hcount.
  assert (∀ (x y : bool), heard sNumber (if x then [sFlag] else []) = 0%nat ∧
            heard sNumber (if y then [sWin] else []) = 0%nat) as Hrest
    by (by intros [] []).
  destruct (Hrest (right_pressed i && in_bounds (mouse_row i) (mouse_col i) &&
                   negb (revealed (cell_at b1 (mouse_row i) (mouse_col i))))
                  (CheckWin b2 && negb (playedWinSound a1))) as [-> ->].
  repeat case_decide; lia.
Qed.

Lemma X14_witness :
  heard sNumber [sNumber] =
    if decide (revealedCount (board (game sample_start)) <
               revealedCount (board (game sample_session_opened)))
    then 1%nat else 0%nat.
Proof.
  apply (X14_one_number_sound_per_frame 82 sample_start (mkInput 0 0 true false)).
  - exact wf_sample_game.
  - vm_compute. reflexivity.
Defined.

(** ** Both copies, frame by frame *)

Lemma main_loop_cases loop fuel s i s' log :
  loop = main_loop_v1 ∨ loop = main_loop_v2 →
  loop fuel s i = Some (s', log) →
  (gameOver (game s) = false ∧ win (game s) = false ∧
   ∃ cascade,
     (∀ b r c, fst <$> cascade b r c = RevealEmpty fuel b r c) ∧
     (∀ b r c b' l, wf_board b → cascade b r c = Some (b', l) →
        l = replicate (length l) sNumber) ∧
     playing_frame cascade s i = Some (s', log)) ∨
  ((gameOver (game s) = true ∨ win (game s) = true) ∧ game s' = game s ∧
   ∀ x, x ≠ sOver → x ≠ sWin → heard x log = 0%nat).
Proof.
  intros Hloop Hrun.
  destruct (negb (gameOver (game s)) && negb (win (game s))) eqn:Hplaying.
  - apply andb_true_iff in Hplaying as [Hover%negb_true_iff Hwin%negb_true_iff].
    left. split_and!; [done..|].
    destruct Hloop as [-> | ->]; unfold main_loop_v1, main_loop_v2 in Hrun;
      rewrite Hover, Hwin in Hrun; cbn [negb andb] in Hrun.
    + exists (RevealEmptySfx fuel). split_and!; [apply RevealEmptySfx_board| |done].
      intros; by eapply RevealEmptySfx_only_number.
    + exists (RevealEmptyCells fuel). split_and!; [apply RevealEmptyCells_board| |done].
      intros; by eapply RevealEmptyCells_only_number.
  - right. split.
    { destruct (gameOver (game s)); [by left|]. destruct (win (game s)); [by right|done]. }
    destruct Hloop as [-> | ->]; unfold main_loop_v1, main_loop_v2 in Hrun;
      rewrite Hplaying in Hrun; [|by injection Hrun as <- <-].
    injection Hrun as Hrun. split; [by rewrite <- (idle_frame_game s), Hrun|].
    intros x Hover Hwin. replace log with (idle_frame s).2 by (by rewrite Hrun).
    by apply idle_frame_log.
Qed.

(** X15: the flag sound tells whether the frame toggled a flag. In either
    copy a frame plays [sFlag] at most once; if it does, the cell under the
    mouse is in the grid and its [flagged] field has been negated; if it
    does not, no cell of the grid has changed its [flagged] field. *)
Theorem X15_flag_sound_iff_toggle loop fuel s i s' log :
  loop = main_loop_v1 ∨ loop = main_loop_v2 →
  wf_board (board (game s)) → loop fuel s i = Some (s', log) →
  (heard sFlag log = 1%nat ∧ in_bounds (mouse_row i) (mouse_col i) = true ∧
   flagged (cell_at (board (game s')) (mouse_row i) (mouse_col i)) =
     negb (flagged (cell_at (board (game s)) (mouse_row i) (mouse_col i)))) ∨
  (heard sFlag log = 0%nat ∧
   ∀ r c, in_bounds r c = true →
     flagged (cell_at (board (game s')) r c) = flagged (cell_at (board (game s)) r c)).
Proof.
  intros Hloop Hwf Hrun.
  destruct (main_loop_cases _ _ _ _ _ _ Hloop Hrun)
    as [(_ & _ & cascade & Hproj & Hlog & Hframe)|(_ & -> & Hquiet)];
    [|right; split; [by apply Hquiet|done]].
  apply playing_frame_parts in Hframe
    as (b1 & over1 & a1 & log1 & Hleft & b2 & Hb2 & -> & ->).
  cbn [game board].
  destruct (left_block_log _ _ _ _ _ _ _ _ _ Hlog Hwf Hleft) as [Hflag _].
  assert (wf_board b1) as Hwf1
    by (by destruct (left_block_flags _ _ _ _ _ _ _ _ _ _ 0 0 Hproj Hwf Hleft)).
  assert (∀ y : bool, heard sFlag (if y then [sWin] else []) = 0%nat) as Hwin
    by (by intros []).
  rewrite !heard_app, Hflag, Hwin.
  destruct (right_click_spec b1 (mouse_row i) (mouse_col i) Hwf1) as [_ Hcells].
  destruct (right_pressed i && in_bounds (mouse_row i) (mouse_col i) &&
            negb (revealed (cell_at b1 (mouse_row i) (mouse_col i)))) eqn:Hcond.
  - apply andb_true_iff in Hcond as [[Hright Hb]%andb_true_iff Hr%negb_true_iff].
    left. split_and!; [done..|]. rewrite Hb2, Hright, Hcells by done.
    rewrite decide_True by done. cbn [flagged].
    by destruct (left_block_flags _ _ _ _ _ _ _ _ _ _ _ _ Hproj Hwf Hleft Hb)
      as [_ ->].
  - right. split; [done|]. intros r c Hb.
    destruct (left_block_flags _ _ _ _ _ _ _ _ _ _ _ _ Hproj Hwf Hleft Hb)
      as [_ <-].
    rewrite Hb2. destruct (right_pressed i); [|done]. rewrite Hcells by done.
    case_decide as Hcase; [|done]. destruct Hcase as [[= <- <-] Hr].
    by rewrite Hb, Hr in Hcond.
Qed.

Lemma X15_witness :
  (heard sFlag [sFlag] = 1%nat ∧ in_bounds 0 6 = true ∧
   flagged (cell_at (board (game sample_session)) 0 6) =
     negb (flagged (cell_at (board (game sample_start)) 0 6))) ∨
  (heard sFlag [sFlag] = 0%nat ∧
   ∀ r c, in_bounds r c = true →
     flagged (cell_at (board (game sample_session)) r c) =
       flagged (cell_at (board (game sample_start)) r c)).
Proof.
  apply (X15_flag_sound_iff_toggle main_loop_v2 82 sample_start
           (mkInput 0 6 false true) sample_session [sFlag]).
  - by right.
  - exact wf_sample_game.
  - vm_compute. reflexivity.
Defined.

Lemma filter_number_log (l : list Sound) :
  l = replicate (length l) sNumber → filter (λ x, x ≠ sNumber) l = [].
Proof.
  intros ->. induction (length l) as [|n IH]; [done|].
  cbn [replicate]. by rewrite filter_cons_False by (by intros ?).
Qed.

Lemma left_click_sfx_copies fuel b over a row col :
  wf_board b →
  match left_click_sfx (RevealEmptySfx fuel) b over a row col,
        left_click_sfx (RevealEmptyCells fuel) b over a row col with
  | Some (b1, over1, a1, l1), Some (b2, over2, a2, l2) =>
      b1 = b2 ∧ over1 = over2 ∧ a1 = a2 ∧
      filter (λ x, x ≠ sNumber) l1 = filter (λ x, x ≠ sNumber) l2
  | None, None => True
  | _, _ => False
  end.
Proof.
  intros Hwf. unfold left_click_sfx.
  destruct (in_bounds row col); [|done].
  destruct (negb _ && negb _); [|done]. cbn zeta.
  destruct (hasMine _); [by rewrite !play_once_spec|].
  destruct (_ =? 0); [|done].
  pose proof (RevealEmptySfx_board fuel (set_revealed b row col true) row col)
    as Hboard.
  unfold RevealEmptyCells. rewrite <- Hboard.
  destruct (RevealEmptySfx fuel _ row col) as [[b1 l]|] eqn:Hrun;
    cbn [fmap option_fmap option_map fst mbind option_bind]; [|done].
  apply RevealEmptySfx_only_number in Hrun; [|by apply wf_set_revealed].
  split_and!; [done..|].
  rewrite (filter_cons_False _ sNumber l) by (by intros ?).
  rewrite (filter_cons_False _ sNumber []) by (by intros ?).
  by apply filter_number_log.
Qed.

(** X16: the two copies of the program play the same game and, apart
    from the number sound, the same sounds in the same order: on a session
    whose trackers are in tune, a frame of the first copy and a frame of the
    second return the same session and logs that are equal once [sNumber] is
    dropped (or both run out of stack). *)
Theorem X16_copies_agree_up_to_number_sound fuel s i :
  wf_board (board (game s)) → in_tune s →
  match main_loop_v1 fuel s i, main_loop_v2 fuel s i with
  | Some (s1, l1), Some (s2, l2) =>
      s1 = s2 ∧ filter (λ x, x ≠ sNumber) l1 = filter (λ x, x ≠ sNumber) l2
  | None, None => True
  | _, _ => False
  end.
Proof.
  intros Hwf Htune. unfold main_loop_v1, main_loop_v2.
  destruct (negb (gameOver (game s)) && negb (win (game s)));
    [|by rewrite idle_frame_in_tune].
  unfold playing_frame.
  pose proof (left_click_sfx_copies fuel (board (game s)) (gameOver (game s))
                (audio s) (mouse_row i) (mouse_col i) Hwf) as Hleft.
  assert (match
      (if left_pressed i
       then left_click_sfx (RevealEmptySfx fuel) (board (game s)) (gameOver (game s))
              (audio s) (mouse_row i) (mouse_col i)
       else Some (board (game s), gameOver (game s), audio s, [])),
      (if left_pressed i
       then left_click_sfx (RevealEmptyCells fuel) (board (game s)) (gameOver (game s))
              (audio s) (mouse_row i) (mouse_col i)
       else Some (board (game s), gameOver (game s), audio s, [])) with
    | Some (b1, over1, a1, l1), Some (b2, over2, a2, l2) =>
        b1 = b2 ∧ over1 = over2 ∧ a1 = a2 ∧
        filter (λ x, x ≠ sNumber) l1 = filter (λ x, x ≠ sNumber) l2
    | None, None => True
    | _, _ => False
    end) as Hblock by (by destruct (left_pressed i)).
  clear Hleft.
  destruct (if left_pressed i then left_click_sfx (RevealEmptySfx fuel) _ _ _ _ _
            else _) as [[[[b1 over1] a1] l1]|];
    destruct (if left_pressed i then left_click_sfx (RevealEmptyCells fuel) _ _ _ _ _
              else _) as [[[[b2 over2] a2] l2]|]; try done.
  destruct Hblock as (<- & <- & <- & Hlogs). cbn [mbind option_bind].
  destruct (right_pressed i); rewrite ?right_click_sfx_spec; cbn beta iota;
    rewrite win_check_sfx_spec; (split; [done|]);
    by rewrite !(filter_app _ l1), !(filter_app _ l2), Hlogs.
Qed.

Lemma X16_witness :
  match main_loop_v1 82 sample_start (mkInput 0 0 true false),
        main_loop_v2 82 sample_start (mkInput 0 0 true false) with
  | Some (s1, l1), Some (s2, l2) =>
      s1 = s2 ∧ filter (λ x, x ≠ sNumber) l1 = filter (λ x, x ≠ sNumber) l2
  | None, None => True
  | _, _ => False
  end.
Proof.
  apply (X16_copies_agree_up_to_number_sound 82 sample_start
           (mkInput 0 0 true false)).
  - exact wf_sample_game.
  - by vm_compute.
Defined.

(** ** Runs *)

Lemma session_run_in_tune loop s0 s log :
  loop = main_loop_v1 ∨ loop = main_loop_v2 →
  wf_board (board (game s0)) → in_tune s0 → session_run loop s0 s log →
  wf_board (board (game s)) ∧ in_tune s.
Proof.
  intros Hloop Hwf0 Htune0 Hrun.
  induction Hrun as [|fuel s log i s' l _ [Hwf Htune] Hstep]; [done|].
  destruct (main_loop_sounds loop fuel s i s' l Hloop Hwf Htune Hstep) as [Htune' _].
  pose proof (main_loop_game loop fuel s i s' l Hloop Hstep) as Hframe.
  split; [by eapply (frame_layout fuel (game s) i (game s') 0 0)|done].
Qed.

(** X17: the sound calls in the [else] branch of the first copy's loop
    never play. In a run that starts with the three trackers in tune with
    the game (as [main] starts it: a game being played, all three off),
    once the game is won or lost every further frame returns the same
    session and is silent. *)
Theorem X17_else_branch_is_silent s0 s log fuel i :
  wf_board (board (game s0)) → in_tune s0 →
  session_run main_loop_v1 s0 s log → phase (game s) ≠ Playing →
  main_loop_v1 fuel s i = Some (s, []).
Proof.
  intros Hwf0 Htune0 Hrun Hphase.
  destruct (session_run_in_tune main_loop_v1 s0 s log) as [_ Htune]; auto.
  unfold main_loop_v1.
  destruct (negb (gameOver (game s)) && negb (win (game s))) eqn:Hplaying.
  - apply andb_true_iff in Hplaying as [Hover%negb_true_iff Hwin%negb_true_iff].
    destruct Hphase. by apply phase_Playing.
  - by rewrite idle_frame_in_tune.
Qed.

Lemma sample_session_run :
  session_run main_loop_v1 sample_session sample_session_lost ([] ++ [sBoom; sOver]).
Proof.
  apply (session_frame main_loop_v1 sample_session 82 sample_session []
           (mkInput 1 2 true false)); [apply session_start|].
  vm_compute. reflexivity.
Qed.

Lemma X17_witness :
  main_loop_v1 82 sample_session_lost (mkInput 0 0 true true) =
    Some (sample_session_lost, []).
Proof.
  apply (X17_else_branch_is_silent sample_session sample_session_lost
           ([] ++ [sBoom; sOver]) 82 (mkInput 0 0 true true)).
  - exact (inv_wf _ (inv_board _ (reachable_inv _ sample_flagged_reachable))).
  - by vm_compute.
  - exact sample_session_run.
  - by vm_compute.
Defined.

(** X18: the sounds of the frame that ends the game, in either copy, for
    a game the program can be in with the trackers in tune. The frame that
    loses the game plays the boom sound and then the game-over sound and
    nothing else; the log of the frame that wins the game ends with the win
    sound. *)
Theorem X18_sounds_of_the_last_frame loop fuel s i s' log :
  loop = main_loop_v1 ∨ loop = main_loop_v2 →
  reachable (game s) → in_tune s → phase (game s) = Playing →
  loop fuel s i = Some (s', log) →
  (gameOver (game s') = true → log = [sBoom; sOver]) ∧
  (win (game s') = true → ∃ l, log = l ++ [sWin]).
Proof.
  intros Hloop Hreach (Ho & Hw & Hbm) [Hover Hwin]%phase_Playing Hrun.
  pose proof (reachable_inv _ Hreach) as Hinv.
  pose proof (inv_wf _ (inv_board _ Hinv)) as Hwf.
  destruct (main_loop_cases _ _ _ _ _ _ Hloop Hrun)
    as [(_ & _ & cascade & Hproj & Hlog & Hframe)|([?|?] & _)]; [|congruence..].
  apply playing_frame_parts in Hframe
    as (b1 & over1 & a1 & log1 & Hleft & b2 & Hb2 & -> & ->).
  cbn [game board gameOver win]. rewrite Hover, Hwin in *.
  destruct (left_block_shape _ _ _ _ _ _ _ _ _ Hwf Hleft)
    as [(-> & -> & -> & -> & _)|(_ & Hb & Hf & Hr & [(Hm & Hb1 & -> & -> & ->)|
         (Hm & -> & -> & Hsafe)])].
  - split; [done|]. destruct (CheckWin b2); [|done]. intros _.
    rewrite Hw. cbn [negb andb]. eexists. by rewrite app_assoc.
  - assert (same_safe (board (game s)) b1) as Hsame.
    { rewrite Hb1. eapply same_safe_trans; [by apply set_revealed_mine_same_safe|].
      by apply RevealAllMines_same_safe, wf_set_revealed. }
    assert (revealed (cell_at b1 (mouse_row i) (mouse_col i)) = true) as Hshown.
    { rewrite Hb1.
      destruct (RevealAllMines_spec (set_revealed (board (game s)) (mouse_row i)
                  (mouse_col i) true)) as [_ Hcells]; [by apply wf_set_revealed|].
      rewrite Hcells by done. unfold mine_shown. read_cells.
      cbn [hasMine revealed]. by rewrite Hm. }
    assert (CheckWin b2 = false) as Hcheck.
    { rewrite Hb2. rewrite <- Hwin, (inv_win _ Hinv).
      rewrite <- (CheckWin_same_safe _ _ Hsame).
      destruct (right_pressed i); [|done].
      apply CheckWin_same_safe, right_click_same_safe, Hsame. }
    rewrite Hcheck, Hshown, Hbm, Ho, andb_false_r. by split.
  - split; [done|]. destruct (CheckWin b2); [|done]. intros _.
    rewrite Hw. cbn [negb andb]. eexists. by rewrite app_assoc.
Qed.

Lemma X18_witness :
  (gameOver (game sample_session_lost) = true → [sBoom; sOver] = [sBoom; sOver]) ∧
  (win (game sample_session_lost) = true → ∃ l, [sBoom; sOver] = l ++ [sWin]).
Proof.
  apply (X18_sounds_of_the_last_frame main_loop_v2 82 sample_session
           (mkInput 1 2 true false)).
  - by right.
  - exact sample_flagged_reachable.
  - by vm_compute.
  - by vm_compute.
  - vm_compute. reflexivity.
Defined.

(** * Drawing *)

Lemma elem_of_DrawGame b over win cmd :
  cmd ∈ DrawGame b over win ↔
    cmd = BeginDrawing ∨ cmd = ClearBackground (RGBA 48 99 47 255) ∨
    (∃ r c, in_bounds r c = true ∧ cmd ∈ DrawCell b r c) ∨
    cmd = (if over then
             DrawText (TextLiteral "GAME OVER!"%string) 10 (ROWS * CELL_SIZE + 10)
               30 RED
           else if win then
             DrawText (TextLiteral "YOU WIN!"%string) 10 (ROWS * CELL_SIZE + 10)
               30 GREEN
           else
             DrawText (TextLiteral "Left-click: Reveal | Right-click: Flag"%string)
               10 (ROWS * CELL_SIZE + 15) 20 RAYWHITE) ∨
    cmd = EndDrawing.
Proof.
  unfold DrawGame. rewrite !elem_of_app, !elem_of_cons, !elem_of_nil.
  assert (cmd ∈ (r ← seqZ 0 ROWS; c ← seqZ 0 COLS; DrawCell b r c) ↔
          ∃ r c, in_bounds r c = true ∧ cmd ∈ DrawCell b r c) as ->; [|tauto].
  rewrite list_elem_of_bind. split.
  - intros (r & (c & Hcmd & Hc%elem_of_seqZ)%list_elem_of_bind & Hr%elem_of_seqZ).
    exists r, c. split; [apply in_bounds_spec; lia|done].
  - intros (r & c & [Hr Hc]%in_bounds_spec & Hcmd). exists r.
    split; [|apply elem_of_seqZ; lia]. apply list_elem_of_bind. exists c.
    split; [done|apply elem_of_seqZ; lia].
Qed.

Lemma DrawCell_offsets r c :
  rect_x (cell_rect r c) + CELL_SIZE ÷ 2 - 8 = c * CELL_SIZE + 22 ∧
  rect_y (cell_rect r c) + CELL_SIZE ÷ 2 - 12 = r * CELL_SIZE + 18 ∧
  rect_y (cell_rect r c) + CELL_SIZE ÷ 2 + 8 = r * CELL_SIZE + 38.
Proof.
  unfold cell_rect, CELL_SIZE. cbn [rect_x rect_y]. change (60 ÷ 2) with 30. lia.
Qed.

Lemma DrawCell_texture b r c dest tint :
  DrawTexturePro dest tint ∈ DrawCell b r c ↔
    revealed (cell_at b r c) = true ∧ hasMine (cell_at b r c) = true ∧
    dest = cell_rect r c ∧ tint = WHITE.
Proof.
  unfold DrawCell. cbn zeta.
  destruct (revealed (cell_at b r c)), (hasMine (cell_at b r c)),
    (0 <? nearbyMines (cell_at b r c)), (flagged (cell_at b r c));
    rewrite !elem_of_app, !elem_of_cons, !elem_of_nil;
    (split; [intros Hcmd; destruct_or?; simplify_eq; done
            |intros (? & ? & -> & ->); try done; right; by left]).
Qed.

Lemma DrawCell_digit b r c t x y size col :
  DrawText t x y size col ∈ DrawCell b r c ↔
    revealed (cell_at b r c) = true ∧ hasMine (cell_at b r c) = false ∧
    0 < nearbyMines (cell_at b r c) ∧ t = TextFormat_d (nearbyMines (cell_at b r c)) ∧
    x = c * CELL_SIZE + 22 ∧ y = r * CELL_SIZE + 18 ∧ size = 25 ∧ col = BLUE.
Proof.
  unfold DrawCell. cbn zeta.
  destruct (DrawCell_offsets r c) as (-> & -> & _).
  destruct (revealed (cell_at b r c)), (hasMine (cell_at b r c)),
    (0 <? nearbyMines (cell_at b r c)) eqn:Hpos, (flagged (cell_at b r c));
    rewrite !elem_of_app, !elem_of_cons, !elem_of_nil;
    try apply Z.ltb_lt in Hpos; try apply Z.ltb_ge in Hpos;
    (split; [intros Hcmd; destruct_or?; simplify_eq; try done; by split_and!
            |intros (? & ? & ? & -> & -> & -> & -> & ->); try done; try lia;
             right; by left]).
Qed.

Lemma DrawCell_triangle b r c v1 v2 v3 col :
  DrawTriangle v1 v2 v3 col ∈ DrawCell b r c →
  revealed (cell_at b r c) = false ∧ flagged (cell_at b r c) = true ∧
  v1 = (c * CELL_SIZE + 22, r * CELL_SIZE + 38).
Proof.
  unfold DrawCell. cbn zeta.
  destruct (DrawCell_offsets r c) as (-> & _ & ->).
  destruct (revealed (cell_at b r c)), (hasMine (cell_at b r c)),
    (0 <? nearbyMines (cell_at b r c)), (flagged (cell_at b r c));
    rewrite !elem_of_app, !elem_of_cons, !elem_of_nil;
    intros Hcmd; destruct_or?; simplify_eq; done.
Qed.

Lemma DrawCell_rectangle b r c :
  (∀ rec col, DrawRectangleRec rec col ∈ DrawCell b r c → rec = cell_rect r c) ∧
  ∃ col, DrawRectangleRec (cell_rect r c) col ∈ DrawCell b r c.
Proof.
  unfold DrawCell. cbn zeta. split.
  - intros rec col.
    destruct (revealed (cell_at b r c)), (hasMine (cell_at b r c)),
      (0 <? nearbyMines (cell_at b r c)), (flagged (cell_at b r c));
      rewrite !elem_of_app, !elem_of_cons, !elem_of_nil;
      intros Hcmd; destruct_or?; simplify_eq; done.
  - destruct (revealed (cell_at b r c)); eexists; apply elem_of_app; left; by left.
Qed.

(** After a loss every mine is open. *)
Lemma reachable_lost_mines_shown g :
  reachable g → gameOver g = true →
  ∀ r c, in_bounds r c = true → hasMine (cell_at (board g) r c) = true →
    revealed (cell_at (board g) r c) = true.
Proof.
  induction 1 as [fuel rand b0 g Hwf0 Hnew|fuel g i g' Hreach IH Hframe].
  { destruct (NewGame_spec _ _ _ _ Hwf0 Hnew) as (_ & Hover & _). congruence. }
  pose proof (inv_wf _ (inv_board _ (reachable_inv _ Hreach))) as Hwf.
  destruct (gameOver g) eqn:Hover;
    [rewrite frame_finished in Hframe by auto; injection Hframe as <-; auto|].
  destruct (win g) eqn:Hwin;
    [rewrite frame_finished in Hframe by auto; injection Hframe as <-; congruence|].
  destruct (frame_playing _ _ _ _ Hover Hwin Hframe) as (b2 & over & Hinput & ->).
  cbn [board gameOver]. intros -> r c Hb.
  destruct (HandleMouseInput_result _ _ _ _ _ _ Hwf Hinput) as (b1 & Hleft & ->).
  destruct (left_pressed i); [|by destruct Hleft].
  assert (wf_board b1 ∧ (hasMine (cell_at b1 r c) = true →
                         revealed (cell_at b1 r c) = true)) as [Hwf1 Hshown].
  { inversion Hleft as [?|Hbc Hf Hr Hm|Hbc Hf Hr Hm Hnz|b' Hbc Hf Hr Hm Hz Hrun];
      try congruence.
    destruct (RevealAllMines_spec (set_revealed (board g) (mouse_row i) (mouse_col i)
                true)) as [Hwf1 Hcells]; [by apply wf_set_revealed|].
    split; [done|]. rewrite Hcells by done. unfold mine_shown.
    destruct (hasMine (cell_at (set_revealed _ _ _ _) r c)) eqn:Hmine; [done|].
    congruence. }
  destruct (right_pressed i); [|done].
  destruct (right_click_spec b1 (mouse_row i) (mouse_col i) Hwf1) as [_ Hcells].
  rewrite Hcells by done. by case_decide.
Qed.

Lemma cell_rect_inj r c r' c' : cell_rect r c = cell_rect r' c' → r = r' ∧ c = c'.
Proof. unfold cell_rect, CELL_SIZE. intros [= ? ?]. lia. Qed.

Lemma elem_of_screen_cell g r c cmd :
  in_bounds r c = true → cmd ∈ DrawCell (board g) r c → cmd ∈ screen g.
Proof.
  intros Hb Hcmd. unfold screen. rewrite elem_of_DrawGame.
  right. right. left. by exists r, c.
Qed.

(** X19: the mine image is on the screen only after a loss, and then on
    every mine, flagged or not: for a game the program can be in,
    [DrawGame] draws [boomTexture] into the rectangle of a cell exactly when
    the game is lost and the cell has a mine. *)
Theorem X19_mine_image_iff_lost_mine g r c :
  reachable g → in_bounds r c = true →
  DrawTexturePro (cell_rect r c) WHITE ∈ screen g ↔
    gameOver g = true ∧ hasMine (cell_at (board g) r c) = true.
Proof.
  intros Hreach Hb. unfold screen. rewrite elem_of_DrawGame. split.
  - intros [?|[?|[(r' & c' & Hb' & Hcmd)|[Hcmd|?]]]]; try done.
    + apply DrawCell_texture in Hcmd as (Hr & Hm & [<- <-]%cell_rect_inj & _).
      split; [|done]. destruct (gameOver g) eqn:Hover; [done|].
      rewrite (inv_hidden_mines _ (reachable_inv _ Hreach)) in Hr; done.
    + by destruct (gameOver g), (win g).
  - intros [Hover Hm]. right. right. left. exists r, c. split; [done|].
    apply DrawCell_texture. split_and!; [|done..].
    by apply reachable_lost_mines_shown.
Qed.

Lemma sample_lost_reachable : reachable sample_lost.
Proof.
  apply (reachable_frame 82 sample_flagged (mkInput 1 2 true false));
    [exact sample_flagged_reachable|exact sample_lost_frame].
Qed.

Lemma X19_witness :
  DrawTexturePro (cell_rect 0 6) WHITE ∈ screen sample_lost ↔
    gameOver sample_lost = true ∧ hasMine (cell_at (board sample_lost) 0 6) = true.
Proof.
  apply (X19_mine_image_iff_lost_mine sample_lost 0 6 sample_lost_reachable).
  by vm_compute.
Defined.

(** X20: every digit on the screen is right. If [DrawGame] draws the
    number [n] for a game the program can be in, then it draws it in the
    rectangle of a cell of the grid that is open and has no mine, [n] is
    the number of mines among the neighbours of that cell, and
    [1 <= n <= 8]. *)
Theorem X20_digits_on_screen g n x y size col :
  reachable g → DrawText (TextFormat_d n) x y size col ∈ screen g →
  ∃ r c, in_bounds r c = true ∧
    x = c * CELL_SIZE + 22 ∧ y = r * CELL_SIZE + 18 ∧
    revealed (cell_at (board g) r c) = true ∧
    hasMine (cell_at (board g) r c) = false ∧
    n = Z.of_nat (mined_neighbours (board g) r c) ∧ 1 ≤ n ≤ 8.
Proof.
  intros Hreach. unfold screen. rewrite elem_of_DrawGame.
  intros [?|[?|[(r & c & Hb & Hcmd)|[Hcmd|?]]]]; try done;
    [|by destruct (gameOver g), (win g)].
  apply DrawCell_digit in Hcmd as (Hr & Hm & Hpos & [= ->] & -> & -> & _).
  exists r, c. split_and!; try done.
  - by apply (inv_counts _ (inv_board _ (reachable_inv _ Hreach))).
  - lia.
  - rewrite (inv_counts _ (inv_board _ (reachable_inv _ Hreach))) by done.
    pose proof (mined_neighbours_at_most_8 (board g) r c Hb). lia.
Qed.

Lemma X20_witness :
  ∃ r c, in_bounds r c = true ∧
    82 = c * CELL_SIZE + 22 ∧ 78 = r * CELL_SIZE + 18 ∧
    revealed (cell_at (board sample_opened) r c) = true ∧
    hasMine (cell_at (board sample_opened) r c) = false ∧
    2 = Z.of_nat (mined_neighbours (board sample_opened) r c) ∧ 1 ≤ 2 ≤ 8.
Proof.
  apply (X20_digits_on_screen sample_opened 2 82 78 25 BLUE sample_opened_reachable).
  apply (elem_of_screen_cell sample_opened 1 1); [done|].
  vm_compute. repeat constructor.
Defined.

(** X21: flags on the final screens. For a finished game the program can
    be in, a flag drawn in a cell of the grid marks a mine exactly when the
    game is won: on the winning screen every flag is on a mine, on the
    losing screen no flag is on a mine (the mine image has taken its
    place). *)
Theorem X21_flags_on_final_screens g r c v2 v3 col :
  reachable g → in_bounds r c = true → phase g ≠ Playing →
  DrawTriangle (c * CELL_SIZE + 22, r * CELL_SIZE + 38) v2 v3 col ∈ screen g →
  hasMine (cell_at (board g) r c) = true ↔ phase g = Won.
Proof.
  intros Hreach Hb Hphase. unfold screen. rewrite elem_of_DrawGame.
  intros [?|[?|[(r' & c' & Hb' & Hcmd)|[Hcmd|?]]]]; try done;
    [|by destruct (gameOver g), (win g)].
  apply DrawCell_triangle in Hcmd as (Hr & _ & [= Hc' Hr']).
  assert (r' = r ∧ c' = c) as [-> ->] by (unfold CELL_SIZE in *; lia).
  destruct (gameOver g) eqn:Hover.
  - assert (phase g = Lost) as -> by (by apply phase_Lost).
    split; [|done]. intros Hm.
    rewrite (reachable_lost_mines_shown g Hreach Hover r c Hb Hm) in Hr. done.
  - destruct (win g) eqn:Hwin; [|destruct Hphase; by apply phase_Playing].
    assert (phase g = Won) as -> by (by apply phase_Won).
    split; [done|]. intros _.
    rewrite (reachable_won_cells g Hreach Hover Hwin r c Hb) in Hr.
    by destruct (hasMine (cell_at (board g) r c)).
Qed.

Lemma sample_won_flagged_reachable : reachable sample_won_flagged.
Proof.
  apply (plays_reachable sample_flagged); [exact sample_flagged_reachable|].
  apply (run_plays 82
    ((λ p : Z * Z, mkInput p.1 p.2 true false) <$>
     filter (λ p, hasMine (cell_at (board sample_game) p.1 p.2) = false) all_cells)).
  vm_compute. reflexivity.
Qed.

Lemma X21_witness :
  hasMine (cell_at (board sample_won_flagged) 0 6) = true ↔
    phase sample_won_flagged = Won.
Proof.
  apply (X21_flags_on_final_screens sample_won_flagged 0 6 (382, 18) (398, 28) RED
           sample_won_flagged_reachable).
  - done.
  - by vm_compute.
  - apply (elem_of_screen_cell sample_won_flagged 0 6); [done|].
    vm_compute. repeat constructor.
Defined.

(** X6: the cell rectangles that [DrawGame] fills tile the board area:
    every pixel [(x, y)] with [0 <= x < COLS * CELL_SIZE] and
    [0 <= y < ROWS * CELL_SIZE] lies in exactly one of them, the rectangle
    of the cell in row [y / CELL_SIZE] and column [x / CELL_SIZE]. *)
Theorem X6_cell_rectangles_tile_the_board b over win x y :
  0 ≤ x < COLS * CELL_SIZE → 0 ≤ y < ROWS * CELL_SIZE →
  (∃ col, DrawRectangleRec (cell_rect (y ÷ CELL_SIZE) (x ÷ CELL_SIZE)) col
            ∈ DrawGame b over win) ∧
  ∀ rec col, DrawRectangleRec rec col ∈ DrawGame b over win →
    inside rec x y ↔ rec = cell_rect (y ÷ CELL_SIZE) (x ÷ CELL_SIZE).
Proof.
  intros Hx Hy.
  assert (0 ≤ x ÷ CELL_SIZE < COLS ∧ 0 ≤ y ÷ CELL_SIZE < ROWS ∧
          CELL_SIZE * (x ÷ CELL_SIZE) ≤ x < CELL_SIZE * (x ÷ CELL_SIZE) + CELL_SIZE ∧
          CELL_SIZE * (y ÷ CELL_SIZE) ≤ y < CELL_SIZE * (y ÷ CELL_SIZE) + CELL_SIZE)
    as (Hc & Hr & Hxc & Hyr).
  { unfold ROWS, COLS, CELL_SIZE in *. rewrite !Z.quot_div_nonneg by lia.
    pose proof (Z.div_mod x 60). pose proof (Z.mod_pos_bound x 60).
    pose proof (Z.div_mod y 60). pose proof (Z.mod_pos_bound y 60). lia. }
  split.
  - destruct (DrawCell_rectangle b (y ÷ CELL_SIZE) (x ÷ CELL_SIZE)) as [_ [col Hcol]].
    exists col. apply elem_of_DrawGame. right. right. left.
    exists (y ÷ CELL_SIZE), (x ÷ CELL_SIZE). split; [by apply in_bounds_spec|done].
  - intros rec col.
    rewrite elem_of_DrawGame.
    intros [?|[?|[(r & c & Hb & Hcmd)|[Hcmd|?]]]]; try done;
      [|by destruct over, win].
    apply DrawCell_rectangle in Hcmd as ->. unfold inside, cell_rect.
    cbn [rect_x rect_y rect_width rect_height]. split.
    + intros [? ?]. f_equal; unfold CELL_SIZE in *; lia.
    + intros [= Hc' Hr']. unfold CELL_SIZE in *. lia.
Qed.

Lemma X6_witness :
  (∃ col, DrawRectangleRec (cell_rect (200 ÷ CELL_SIZE) (539 ÷ CELL_SIZE)) col
            ∈ DrawGame (board sample_opened) false false) ∧
  ∀ rec col, DrawRectangleRec rec col ∈ DrawGame (board sample_opened) false false →
    inside rec 539 200 ↔ rec = cell_rect (200 ÷ CELL_SIZE) (539 ÷ CELL_SIZE).
Proof.
  apply (X6_cell_rectangles_tile_the_board (board sample_opened) false false 539 200);
    by vm_compute.
Defined.
